(** * Credential and identity core of open-balena-api

    A shallow embedding of [src/infra/auth/auth.ts] and
    [src/platform/api-keys.ts].

    The code is asynchronous TypeScript that talks to external
    collaborators (the pinejs store, the hashing primitive, the request
    middlewares).  Every function that awaits something is embedded as a
    program of the free monad [Prog]: a finite tree whose internal nodes
    are the external calls the code issues, in the order it issues them.
    The meaning of the calls is supplied afterwards by a handler, so a
    statement quantified over all handlers holds whatever the
    collaborators answer.  A concrete reference store (a handler over
    in-memory tables with transactions and fault injection) is used where
    a property is about rows of the database.

    [auth.ts] imports [retrieveAPIKey] from its sibling [./api-keys]; the
    function is embedded from [src/platform/api-keys.ts], the file that
    also holds [createApiKey]. *)

From Stdlib Require Import String Ascii List ZArith Lia Bool.
Import ListNotations.
Open Scope string_scope.
Open Scope list_scope.

Set Implicit Arguments.

(** ** Errors and results *)

(** The error classes the code throws.  [PlainError] is the built-in
    [Error], [TypeError] the one raised by a failed destructuring and
    [ExternalError] any rejection that originates in a collaborator. *)
Inductive Error : Type :=
| BadRequestError (msg : string)
| ConflictError (msg : string)
| UnauthorizedError (msg : string)
| NotFoundError (msg : string)
| ForbiddenError
| PlainError (msg : string)
| TypeError (msg : string)
| ExternalError (msg : string).

Inductive Result (A : Type) : Type :=
| Ok (a : A)
| Err (e : Error).

Arguments Ok {A} a.
Arguments Err {A} e.

Definition is_ok {A} (r : Result A) : bool :=
  match r with Ok _ => true | Err _ => false end.

(** ** Data *)

(** A transaction handle of the store. *)
Definition Tx := nat.

(** A row of the [user] resource ([DbUser] of the models). *)
Module DbUser.
Record t : Type := mk {
  id : Z;
  actor : Z;
  username : string;
  email : string;
  password : option string;
  created_at : string;
  jwt_secret : option string
}.
End DbUser.

(** The user object attached to a request: [userFields], and the
    optional [permissions] of a pinejs user. *)
Module User.
Record t : Type := mk {
  id : Z;
  username : string;
  email : string;
  created_at : string;
  jwt_secret : option string;
  permissions : option (list string)
}.
End User.

(** The API key attached to a request by the pinejs middleware. *)
Module ApiKey.
Record t : Type := mk {
  key : string;
  permissions : option (list string)
}.
End ApiKey.

(** The part of a request object the code reads and writes.  [has_get]
    is ['get' in req] and [authorization] what [req.get('Authorization')]
    returns. *)
Module Request.
Record t : Type := mk {
  user : option User.t;
  creds : option User.t;
  apiKey : option ApiKey.t;
  has_get : bool;
  authorization : option string
}.

Definition set_creds (c : option User.t) (r : t) : t :=
  mk (user r) c (apiKey r) (has_get r) (authorization r).

Definition set_user_and_creds (u : option User.t) (r : t) : t :=
  mk u u (apiKey r) (has_get r) (authorization r).
End Request.

(** Values of an untyped object ([AnyObject]). *)
Inductive Value : Type :=
| VUndefined
| VNull
| VBool (b : bool)
| VNum (n : Z)
| VStr (s : string).

Definition AnyObject := list (string * Value).

Fixpoint get_prop (o : AnyObject) (name : string) : Value :=
  match o with
  | [] => VUndefined
  | (k, v) :: rest => if String.eqb k name then v else get_prop rest name
  end.

(** [v == null]. *)
Definition is_nullish (v : Value) : bool :=
  match v with
  | VUndefined | VNull => true
  | _ => false
  end.

(** The argument of [registerUser]: an [AnyObject] with typed
    [username], [email] and optional [password]. *)
Module UserData.
Record t : Type := mk {
  username : string;
  email : string;
  password : option string;
  rest : AnyObject
}.
End UserData.

(** What [api.resin.get] answers for [$select: 'actor'] on an entity. *)
Module Actorable.
Record t : Type := mk { actor : option Z }.
End Actorable.

(** [passthrough.req]: the caller's request or [permissions.root]. *)
Inductive Caller : Type := AsRequest | AsRoot.

(** ** External calls *)

Inductive Event : Type :=
| HashedCompare (password hash : string)
| ResinPatchUserPassword (id : Z) (newPassword : string) (tx : option Tx)
| ResinGetUserById (userId : Z) (select : list string)
| ResinGetUserWhereLower (loginField loginInfo : string)
                         (select : list string) (tx : option Tx)
| ResinPostUser (body : UserData.t) (tx : Tx) (clientIP : option string)
| GetIP (req : Request.t)
| GetUserQuery (key : string)
| ApiKeyMiddleware (req : Request.t)
| AuthorizationMiddleware (req : Request.t)
| IsJWT (token : string)
| RandomstringGenerate
| ResinGetActor (actorType : string) (id : Z) (tx : Tx)
| ResinCanAccess (actorType : string) (id : Z) (action : string) (tx : Tx)
| AuthPostApiKey (is_of__actor : Z) (key : string)
                 (name description : option string) (tx : Tx)
| AuthGetRole (name : string) (tx : Tx)
| AuthPostApiKeyHasRole (api_key role : Z) (tx : Tx)
| DbBegin
| DbEnd (tx : Tx)
| DbRollback (tx : Tx).

(** The type of the answer to each call.  A middleware mutates the
    request in place; here it answers the mutated request.  The
    access-control check answers the list [res.d] as the [id] of each
    element (absent ids as [None]). *)
Definition resp (e : Event) : Type :=
  match e with
  | HashedCompare _ _ => bool
  | ResinPatchUserPassword _ _ _ => unit
  | ResinGetUserById _ _ => option DbUser.t
  | ResinGetUserWhereLower _ _ _ _ => list DbUser.t
  | ResinPostUser _ _ _ => AnyObject
  | GetIP _ => option string
  | GetUserQuery _ => list DbUser.t
  | ApiKeyMiddleware _ => Request.t
  | AuthorizationMiddleware _ => Request.t
  | IsJWT _ => bool
  | RandomstringGenerate => string
  | ResinGetActor _ _ _ => option Actorable.t
  | ResinCanAccess _ _ _ _ => list (option Z)
  | AuthPostApiKey _ _ _ _ _ => Z
  | AuthGetRole _ _ => list Z
  | AuthPostApiKeyHasRole _ _ _ => Z
  | DbBegin => Tx
  | DbEnd _ => unit
  | DbRollback _ => unit
  end.

(** ** Programs *)

(** [Vis e k] issues the call [e] and continues with [k] on its answer;
    [ReadReq]/[WriteReq] read and write the request object the function
    was handed; [TryCatch body handler k] is [try body catch handler]
    followed by [k]. *)
Inductive Prog (A : Type) : Type :=
| Ret (a : A)
| Throw (e : Error)
| Vis (e : Event) (k : resp e -> Prog A)
| ReadReq (k : Request.t -> Prog A)
| WriteReq (r : Request.t) (k : Prog A)
| TryCatch (B : Type) (body : Prog B) (handler : Error -> Prog B)
           (k : B -> Prog A).

Arguments Ret {A} a.
Arguments Throw {A} e.
Arguments Vis {A} e k.
Arguments ReadReq {A} k.
Arguments WriteReq {A} r k.
Arguments TryCatch {A B} body handler k.

Fixpoint bind {A B} (p : Prog A) (f : A -> Prog B) : Prog B :=
  match p with
  | Ret a => f a
  | Throw e => Throw e
  | Vis e k => Vis e (fun x => bind (k x) f)
  | ReadReq k => ReadReq (fun r => bind (k r) f)
  | WriteReq r k => WriteReq r (bind k f)
  | TryCatch body handler k => TryCatch body handler (fun x => bind (k x) f)
  end.

Declare Scope prog_scope.
Delimit Scope prog_scope with prog.
Notation "x <- p ;; q" := (bind p (fun x => q))
  (at level 61, p at next level, right associativity) : prog_scope.
Notation "p ;; q" := (bind p (fun _ => q))
  (at level 61, right associativity) : prog_scope.
Open Scope prog_scope.

Definition call (e : Event) : Prog (resp e) := Vis e Ret.
Definition read_req : Prog Request.t := ReadReq Ret.
Definition write_req (r : Request.t) : Prog unit := WriteReq r (Ret tt).
Definition try_catch {A} (body : Prog A) (handler : Error -> Prog A) : Prog A :=
  TryCatch body handler Ret.

(** The first external call a program issues, if it starts with one. *)
Definition first_call {A} (p : Prog A) : option Event :=
  match p with
  | Vis e _ => Some e
  | _ => None
  end.

(** ** Running a program against a handler *)

(** One step of a run: a call together with its answer or rejection. *)
Record Step : Type := mkStep {
  step_call : Event;
  step_answer : Result (resp step_call)
}.

Definition answered (e : Event) (x : resp e) : Step := mkStep e (Ok x).
Definition rejected_with (e : Event) (er : Error) : Step := mkStep e (Err er).

Definition rejected (st : Step) : bool := negb (is_ok (step_answer st)).

Section Run.
Variable S : Type.

(** A handler answers every call, or rejects it, and updates the state
    of the outside world. *)
Definition Handler : Type := forall e : Event, S -> Result (resp e) * S.

(** The world of a run: the request object at hand and the outside. *)
Record World : Type := mkWorld {
  w_req : Request.t;
  w_ext : S
}.

(** The outcome of a run: the result, the final world and the steps
    taken, oldest first. *)
Record Run (A : Type) : Type := mkRun {
  result : Result A;
  world : World;
  trace : list Step
}.

Variable h : Handler.

Fixpoint run {A} (p : Prog A) (w : World) : Run A :=
  match p with
  | Ret a => mkRun (Ok a) w []
  | Throw e => mkRun (Err e) w []
  | Vis e k =>
      match h e (w_ext w) with
      | (Ok x, s) =>
          let r := run (k x) (mkWorld (w_req w) s) in
          mkRun (result r) (world r) (answered e x :: trace r)
      | (Err er, s) =>
          mkRun (Err er) (mkWorld (w_req w) s) [rejected_with e er]
      end
  | ReadReq k => run (k (w_req w)) w
  | WriteReq r k => run k (mkWorld r (w_ext w))
  | TryCatch body handler k =>
      let r1 := run body w in
      match result r1 with
      | Ok x =>
          let r2 := run (k x) (world r1) in
          mkRun (result r2) (world r2) (trace r1 ++ trace r2)
      | Err er =>
          let r2 := run (handler er) (world r1) in
          match result r2 with
          | Ok x =>
              let r3 := run (k x) (world r2) in
              mkRun (result r3) (world r3) (trace r1 ++ trace r2 ++ trace r3)
          | Err er' => mkRun (Err er') (world r2) (trace r1 ++ trace r2)
          end
      end
  end.
End Run.

Arguments mkWorld {S} w_req w_ext.
Arguments mkRun {S A} result world trace.

(** Every call a program can issue, on any path, satisfies [P]. *)
Fixpoint calls_satisfy {A} (P : Event -> Prop) (p : Prog A) : Prop :=
  match p with
  | Ret _ => True
  | Throw _ => True
  | Vis e k => P e /\ forall x, calls_satisfy P (k x)
  | ReadReq k => forall r, calls_satisfy P (k r)
  | WriteReq _ k => calls_satisfy P k
  | TryCatch body handler k =>
      calls_satisfy P body
      /\ (forall e, calls_satisfy P (handler e))
      /\ (forall x, calls_satisfy P (k x))
  end.

(** A program swallows a failure when some run of it returns normally
    although one of its calls was rejected; it propagates failures when
    no run does. *)
Definition swallows {A} (p : Prog A) : Prop :=
  exists (S : Type) (h : Handler S) (w : World S),
    is_ok (result (run h p w)) = true /\
    existsb rejected (trace (run h p w)) = true.

Definition propagates {A} (p : Prog A) : Prop :=
  forall (S : Type) (h : Handler S) (w : World S),
    is_ok (result (run h p w)) = true ->
    existsb rejected (trace (run h p w)) = false.

(** Which calls a step list contains. *)
Definition is_user_lookup (st : Step) : bool :=
  match step_call st with
  | GetUserQuery _ => true
  | _ => false
  end.

Definition is_user_write (st : Step) : bool :=
  match step_call st with
  | ResinPatchUserPassword _ _ _ => true
  | ResinPostUser _ _ _ => true
  | _ => false
  end.

Definition is_api_key_insert (st : Step) : bool :=
  match step_call st with
  | AuthPostApiKey _ _ _ _ _ => true
  | _ => false
  end.

Definition is_rollback (st : Step) : bool :=
  match step_call st with
  | DbRollback _ => true
  | _ => false
  end.

(** The answer of an access-control check, read off a step. *)
Definition access_answer (st : Step) : option (list (option Z)) :=
  match st with
  | mkStep (ResinCanAccess _ _ _ _) (Ok res) => Some res
  | _ => None
  end.

(** The answer of the prepared user-by-key query, read off a step. *)
Definition lookup_answer (st : Step) : option (list DbUser.t) :=
  match st with
  | mkStep (GetUserQuery _) (Ok users) => Some users
  | _ => None
  end.

(** [_.get(res, ['d', 0, 'id'])]. *)
Definition first_id (res : list (option Z)) : option Z :=
  match res with
  | first :: _ => first
  | [] => None
  end.

(** ** Strings as JavaScript sees them *)

(** A string is a sequence of code units; [String.length] is [.length]. *)
Definition truthy (s : string) : bool := negb (String.eqb s "").

(** [s.includes(c)] for a one-character needle. *)
Fixpoint includes_char (c : ascii) (s : string) : bool :=
  match s with
  | EmptyString => false
  | String d rest => Ascii.eqb d c || includes_char c rest
  end.

(** [s.split(sep)] for a one-character separator. *)
Fixpoint split (sep : ascii) (s : string) : list string :=
  match s with
  | EmptyString => [""]
  | String c rest =>
      if Ascii.eqb c sep then "" :: split sep rest
      else match split sep rest with
           | [] => [String c ""]
           | w :: ws => String c w :: ws
           end
  end.

(** [list.includes(x)] on an array of strings. *)
Definition includes (l : list string) (x : string) : bool :=
  existsb (String.eqb x) l.

(** * src/infra/auth/auth.ts *)

Definition USERNAME_BLACKLIST : list string := ["root"].

(** What [userHasPermission] is handed: a user or an API key. *)
Inductive Identity : Type :=
| OfUser (user : User.t)
| OfApiKey (apiKey : ApiKey.t).

Definition permissions_of (identity : Identity) : option (list string) :=
  match identity with
  | OfUser user => User.permissions user
  | OfApiKey apiKey => ApiKey.permissions apiKey
  end.

Definition userHasPermission (user : option Identity)
                             (permission : string) : bool :=
  match user with
  | None => false
  | Some user =>
      match permissions_of user with
      | None => false
      | Some permissions => includes permissions permission
      end
  end.

Definition INVALID_HASH : string :=
  "$2b$10$Wj6ud7bYmcAw4B1uuORsnuYODUKSkrH6dVwG1zoUhDeTCjwsxlp5.".

Definition runInvalidPasswordComparison : Prog bool :=
  call (HashedCompare "" INVALID_HASH).

Definition comparePassword (password : string) (hash : option string) : Prog bool :=
  match hash with
  | None => runInvalidPasswordComparison
  | Some hash => call (HashedCompare password hash)
  end.

(** [validatePassword] is synchronous: it returns or throws. *)
Definition validatePassword (password : option string) : Result unit :=
  match password with
  | None => Err (BadRequestError "Password required.")
  | Some password =>
      if negb (truthy password) then Err (BadRequestError "Password required.")
      else if (String.length password <? 8)%nat
           then Err (BadRequestError "Password must be at least 8 characters.")
           else Ok tt
  end.

(** [setPassword] unconditionally patches the password, as root. *)
Definition setPassword (user : DbUser.t) (newPassword : string)
                       (tx : option Tx) : Prog unit :=
  call (ResinPatchUserPassword (DbUser.id user) newPassword tx).

Definition defaultFindUser_select : list string :=
  ["id"; "actor"; "username"; "password"].

(** [findUser] answers the first row the store returns.  [select] is
    handed to the store, which narrows the row to those fields; the
    callers read no other field of it. *)
Definition findUser (loginInfo : string) (tx : option Tx)
                    (select : list string) : Prog (option DbUser.t) :=
  if negb (truthy loginInfo) then Ret None
  else
    let loginField :=
      if includes_char "@" loginInfo then "email" else "username" in
    users <- call (ResinGetUserWhereLower loginField loginInfo select tx) ;;
    Ret (hd_error users).

Definition updatePasswordIfNeeded (usernameOrEmail newPassword : string)
                                  (tx : option Tx) : Prog bool :=
  user <- findUser usernameOrEmail tx defaultFindUser_select ;;
  match user with
  | None => Throw (NotFoundError "User not found.")
  | Some user =>
      matches <- comparePassword newPassword (DbUser.password user) ;;
      if (matches : bool) then Ret false
      else
        try_catch (setPassword user newPassword tx ;; Ret true)
                  (fun _ => Ret false)
  end.

Definition checkUserPassword (password : string) (userId : Z) : Prog unit :=
  user <- call (ResinGetUserById userId ["password"; "id"]) ;;
  match user with
  | None => Throw (BadRequestError "User not found.")
  | Some user =>
      passwordIsOk <- comparePassword password (DbUser.password user) ;;
      if negb passwordIsOk
      then Throw (BadRequestError "Current password incorrect.")
      else Ret tt
  end.

Definition userFields : list string :=
  ["id"; "username"; "email"; "created_at"; "jwt_secret"].

(** [_.pick(user, userFields)]: the five fields and nothing else. *)
Definition pick_userFields (u : DbUser.t) : User.t :=
  User.mk (DbUser.id u) (DbUser.username u) (DbUser.email u)
          (DbUser.created_at u) (DbUser.jwt_secret u) None.

(** * src/platform/api-keys.ts, request part *)

Definition isRequest (req : Request.t) : bool := Request.has_get req.

(** [(req.get('Authorization') || '').split(' ')[1]]. *)
Definition bearer_token (req : Request.t) : option string :=
  let header :=
    match Request.authorization req with
    | Some a => if truthy a then a else ""
    | None => ""
    end in
  nth_error (split " " header) 1.

(** [retrieveAPIKey(req)], on the request object of the world: each
    middleware is handed the request and answers it as mutated. *)
Definition retrieveAPIKey : Prog unit :=
  req <- read_req ;;
  req <- call (ApiKeyMiddleware req) ;;
  write_req req ;;
  if negb (isRequest req) then Ret tt
  else
    match bearer_token req with
    | Some token =>
        if truthy token then
          jwt <- call (IsJWT token) ;;
          if negb jwt then
            req <- call (AuthorizationMiddleware req) ;;
            write_req req
          else Ret tt
        else Ret tt
    | None => Ret tt
    end.

(** * src/infra/auth/auth.ts, request part *)

(** [userHasPermission(req.apiKey || req.user, permission)]. *)
Definition reqHasPermission (req : Request.t) (permission : string) : bool :=
  userHasPermission
    (match Request.apiKey req with
     | Some apiKey => Some (OfApiKey apiKey)
     | None => option_map OfUser (Request.user req)
     end) permission.

(** [getUser(req, required)], on the request object of the world.  An
    absent API key and an empty key string are both falsy. *)
Definition getUser (required : bool) : Prog (option User.t) :=
  retrieveAPIKey ;;
  req <- read_req ;;
  match Request.user req, Request.creds req with
  | Some u, None => write_req (Request.set_creds (Some u) req)
  | _, _ => Ret tt
  end ;;
  req <- read_req ;;
  match Request.creds req with
  | Some _ =>
      match Request.user req with
      | None =>
          if required
          then Throw (UnauthorizedError "User has not been authorized")
          else Ret None
      | Some u => Ret (Some u)
      end
  | None =>
      let key :=
        match Request.apiKey req with
        | Some k => ApiKey.key k
        | None => ""
        end in
      if negb (truthy key) then
        if required
        then Throw (UnauthorizedError "Request has no JWT or API key")
        else Ret None
      else
        users <- call (GetUserQuery key) ;;
        match hd_error users with
        | Some user =>
            write_req
              (Request.set_user_and_creds (Some (pick_userFields user)) req)
        | None =>
            if required
            then Throw (UnauthorizedError "User not found for API key")
            else Ret tt
        end ;;
        req <- read_req ;;
        Ret (Request.user req)
  end.

Definition registerUser (userData : UserData.t) (tx : Tx)
                        (req : option Request.t) : Prog AnyObject :=
  if includes USERNAME_BLACKLIST (UserData.username userData)
  then Throw (ConflictError "This username is blacklisted")
  else
    existingUser <- findUser (UserData.email userData) (Some tx) ["id"] ;;
    match existingUser with
    | Some _ => Throw (ConflictError "This email is already taken")
    | None =>
        existingUser <- findUser (UserData.username userData) (Some tx) ["id"] ;;
        match existingUser with
        | Some _ => Throw (ConflictError "This username is already taken")
        | None =>
            clientIP <- match req with
                        | Some req => call (GetIP req)
                        | None => Ret None
                        end ;;
            user <- call (ResinPostUser userData tx clientIP) ;;
            if is_nullish (get_prop user "id")
            then Throw (PlainError "Error creating user in the platform")
            else Ret user
        end
    end.

(** * src/platform/api-keys.ts, key issuance *)

Module ApiKeyOptions.
Record t : Type := mk {
  apiKey : option string;
  name : option string;
  description : option string;
  tx : option Tx
}.
End ApiKeyOptions.

Module InternalApiKeyOptions.
Record t : Type := mk {
  apiKey : string;
  tx : Tx;
  name : option string;
  description : option string
}.
End InternalApiKeyOptions.

(** A promise observed as a value: settled with a result, never thrown. *)
Definition settle {A} (p : Prog A) : Prog (Result A) :=
  try_catch (x <- p ;; Ret (Ok x)) (fun e => Ret (Err e)).

(** [Promise.all([p, q])]: both calls are issued, in this order, before
    either is awaited; the first rejection in array order is thrown. *)
Definition promise_all2 {A B} (p : Prog A) (q : Prog B) : Prog (A * B) :=
  ra <- settle p ;;
  rb <- settle q ;;
  match ra, rb with
  | Ok a, Ok b => Ret (a, b)
  | Err e, _ => Throw e
  | Ok _, Err e => Throw e
  end.

(** The contract of the store's [sbvrUtils.db.transaction(fn)]: open a
    transaction, run [fn] on it, end (commit) it when [fn] resolves, roll
    it back and rethrow when [fn] or the commit rejects. *)
Definition db_transaction {A} (fn : Tx -> Prog A) : Prog A :=
  tx <- call DbBegin ;;
  try_catch
    (result <- fn tx ;; call (DbEnd tx) ;; Ret result)
    (fun err => call (DbRollback tx) ;; Throw err).

(** [$createApiKey]. *)
Definition dollar_createApiKey (actorType roleName : string) (req : Caller)
    (actorTypeID : Z) (options : InternalApiKeyOptions.t) : Prog string :=
  let tx := InternalApiKeyOptions.tx options in
  let apiKey := InternalApiKeyOptions.apiKey options in
  actorable <- call (ResinGetActor actorType actorTypeID tx) ;;
  match match actorable with
        | Some a => Actorable.actor a
        | None => None
        end with
  | None =>
      Throw (PlainError
               ("No " ++ actorType ++ " found to associate with the api key"))
  | Some actorID =>
      res <- call (ResinCanAccess actorType actorTypeID
                                  ("create-" ++ roleName) tx) ;;
      let resId := first_id res in
      if match resId with
         | Some resId => negb (Z.eqb resId actorTypeID)
         | None => true
         end
      then Throw ForbiddenError
      else
        both <- promise_all2
                  (call (AuthPostApiKey actorID apiKey
                           (InternalApiKeyOptions.name options)
                           (InternalApiKeyOptions.description options) tx))
                  (call (AuthGetRole roleName tx)) ;;
        match snd both with
        | [] => Throw (TypeError "Cannot read property 'id' of undefined")
        | roleId :: _ =>
            call (AuthPostApiKeyHasRole (fst both) roleId tx) ;;
            Ret apiKey
        end
  end.

Definition createApiKey (actorType roleName : string) (req : Caller)
    (actorTypeID : Z) (options : ApiKeyOptions.t) : Prog string :=
  apiKey <- match ApiKeyOptions.apiKey options with
            | None => call RandomstringGenerate
            | Some k => Ret k
            end ;;
  let internal tx :=
    InternalApiKeyOptions.mk apiKey tx (ApiKeyOptions.name options)
                             (ApiKeyOptions.description options) in
  match ApiKeyOptions.tx options with
  | Some tx =>
      dollar_createApiKey actorType roleName req actorTypeID (internal tx)
  | None =>
      db_transaction
        (fun tx =>
           dollar_createApiKey actorType roleName req actorTypeID (internal tx))
  end.


(** * A reference store

    An executable model of the collaborators: tables for the resources
    the core touches, transactions that work on a private copy of the
    committed tables until they end, and a fault plan that makes chosen
    calls reject.  It is one handler among all those the general
    statements quantify over; the statements about rows are made on it. *)

Module ApiKeyRow.
Record t : Type := mk {
  id : Z;
  is_of__actor : Z;
  key : string;
  name : option string;
  description : option string
}.
End ApiKeyRow.

Module RoleRow.
Record t : Type := mk {
  id : Z;
  name : string
}.
End RoleRow.

Module BindingRow.
Record t : Type := mk {
  id : Z;
  api_key : Z;
  role : Z
}.
End BindingRow.

Module EntityRow.
Record t : Type := mk {
  resource : string;
  id : Z;
  actor : option Z
}.
End EntityRow.

Module DB.
Record t : Type := mk {
  user : list DbUser.t;
  entity : list EntityRow.t;
  api_key : list ApiKeyRow.t;
  role : list RoleRow.t;
  api_key__has__role : list BindingRow.t;
  next_id : Z
}.

Definition add_api_key (row : ApiKeyRow.t) (db : t) : t :=
  mk (user db) (entity db) (api_key db ++ [row]) (role db)
     (api_key__has__role db) (next_id db + 1).

Definition add_binding (row : BindingRow.t) (db : t) : t :=
  mk (user db) (entity db) (api_key db) (role db)
     (api_key__has__role db ++ [row]) (next_id db + 1).

Definition add_user (row : DbUser.t) (db : t) : t :=
  mk (user db ++ [row]) (entity db) (api_key db) (role db)
     (api_key__has__role db) (next_id db + 2).

Definition set_users (users : list DbUser.t) (db : t) : t :=
  mk users (entity db) (api_key db) (role db)
     (api_key__has__role db) (next_id db).

(** The role bindings of the key with a given id. *)
Definition bindings_of (db : t) (key_id : Z) : list BindingRow.t :=
  filter (fun b => Z.eqb (BindingRow.api_key b) key_id) (api_key__has__role db).

(** No key is without a role binding. *)
Definition no_orphan_key (db : t) : Prop :=
  forall row, In row (api_key db) -> bindings_of db (ApiKeyRow.id row) <> [].

(** Ids are handed out from [next_id]: no binding refers to a key that
    is yet to be created. *)
Definition fresh_ids (db : t) : Prop :=
  Forall (fun b => (BindingRow.api_key b < next_id db)%Z) (api_key__has__role db).
End DB.

(** The collaborators that hold no tables. *)
Module Env.
Record t : Type := mk {
  hash : string -> string;
  compare : string -> string -> bool;
  can_access : string -> Z -> string -> list (option Z);
  is_jwt : string -> bool;
  api_key_middleware : Request.t -> Request.t;
  authorization_middleware : Request.t -> Request.t;
  get_ip : Request.t -> option string;
  randomstring : string
}.
End Env.

Module Store.
Record t : Type := mk {
  committed : DB.t;
  open_tx : list (Tx * DB.t);
  next_tx : Tx;
  faults : list (option Error)
}.

Definition set_committed (db : DB.t) (s : t) : t :=
  mk db (open_tx s) (next_tx s) (faults s).

Definition set_open_tx (l : list (Tx * DB.t)) (s : t) : t :=
  mk (committed s) l (next_tx s) (faults s).

Definition set_faults (l : list (option Error)) (s : t) : t :=
  mk (committed s) (open_tx s) (next_tx s) l.

Fixpoint lookup_tx (tx : Tx) (l : list (Tx * DB.t)) : option DB.t :=
  match l with
  | [] => None
  | (tx', db) :: rest => if Nat.eqb tx' tx then Some db else lookup_tx tx rest
  end.

Fixpoint update_tx (tx : Tx) (db : DB.t) (l : list (Tx * DB.t))
  : list (Tx * DB.t) :=
  match l with
  | [] => []
  | (tx', db') :: rest =>
      if Nat.eqb tx' tx then (tx', db) :: rest
      else (tx', db') :: update_tx tx db rest
  end.

Definition close_tx (tx : Tx) (l : list (Tx * DB.t)) : list (Tx * DB.t) :=
  filter (fun entry => negb (Nat.eqb (fst entry) tx)) l.

(** The tables a call sees: the committed ones without a transaction,
    the transaction's copy with one. *)
Definition visible (tx : option Tx) (s : t) : option DB.t :=
  match tx with
  | None => Some (committed s)
  | Some tx => lookup_tx tx (open_tx s)
  end.

Definition NOT_OPEN : Error := ExternalError "transaction is not open".

(** Run a query or an update on the tables [tx] sees. *)
Definition on_db {A} (tx : option Tx) (s : t) (f : DB.t -> Result A * DB.t)
  : Result A * t :=
  match tx with
  | None =>
      let (r, db) := f (committed s) in
      (r, match r with Ok _ => set_committed db s | Err _ => s end)
  | Some tx =>
      match lookup_tx tx (open_tx s) with
      | None => (Err NOT_OPEN, s)
      | Some db0 =>
          let (r, db) := f db0 in
          (r, match r with
              | Ok _ => set_open_tx (update_tx tx db (open_tx s)) s
              | Err _ => s
              end)
      end
  end.
End Store.

(** The store's [$tolower], on the letters A to Z. *)
Definition lower_ascii (c : ascii) : ascii :=
  let n := nat_of_ascii c in
  if (65 <=? n)%nat && (n <=? 90)%nat then ascii_of_nat (n + 32) else c.

Fixpoint tolower (s : string) : string :=
  match s with
  | EmptyString => EmptyString
  | String c rest => String (lower_ascii c) (tolower rest)
  end.

(** The calls that leave the committed tables alone: all but the end of
    a transaction and a write outside any transaction. *)
Definition keeps_committed (e : Event) : bool :=
  match e with
  | DbEnd _ => false
  | ResinPatchUserPassword _ _ None => false
  | _ => true
  end.

(** The calls of [$createApiKey] that only read, inside [tx]. *)
Definition reads_in (tx : Tx) (e : Event) : Prop :=
  match e with
  | ResinGetActor _ _ tx' => tx' = tx
  | ResinCanAccess _ _ _ tx' => tx' = tx
  | AuthGetRole _ tx' => tx' = tx
  | _ => False
  end.

Module RefStore.

Definition field_of (loginField : string) (u : DbUser.t) : option string :=
  if String.eqb loginField "email" then Some (DbUser.email u)
  else if String.eqb loginField "username" then Some (DbUser.username u)
  else None.

(** [$filter: $eq: [$tolower: field, $tolower: value]] on [user]. *)
Definition users_where_lower (loginField loginInfo : string) (db : DB.t)
  : list DbUser.t :=
  filter (fun u =>
            match field_of loginField u with
            | Some v => String.eqb (tolower v) (tolower loginInfo)
            | None => false
            end) (DB.user db).

(** The prepared query of [getUser]: the users whose actor owns an API
    key with the given key string, [$top: 1]. *)
Definition users_of_key (key : string) (db : DB.t) : list DbUser.t :=
  firstn 1
    (filter (fun u =>
               existsb (fun k => Z.eqb (ApiKeyRow.is_of__actor k) (DbUser.actor u)
                                 && String.eqb (ApiKeyRow.key k) key)
                       (DB.api_key db)) (DB.user db)).

Definition patch_password (env : Env.t) (id : Z) (newPassword : string)
                          (db : DB.t) : DB.t :=
  DB.set_users
    (map (fun u =>
            if Z.eqb (DbUser.id u) id
            then DbUser.mk (DbUser.id u) (DbUser.actor u) (DbUser.username u)
                           (DbUser.email u) (Some (Env.hash env newPassword))
                           (DbUser.created_at u) (DbUser.jwt_secret u)
            else u) (DB.user db)) db.

Definition created_user (env : Env.t) (body : UserData.t) (db : DB.t) : DbUser.t :=
  DbUser.mk (DB.next_id db) (DB.next_id db + 1)
            (UserData.username body) (UserData.email body)
            (option_map (Env.hash env) (UserData.password body)) "" None.

Definition created_object (body : UserData.t) (db : DB.t) : AnyObject :=
  ("id", VNum (DB.next_id db))
    :: ("username", VStr (UserData.username body))
    :: ("email", VStr (UserData.email body))
    :: UserData.rest body.

Definition FOREIGN_KEY : Error := ExternalError "foreign key violation".

Definition insert_binding (api_key role : Z) (db : DB.t) : Result Z * DB.t :=
  if existsb (fun k => Z.eqb (ApiKeyRow.id k) api_key) (DB.api_key db)
     && existsb (fun r => Z.eqb (RoleRow.id r) role) (DB.role db)
  then (Ok (DB.next_id db),
        DB.add_binding (BindingRow.mk (DB.next_id db) api_key role) db)
  else (Err FOREIGN_KEY, db).

(** The answer to a call that is not made to fail. *)
Definition answer (env : Env.t) (e : Event) : Store.t -> Result (resp e) * Store.t :=
  match e as e0 return Store.t -> Result (resp e0) * Store.t with
  | HashedCompare password hash => fun s =>
      (Ok (Env.compare env password hash), s)
  | ResinPatchUserPassword id newPassword tx => fun s =>
      Store.on_db tx s (fun db => (Ok tt, patch_password env id newPassword db))
  | ResinGetUserById userId _ => fun s =>
      (Ok (find (fun u => Z.eqb (DbUser.id u) userId)
                (DB.user (Store.committed s))), s)
  | ResinGetUserWhereLower loginField loginInfo _ tx => fun s =>
      Store.on_db tx s (fun db => (Ok (users_where_lower loginField loginInfo db), db))
  | ResinPostUser body tx _ => fun s =>
      Store.on_db (Some tx) s
        (fun db => (Ok (created_object body db),
                    DB.add_user (created_user env body db) db))
  | GetIP req => fun s => (Ok (Env.get_ip env req), s)
  | GetUserQuery key => fun s =>
      (Ok (users_of_key key (Store.committed s)), s)
  | ApiKeyMiddleware req => fun s => (Ok (Env.api_key_middleware env req), s)
  | AuthorizationMiddleware req => fun s =>
      (Ok (Env.authorization_middleware env req), s)
  | IsJWT token => fun s => (Ok (Env.is_jwt env token), s)
  | RandomstringGenerate => fun s => (Ok (Env.randomstring env), s)
  | ResinGetActor actorType id tx => fun s =>
      Store.on_db (Some tx) s
        (fun db =>
           (Ok (option_map (fun row => Actorable.mk (EntityRow.actor row))
                  (find (fun row => String.eqb (EntityRow.resource row) actorType
                                    && Z.eqb (EntityRow.id row) id)
                        (DB.entity db))), db))
  | ResinCanAccess actorType id action tx => fun s =>
      Store.on_db (Some tx) s
        (fun db => (Ok (Env.can_access env actorType id action), db))
  | AuthPostApiKey is_of__actor key name description tx => fun s =>
      Store.on_db (Some tx) s
        (fun db =>
           (Ok (DB.next_id db),
            DB.add_api_key
              (ApiKeyRow.mk (DB.next_id db) is_of__actor key name description)
              db))
  | AuthGetRole name tx => fun s =>
      Store.on_db (Some tx) s
        (fun db =>
           (Ok (map RoleRow.id
                  (filter (fun r => String.eqb (RoleRow.name r) name)
                          (DB.role db))), db))
  | AuthPostApiKeyHasRole api_key role tx => fun s =>
      Store.on_db (Some tx) s (insert_binding api_key role)
  | DbBegin => fun s =>
      (Ok (Store.next_tx s),
       Store.mk (Store.committed s)
                ((Store.next_tx s, Store.committed s) :: Store.open_tx s)
                (Datatypes.S (Store.next_tx s)) (Store.faults s))
  | DbEnd tx => fun s =>
      match Store.lookup_tx tx (Store.open_tx s) with
      | None => (Err Store.NOT_OPEN, s)
      | Some db =>
          (Ok tt, Store.mk db (Store.close_tx tx (Store.open_tx s))
                           (Store.next_tx s) (Store.faults s))
      end
  | DbRollback tx => fun s =>
      (Ok tt, Store.set_open_tx (Store.close_tx tx (Store.open_tx s)) s)
  end.

(** The handler: the next entry of the fault plan decides whether the
    call is rejected outright; otherwise it is answered. *)
Definition handler (env : Env.t) : Handler Store.t :=
  fun e s =>
    match Store.faults s with
    | Some er :: plan => (Err er, Store.set_faults plan s)
    | None :: plan => answer env e (Store.set_faults plan s)
    | [] => answer env e s
    end.

End RefStore.

(** Every other operation of the core that awaits a collaborator
    propagates its failures.  ([validatePassword], [userHasPermission]
    and [reqHasPermission] call nothing.) *)
Definition rest_of_core_propagates : Prop :=
  (forall password hash, propagates (comparePassword password hash))
  /\ (forall user newPassword tx, propagates (setPassword user newPassword tx))
  /\ (forall loginInfo tx select, propagates (findUser loginInfo tx select))
  /\ (forall password userId, propagates (checkUserPassword password userId))
  /\ (forall userData tx req, propagates (registerUser userData tx req))
  /\ propagates retrieveAPIKey
  /\ (forall required, propagates (getUser required))
  /\ (forall actorType roleName req actorTypeID options,
        propagates (dollar_createApiKey actorType roleName req actorTypeID options))
  /\ (forall actorType roleName req actorTypeID options,
        propagates (createApiKey actorType roleName req actorTypeID options)).

(** * Sample data, for concrete runs *)

Module Sample.

Definition env : Env.t :=
  Env.mk (fun p => String.append "h:" p)
         (fun p hash => String.eqb hash (String.append "h:" p))
         (fun _ id _ => [Some id])
         (includes_char ".")
         (fun req => req)
         (fun req => req)
         (fun _ => Some "10.0.0.1")
         "k3y".

(** An access-control layer that matches an unrelated resource. *)
Definition deny_env : Env.t :=
  Env.mk (Env.hash env) (Env.compare env)
         (fun _ id _ => [Some (id + 1)%Z])
         (Env.is_jwt env) (Env.api_key_middleware env)
         (Env.authorization_middleware env) (Env.get_ip env)
         (Env.randomstring env).

Definition alice : DbUser.t :=
  DbUser.mk 1 2 "alice" "alice@example.com" (Some "h:password1")
            "2020-01-01" (Some "s3cret").

Definition db : DB.t :=
  DB.mk [alice]
        [EntityRow.mk "application" 42 (Some 7%Z);
         EntityRow.mk "user" 1 (Some 2%Z)]
        [ApiKeyRow.mk 10 2 "alicekey" None None]
        [RoleRow.mk 20 "observer"]
        [BindingRow.mk 30 10 20]
        100.

Definition store (plan : list (option Error)) : Store.t :=
  Store.mk db [] 0%nat plan.

Definition request (apiKey : option ApiKey.t) : Request.t :=
  Request.mk None None apiKey false None.

Definition world (plan : list (option Error)) : World Store.t :=
  mkWorld (request None) (store plan).

Definition world_of (req : Request.t) (plan : list (option Error))
  : World Store.t :=
  mkWorld req (store plan).

Definition alice_user : User.t :=
  User.mk 1 "alice" "alice@example.com" "2020-01-01" (Some "s3cret") None.

Definition DOWN : Error := ExternalError "connection lost".

(** A user whose username contains an at sign, and a registration that
    asks for the same username under another email. *)
Definition eve : DbUser.t :=
  DbUser.mk 3 4 "eve@x.io" "eve@example.com" (Some "h:password3")
            "2020-02-02" None.

Definition db_eve : DB.t :=
  DB.mk [alice; eve] (DB.entity db) (DB.api_key db) (DB.role db)
        (DB.api_key__has__role db) (DB.next_id db).

Definition world_eve : World Store.t :=
  mkWorld (request None) (Store.mk db_eve [] 0%nat []).

Definition second_eve : UserData.t :=
  UserData.mk "eve@x.io" "eve2@example.com" (Some "password4") [].

(** A world in which the caller has opened transaction 0. *)
Definition world_in_tx : World Store.t :=
  mkWorld (request None) (Store.mk db [(0%nat, db)] 1%nat []).

End Sample.

(** * Further observations on runs *)

(** A program fails only by rejection when every error it ends with is
    the error some call of the run was rejected with. *)
Definition fails_only_by_rejection {A} (p : Prog A) : Prop :=
  forall (S : Type) (h : Handler S) (w : World S) (e : Error),
    result (run h p w) = Err e ->
    exists c, In (rejected_with c e) (trace (run h p w)).

Definition is_binding_insert (st : Step) : bool :=
  match step_call st with
  | AuthPostApiKeyHasRole _ _ _ => true
  | _ => false
  end.

Definition is_access_check (st : Step) : bool :=
  match step_call st with
  | ResinCanAccess _ _ _ _ => true
  | _ => false
  end.

Definition is_hash_comparison (st : Step) : bool :=
  match step_call st with
  | HashedCompare _ _ => true
  | _ => false
  end.

(** The steps [createApiKey] adds around [$createApiKey]: the key
    generation and the control of its own transaction. *)
Definition is_wrapper_step (st : Step) : bool :=
  match step_call st with
  | RandomstringGenerate => true
  | DbBegin => true
  | DbEnd _ => true
  | DbRollback _ => true
  | _ => false
  end.

(** The transaction a call is made in, when it is made in one. *)
Definition event_tx (e : Event) : option Tx :=
  match e with
  | ResinPatchUserPassword _ _ tx => tx
  | ResinGetUserWhereLower _ _ _ tx => tx
  | ResinPostUser _ tx _ => Some tx
  | ResinGetActor _ _ tx => Some tx
  | ResinCanAccess _ _ _ tx => Some tx
  | AuthPostApiKey _ _ _ _ tx => Some tx
  | AuthGetRole _ tx => Some tx
  | AuthPostApiKeyHasRole _ _ tx => Some tx
  | DbEnd tx => Some tx
  | DbRollback tx => Some tx
  | _ => None
  end.

(** The answer of the actor lookup and of the role lookup, read off a
    step. *)
Definition actor_answer (st : Step) : option (option Actorable.t) :=
  match st with
  | mkStep (ResinGetActor _ _ _) (Ok a) => Some a
  | _ => None
  end.

Definition role_answer (st : Step) : option (list Z) :=
  match st with
  | mkStep (AuthGetRole _ _) (Ok roles) => Some roles
  | _ => None
  end.

(** [actorable?.actor]. *)
Definition actor_of (actorable : option Actorable.t) : option Z :=
  match actorable with
  | Some a => Actorable.actor a
  | None => None
  end.

Definition rejected_rollback (st : Step) : bool :=
  is_rollback st && rejected st.

(** The calls that begin, end or roll back a transaction. *)
Definition is_tx_control (e : Event) : bool :=
  match e with
  | DbBegin => true
  | DbEnd _ => true
  | DbRollback _ => true
  | _ => false
  end.

(** A store call made inside [tx] that leaves the transaction open. *)
Definition works_in (tx : Tx) (e : Event) : Prop :=
  event_tx e = Some tx /\ is_tx_control e = false.

(** The calls that go to the store (the others go to the hash
    primitive, the middlewares, the JWT test, the key generator and the
    client-IP helper). *)
Definition is_store_call (e : Event) : bool :=
  match e with
  | HashedCompare _ _ => false
  | GetIP _ => false
  | ApiKeyMiddleware _ => false
  | AuthorizationMiddleware _ => false
  | IsJWT _ => false
  | RandomstringGenerate => false
  | _ => true
  end.

(** Every store call of a step list is made with transaction [tx]
    ([None]: outside any transaction). *)
Definition store_calls_use (tx : option Tx) (t : list Step) : Prop :=
  Forall (fun st => is_store_call (step_call st) = true ->
                    event_tx (step_call st) = tx) t.

(** The hash primitive verifies what it has hashed. *)
Definition hashes_verify (env : Env.t) : Prop :=
  forall password, Env.compare env password (Env.hash env password) = true.

(** The column [findUser] matches a login string against. *)
Definition login_column (loginInfo : string) : string :=
  if includes_char "@" loginInfo then "email" else "username".

(** * init.ts: the superuser account *)

(** [err instanceof ConflictError]. *)
Definition is_ConflictError (err : Error) : bool :=
  match err with
  | ConflictError _ => true
  | _ => false
  end.

(** [!v] for a configuration value that may be unset. *)
Definition falsy (v : option string) : bool :=
  match v with
  | Some s => negb (truthy s)
  | None => true
  end.

(** A configuration value that has passed the [!v] test. *)
Definition value_of (v : option string) : string :=
  match v with
  | Some s => s
  | None => ""
  end.

(** The [data] record of [createSuperuser]. *)
Definition superuser_data (SUPERUSER_EMAIL SUPERUSER_PASSWORD : option string)
  : UserData.t :=
  UserData.mk "admin" (value_of SUPERUSER_EMAIL)
              (Some (value_of SUPERUSER_PASSWORD)) [].

Section CreateSuperuser.

(** [getOrInsertModelId] of src/infra/pinejs-client-helpers is not among
    the sources: it is any program that answers a record, given the
    resource name, the fields and the transaction. *)
Variable getOrInsertModelId : string -> AnyObject -> Tx -> Prog AnyObject.

(** [createSuperuser], the two configuration values as arguments;
    console output is left out. *)
Definition createSuperuser (SUPERUSER_EMAIL SUPERUSER_PASSWORD : option string)
  : Prog unit :=
  if falsy SUPERUSER_EMAIL || falsy SUPERUSER_PASSWORD then Ret tt
  else
    let data := superuser_data SUPERUSER_EMAIL SUPERUSER_PASSWORD in
    try_catch
      (db_transaction (fun tx =>
         try_catch
           (registerUser data tx None ;; Ret tt)
           (fun err =>
              if is_ConflictError err
              then
                updated <- updatePasswordIfNeeded
                             (UserData.username data)
                             (value_of SUPERUSER_PASSWORD) None ;;
                Ret tt
              else Throw err) ;;
         user <- findUser (UserData.username data) (Some tx)
                          defaultFindUser_select ;;
         match user with
         | None => Ret tt
         | Some user =>
             organization <-
               getOrInsertModelId "organization"
                 [("name", VStr (DbUser.username user));
                  ("handle", VStr (DbUser.username user))] tx ;;
             getOrInsertModelId "organization_membership"
               [("user", VNum (DbUser.id user));
                ("is_member_of__organization", get_prop organization "id")]
               tx ;;
             Ret tt
         end))
      (fun _ => Ret tt).

End CreateSuperuser.

Definition is_password_patch (e : Event) : bool :=
  match e with
  | ResinPatchUserPassword _ _ _ => true
  | _ => false
  end.

(** A password update, if the call is one, sets [password] and is made
    outside any transaction. *)
Definition patches_outside (password : string) (e : Event) : Prop :=
  match e with
  | ResinPatchUserPassword _ newPassword tx =>
      newPassword = password /\ tx = None
  | _ => True
  end.
(** * Properties of [run] *)

Unset Implicit Arguments.

Section RunFacts.
Variable S : Type.
Variable h : Handler S.

Lemma run_bind A B (p : Prog A) (f : A -> Prog B) (w : World S) :
    run h (bind p f) w =
    match result (run h p w) with
    | Ok a =>
        mkRun (result (run h (f a) (world (run h p w))))
              (world (run h (f a) (world (run h p w))))
              (trace (run h p w) ++ trace (run h (f a) (world (run h p w))))
    | Err e => mkRun (Err e) (world (run h p w)) (trace (run h p w))
    end.
Proof.
    revert B f w.
    induction p as [A a | A e | A e k IH | A k IH | A r k IH
                   | A C body _ handler _ k IH]; intros B f w; simpl.
    - destruct (run h (f a) w); reflexivity.
    - reflexivity.
    - destruct (h e (w_ext w)) as [[x | er] s]; simpl; [|reflexivity].
      rewrite IH.
      destruct (result (run h (k x) (mkWorld (w_req w) s))); reflexivity.
    - apply IH.
    - apply IH.
    - destruct (result (run h body w)) as [x | er]; simpl.
      + rewrite IH.
        destruct (result (run h (k x) (world (run h body w)))); simpl;
          rewrite ?app_assoc; reflexivity.
      + destruct (result (run h (handler er) (world (run h body w))))
          as [x | er']; simpl; [|reflexivity].
        rewrite IH.
        destruct (result (run h (k x)
                    (world (run h (handler er) (world (run h body w))))));
          simpl; rewrite ?app_assoc; reflexivity.
Qed.

Lemma run_call (e : Event) (w : World S) :
    run h (call e) w =
    match h e (w_ext w) with
    | (Ok x, s) => mkRun (Ok x) (mkWorld (w_req w) s) [answered e x]
    | (Err er, s) => mkRun (Err er) (mkWorld (w_req w) s) [rejected_with e er]
    end.
Proof.
    unfold call; simpl. destruct (h e (w_ext w)) as [[x | er] s]; reflexivity.
Qed.

Lemma run_try_catch A (body : Prog A) (handler : Error -> Prog A) w :
    run h (try_catch body handler) w =
    match result (run h body w) with
    | Ok x => mkRun (Ok x) (world (run h body w)) (trace (run h body w))
    | Err er =>
        mkRun (result (run h (handler er) (world (run h body w))))
              (world (run h (handler er) (world (run h body w))))
              (trace (run h body w)
                 ++ trace (run h (handler er) (world (run h body w))))
    end.
Proof.
    unfold try_catch; simpl.
    destruct (result (run h body w)) as [x | er]; simpl.
    - rewrite app_nil_r; reflexivity.
    - destruct (result (run h (handler er) (world (run h body w))))
        as [x | er'] eqn:E; simpl; rewrite ?app_nil_r; reflexivity.
Qed.
End RunFacts.

(** * Strings *)

Lemma truthy_false_iff (s : string) : truthy s = false <-> s = "".
Proof.
  unfold truthy. rewrite negb_false_iff. apply String.eqb_eq.
Qed.

Lemma truthy_length (s : string) : truthy s = true <-> (0 < String.length s)%nat.
Proof.
  destruct s; simpl; split; intros H; try reflexivity; try lia; discriminate.
Qed.

Lemma lower_ascii_at (c : ascii) : c = "@"%char -> lower_ascii c = "@"%char.
Proof. intros ->. reflexivity. Qed.

Lemma tolower_length (s : string) : String.length (tolower s) = String.length s.
Proof. induction s; simpl; congruence. Qed.

(** A string that contains an at sign still does after case folding. *)
Lemma includes_at_tolower (s : string) :
  includes_char "@" s = true -> includes_char "@" (tolower s) = true.
Proof.
  induction s as [|c s IH]; simpl; [discriminate|].
  intros H. apply orb_true_iff in H. apply orb_true_iff.
  destruct H as [H | H]; [left | right; auto].
  apply Ascii.eqb_eq in H. apply Ascii.eqb_eq. now apply lower_ascii_at.
Qed.

Example split_bearer : split " " "Bearer abc.def" = ["Bearer"; "abc.def"].
Proof. reflexivity. Qed.

Example split_empty : split " " "" = [""].
Proof. reflexivity. Qed.

Example bearer_token_of_header :
  bearer_token (Request.mk None None None true (Some "Bearer k3y")) = Some "k3y"
  /\ bearer_token (Request.mk None None None true (Some "Bearer")) = None
  /\ bearer_token (Request.mk None None None true None) = None.
Proof. repeat split. Qed.

Example tolower_mixed : tolower "Foo@Example.com" = "foo@example.com".
Proof. reflexivity. Qed.

(** * Password comparator *)

(** C8. [validatePassword] is a total function of its argument alone (it
    is not a program, so it performs no call): it accepts exactly the
    passwords of at least 8 characters, and rejects an absent, empty or
    shorter password with a bad-request (invalid input) error. *)
Theorem validatePassword_spec (password : option string) :
  (exists p, password = Some p /\ (8 <= String.length p)%nat
             /\ validatePassword password = Ok tt)
  \/ ((password = None
       \/ exists p, password = Some p /\ (String.length p < 8)%nat)
      /\ exists msg, validatePassword password = Err (BadRequestError msg)).
Proof.
  destruct password as [p|]; simpl.
  - destruct (truthy p) eqn:T; simpl.
    + destruct (String.length p <? 8)%nat eqn:L.
      * apply Nat.ltb_lt in L. right. split; eauto.
      * apply Nat.ltb_ge in L. left. eauto.
    + apply truthy_false_iff in T. subst p. right. split; eauto.
      right. exists "". split; [reflexivity | simpl; lia].
  - right. split; eauto.
Qed.

(** The null-hash path compares the empty string, whatever the password. *)
Lemma comparePassword_null (password : string) :
  comparePassword password None = call (HashedCompare "" INVALID_HASH).
Proof. reflexivity. Qed.

(** C2, as stated, fails: with a null hash the password handed to the
    comparison primitive is not the real password. *)
Lemma comparePassword_null_not_real_password :
  first_call (comparePassword "correct horse" None)
  <> Some (HashedCompare "correct horse" INVALID_HASH).
Proof. simpl. intros H. discriminate H. Qed.

(** C2, amended.  With a null hash [comparePassword] returns false, for
    every password, whenever the primitive answers false to the known
    invalid comparison (the premise the source states for its dummy
    hash; the primitive itself is external).  The run is one call of the same comparison primitive as
    on the present-hash path, made on the fixed empty string and the
    fixed dummy hash (60 characters, bcrypt prefix): it is the same run
    for every password, so the password given never reaches the
    primitive.  The present-hash path is one call on the real password
    and the stored hash, and returns what that call answers. *)
Theorem comparePassword_paths S (h : Handler S) (w : World S)
    (password : string) :
  fst (h (HashedCompare "" INVALID_HASH) (w_ext w)) = Ok false ->
  let r := run h (comparePassword password None) w in
  result r = Ok false
  /\ trace r = [answered (HashedCompare "" INVALID_HASH) false]
  /\ (forall other, run h (comparePassword other None) w = r)
  /\ (forall hash,
        let r' := run h (comparePassword password (Some hash)) w in
        map step_call (trace r') = [HashedCompare password hash]
        /\ result r' = fst (h (HashedCompare password hash) (w_ext w)))
  /\ String.length INVALID_HASH = 60%nat
  /\ String.prefix "$2b$10$" INVALID_HASH = true.
Proof.
  intros Hdummy. cbv zeta.
  unfold comparePassword, runInvalidPasswordComparison, call. cbn [run].
  destruct (h (HashedCompare "" INVALID_HASH) (w_ext w)) as [[b | e] s];
    simpl in Hdummy; [|discriminate Hdummy].
  injection Hdummy as ->.
  split; [reflexivity|]. split; [reflexivity|]. split; [reflexivity|].
  split; [|split; reflexivity].
  intros hash.
  destruct (h (HashedCompare password hash) (w_ext w)) as [[b | e] s'];
    split; reflexivity.
Qed.

Lemma comparePassword_paths_witness :
  let h := RefStore.handler Sample.env in
  let r := run h (comparePassword "correct horse" None) (Sample.world []) in
  fst (h (HashedCompare "" INVALID_HASH) (w_ext (Sample.world []))) = Ok false
  /\ result r = Ok false
  /\ trace r = [answered (HashedCompare "" INVALID_HASH) false].
Proof.
  intros h r. split; [reflexivity|].
  destruct (comparePassword_paths Store.t h (Sample.world []) "correct horse"
              eq_refl) as (Hres & Htrace & _).
  split; [exact Hres | exact Htrace].
Defined.

(** * User directory *)

(** C9. A falsy [loginInfo] (the empty string) makes [findUser] return
    [undefined] at once: the program is a bare return, so no run of it
    takes a step, whatever the transaction and the selected fields. *)
Theorem findUser_falsy (loginInfo : string) (tx : option Tx)
                       (select : list string) :
  truthy loginInfo = false ->
  findUser loginInfo tx select = Ret None
  /\ forall (S : Type) (h : Handler S) (w : World S),
       run h (findUser loginInfo tx select) w = mkRun (Ok None) w [].
Proof.
  intros H. unfold findUser. rewrite H. simpl. split; reflexivity.
Qed.

Lemma findUser_falsy_witness :
  truthy "" = false
  /\ findUser "" (Some 3%nat) ["id"] = Ret None.
Proof.
  split; [reflexivity|].
  apply (findUser_falsy "" (Some 3%nat) ["id"]). reflexivity.
Defined.

Lemma includes_blacklist (username : string) :
  includes USERNAME_BLACKLIST username = String.eqb username "root".
Proof. unfold includes; simpl. apply orb_false_r. Qed.

Lemma first_call_findUser (loginInfo : string) (tx : option Tx)
                          (select : list string) :
  truthy loginInfo = true ->
  first_call (findUser loginInfo tx select)
  = Some (ResinGetUserWhereLower
            (if includes_char "@" loginInfo then "email" else "username")
            loginInfo select tx).
Proof. intros H. unfold findUser. rewrite H. reflexivity. Qed.

(** C10. The blacklist is the static list ['root'] and the check is an
    exact match: a username that differs from a blacklisted name only in
    letter case passes it, and registration goes on to the uniqueness
    checks, whose first store call is the case-folding lookup of the
    email (of the username when the email is empty). *)
Theorem registerUser_blacklist_case_sensitive
    (userData : UserData.t) (tx : Tx) (req : option Request.t) (name : string) :
  In name USERNAME_BLACKLIST ->
  tolower (UserData.username userData) = tolower name ->
  UserData.username userData <> name ->
  USERNAME_BLACKLIST = ["root"]
  /\ includes USERNAME_BLACKLIST (UserData.username userData) = false
  /\ first_call (registerUser userData tx req)
     = Some (if truthy (UserData.email userData)
             then ResinGetUserWhereLower
                    (if includes_char "@" (UserData.email userData)
                     then "email" else "username")
                    (UserData.email userData) ["id"] (Some tx)
             else ResinGetUserWhereLower "username"
                    (UserData.username userData) ["id"] (Some tx)).
Proof.
  intros Hin Hlow Hneq.
  destruct Hin as [<- | []].
  assert (Hincl : includes USERNAME_BLACKLIST (UserData.username userData) = false).
  { rewrite includes_blacklist. now apply String.eqb_neq. }
  assert (Htruthy : truthy (UserData.username userData) = true).
  { apply truthy_length. rewrite <- tolower_length, Hlow. simpl. lia. }
  assert (Hat : includes_char "@" (UserData.username userData) = false).
  { destruct (includes_char "@" (UserData.username userData)) eqn:E; [|reflexivity].
    apply includes_at_tolower in E. rewrite Hlow in E. discriminate E. }
  repeat split; [exact Hincl|].
  unfold registerUser. rewrite Hincl.
  unfold findUser at 1.
  destruct (truthy (UserData.email userData)) eqn:Te; simpl; [reflexivity|].
  unfold findUser. rewrite Htruthy, Hat. reflexivity.
Qed.

Lemma registerUser_blacklist_case_sensitive_witness :
  first_call (registerUser (UserData.mk "Root" "root@example.com" None [])
                           0%nat None)
  = Some (ResinGetUserWhereLower "email" "root@example.com" ["id"] (Some 0%nat))
  /\ first_call (registerUser (UserData.mk "ROOT" "" None []) 0%nat None)
     = Some (ResinGetUserWhereLower "username" "ROOT" ["id"] (Some 0%nat)).
Proof.
  split.
  - apply (registerUser_blacklist_case_sensitive
             (UserData.mk "Root" "root@example.com" None []) 0%nat None "root").
    + simpl; auto.
    + reflexivity.
    + simpl; discriminate.
  - apply (registerUser_blacklist_case_sensitive
             (UserData.mk "ROOT" "" None []) 0%nat None "root").
    + simpl; auto.
    + reflexivity.
    + simpl; discriminate.
Defined.

(** The blacklisted name itself is refused before any call is issued. *)
Lemma registerUser_blacklisted (userData : UserData.t) (tx : Tx)
                               (req : option Request.t) :
  includes USERNAME_BLACKLIST (UserData.username userData) = true ->
  registerUser userData tx req
  = Throw (ConflictError "This username is blacklisted").
Proof. intros H. unfold registerUser. rewrite H. reflexivity. Qed.

(** * Propagation of failures *)

Lemma propagates_ret A (a : A) : propagates (Ret a).
Proof. intros S h w _. reflexivity. Qed.

Lemma propagates_throw A (e : Error) : propagates (@Throw A e).
Proof. intros S h w H. discriminate H. Qed.

Lemma propagates_call (e : Event) : propagates (call e).
Proof.
  intros S h w. rewrite run_call.
  destruct (h e (w_ext w)) as [[x | er] s]; simpl; [reflexivity | discriminate].
Qed.

Lemma propagates_bind A B (p : Prog A) (f : A -> Prog B) :
  propagates p -> (forall a, propagates (f a)) -> propagates (bind p f).
Proof.
  intros Hp Hf S h w. rewrite run_bind.
  destruct (result (run h p w)) as [a | e] eqn:E; simpl; [|discriminate].
  intros Hok. rewrite existsb_app.
  rewrite (Hp S h w) by (rewrite E; reflexivity).
  now apply Hf.
Qed.

Lemma propagates_read_req : propagates read_req.
Proof. intros S h w _. reflexivity. Qed.

Lemma propagates_write_req (r : Request.t) : propagates (write_req r).
Proof. intros S h w _. reflexivity. Qed.

Lemma run_settle S (h : Handler S) A (p : Prog A) (w : World S) :
  run h (settle p) w
  = mkRun (Ok (result (run h p w))) (world (run h p w)) (trace (run h p w)).
Proof.
  unfold settle. rewrite run_try_catch, run_bind.
  destruct (result (run h p w)) as [a | e]; simpl; rewrite app_nil_r; reflexivity.
Qed.

Lemma propagates_promise_all2 A B (p : Prog A) (q : Prog B) :
  propagates p -> propagates q -> propagates (promise_all2 p q).
Proof.
  intros Hp Hq S h w. unfold promise_all2.
  rewrite run_bind, run_settle. cbn [result world trace].
  rewrite run_bind, run_settle. cbn [result world trace].
  destruct (result (run h p w)) as [a | e] eqn:Ep; simpl;
    [|discriminate].
  destruct (result (run h q (world (run h p w)))) as [b | e] eqn:Eq; simpl;
    [|discriminate].
  intros _. rewrite !existsb_app.
  rewrite (Hp S h w) by (rewrite Ep; reflexivity).
  rewrite (Hq S h (world (run h p w))) by (rewrite Eq; reflexivity).
  reflexivity.
Qed.

(** A handler that always rethrows does not swallow. *)
Lemma propagates_try_rethrow A (body : Prog A) (handler : Error -> Prog A) :
  propagates body ->
  (forall e S (h : Handler S) w, is_ok (result (run h (handler e) w)) = false) ->
  propagates (try_catch body handler).
Proof.
  intros Hb Hh S h w. rewrite run_try_catch.
  destruct (result (run h body w)) as [a | e] eqn:E; simpl.
  - intros _. apply Hb. rewrite E. reflexivity.
  - intros Hok. rewrite Hh in Hok. discriminate Hok.
Qed.

Lemma propagates_db_transaction A (fn : Tx -> Prog A) :
  (forall tx, propagates (fn tx)) -> propagates (db_transaction fn).
Proof.
  intros Hfn. unfold db_transaction.
  apply propagates_bind; [apply propagates_call|]. intros tx.
  apply propagates_try_rethrow.
  - apply propagates_bind; [apply Hfn|]. intros a.
    apply propagates_bind; [apply propagates_call|]. intros _.
    apply propagates_ret.
  - intros e S h w. rewrite run_bind, run_call.
    destruct (h (DbRollback tx) (w_ext w)) as [[x | er] s]; reflexivity.
Qed.

Ltac propagation :=
  repeat first
    [ apply propagates_ret | apply propagates_throw
    | match goal with
      | |- propagates (call ?e) => exact (propagates_call e)
      end
    | apply propagates_read_req | apply propagates_write_req
    | apply propagates_promise_all2
    | apply propagates_db_transaction; intros
    | apply propagates_bind; [|intros]
    | match goal with
      | |- propagates (if ?b then _ else _) => destruct b
      | |- propagates (match ?x with _ => _ end) => destruct x
      end ].

Lemma propagates_comparePassword password hash :
  propagates (comparePassword password hash).
Proof. unfold comparePassword, runInvalidPasswordComparison. propagation. Qed.

Lemma propagates_setPassword user newPassword tx :
  propagates (setPassword user newPassword tx).
Proof. unfold setPassword. propagation. Qed.

Lemma propagates_findUser loginInfo tx select :
  propagates (findUser loginInfo tx select).
Proof. unfold findUser. propagation. Qed.

Lemma propagates_checkUserPassword password userId :
  propagates (checkUserPassword password userId).
Proof.
  unfold checkUserPassword. propagation.
  apply propagates_comparePassword.
Qed.

Lemma propagates_registerUser userData tx req :
  propagates (registerUser userData tx req).
Proof.
  unfold registerUser. propagation; apply propagates_findUser.
Qed.

Lemma propagates_retrieveAPIKey : propagates retrieveAPIKey.
Proof. unfold retrieveAPIKey. propagation. Qed.

Lemma propagates_getUser required : propagates (getUser required).
Proof.
  unfold getUser. propagation; apply propagates_retrieveAPIKey.
Qed.

Lemma propagates_dollar_createApiKey actorType roleName req actorTypeID options :
  propagates (dollar_createApiKey actorType roleName req actorTypeID options).
Proof. unfold dollar_createApiKey. propagation. Qed.

Lemma propagates_createApiKey actorType roleName req actorTypeID options :
  propagates (createApiKey actorType roleName req actorTypeID options).
Proof.
  unfold createApiKey.
  apply propagates_bind.
  - destruct (ApiKeyOptions.apiKey options); propagation.
  - intros apiKey. destruct (ApiKeyOptions.tx options) as [tx|].
    + apply propagates_dollar_createApiKey.
    + apply propagates_db_transaction. intros tx.
      apply propagates_dollar_createApiKey.
Qed.

Lemma rest_of_core_propagates_holds : rest_of_core_propagates.
Proof.
  unfold rest_of_core_propagates.
  repeat split; intros;
    auto using propagates_comparePassword, propagates_setPassword,
      propagates_findUser, propagates_checkUserPassword,
      propagates_registerUser, propagates_retrieveAPIKey, propagates_getUser,
      propagates_dollar_createApiKey, propagates_createApiKey.
Qed.

(** * Password update *)

Lemma findUser_no_write S (h : Handler S) loginInfo tx select w :
  existsb is_user_write (trace (run h (findUser loginInfo tx select) w)) = false.
Proof.
  unfold findUser. destruct (truthy loginInfo); simpl; [|reflexivity].
  destruct (h _ (w_ext w)) as [[x | er] s]; reflexivity.
Qed.

Lemma comparePassword_no_write S (h : Handler S) password hash w :
  existsb is_user_write (trace (run h (comparePassword password hash) w)) = false.
Proof.
  destruct hash as [hash|]; simpl;
    destruct (h _ (w_ext w)) as [[x | er] s1]; reflexivity.
Qed.

Lemma setPassword_rejected S (h : Handler S) user newPassword tx w e :
  result (run h (setPassword user newPassword tx) w) = Err e ->
  existsb rejected (trace (run h (setPassword user newPassword tx) w)) = true.
Proof.
  unfold setPassword, call. simpl.
  destruct (h _ (w_ext w)) as [[x | er] s]; simpl; [discriminate | reflexivity].
Qed.

Lemma updatePasswordIfNeeded_swallows :
  swallows (updatePasswordIfNeeded "alice" "password2" None).
Proof.
  exists Store.t, (RefStore.handler Sample.env),
         (Sample.world [None; None; Some Sample.DOWN]).
  split; vm_compute; reflexivity.
Qed.

(** C6. [updatePasswordIfNeeded] fails with NotFound when no user
    matches, returns false without a store write when the new password
    matches the stored one, returns true when [setPassword] succeeds and
    returns false, with no error, when [setPassword] itself fails; it is
    the one operation of the core that swallows a failure: every other
    operation returns normally only from runs without a rejected call. *)
Theorem updatePasswordIfNeeded_spec :
  (forall S (h : Handler S) (w : World S)
          (usernameOrEmail newPassword : string) (tx : option Tx),
     let r := run h (updatePasswordIfNeeded usernameOrEmail newPassword tx) w in
     let found := run h (findUser usernameOrEmail tx defaultFindUser_select) w in
     (result found = Ok None -> result r = Err (NotFoundError "User not found."))
     /\ (forall user, result found = Ok (Some user) ->
         let cmp := run h (comparePassword newPassword (DbUser.password user))
                        (world found) in
         (result cmp = Ok true ->
          result r = Ok false /\ existsb is_user_write (trace r) = false)
         /\ (result cmp = Ok false ->
             let set := run h (setPassword user newPassword tx) (world cmp) in
             (result set = Ok tt -> result r = Ok true)
             /\ (forall e, result set = Err e ->
                 result r = Ok false /\ existsb rejected (trace r) = true))))
  /\ (exists usernameOrEmail newPassword tx,
        swallows (updatePasswordIfNeeded usernameOrEmail newPassword tx))
  /\ rest_of_core_propagates.
Proof.
  split; [|split].
  - intros S h w usernameOrEmail newPassword tx.
    cbv zeta. unfold updatePasswordIfNeeded. rewrite run_bind.
    split.
    + intros Hf. rewrite Hf. reflexivity.
    + intros user Hf. rewrite Hf. cbn [result world trace].
      rewrite run_bind. split.
      * intros Hc. rewrite Hc. cbn [result world trace run].
        split; [reflexivity|].
        rewrite !existsb_app, findUser_no_write, comparePassword_no_write.
        reflexivity.
      * intros Hc. rewrite Hc. cbn [result world trace].
        rewrite run_try_catch, run_bind. split.
        -- intros Hs. rewrite Hs. reflexivity.
        -- intros e Hs. rewrite Hs. cbn [result world trace run].
           split; [reflexivity|].
           rewrite !existsb_app, (setPassword_rejected _ _ _ _ _ _ _ Hs).
           rewrite !orb_true_r. reflexivity.
  - exists "alice", "password2", None. apply updatePasswordIfNeeded_swallows.
  - apply rest_of_core_propagates_holds.
Qed.

Lemma updatePasswordIfNeeded_spec_witness :
  let h := RefStore.handler Sample.env in
  result (run h (updatePasswordIfNeeded "nobody" "password2" None)
              (Sample.world []))
  = Err (NotFoundError "User not found.")
  /\ result (run h (updatePasswordIfNeeded "alice" "password1" None)
                 (Sample.world []))
     = Ok false
  /\ result (run h (updatePasswordIfNeeded "Alice@Example.com" "password2" None)
                 (Sample.world []))
     = Ok true
  /\ result (run h (updatePasswordIfNeeded "alice" "password2" None)
                 (Sample.world [None; None; Some Sample.DOWN]))
     = Ok false.
Proof.
  intros h.
  pose proof (proj1 updatePasswordIfNeeded_spec Store.t h) as T.
  cbv zeta in T.
  split; [|split; [|split]].
  - apply (proj1 (T (Sample.world []) "nobody" "password2" None)).
    reflexivity.
  - apply (proj1 (proj2 (T (Sample.world []) "alice" "password1" None)
                    Sample.alice eq_refl)).
    reflexivity.
  - apply (proj2 (proj2 (T (Sample.world []) "Alice@Example.com" "password2" None)
                    Sample.alice eq_refl)); reflexivity.
  - apply (proj2 (proj2 (T (Sample.world [None; None; Some Sample.DOWN])
                           "alice" "password2" None)
                    Sample.alice eq_refl)) with (e := Sample.DOWN); reflexivity.
Defined.

(** * Request identity resolver *)

Lemma retrieveAPIKey_no_lookup S (h : Handler S) (w : World S) :
  existsb is_user_lookup (trace (run h retrieveAPIKey w)) = false.
Proof.
  unfold retrieveAPIKey. simpl.
  destruct (h (ApiKeyMiddleware (w_req w)) (w_ext w)) as [[req | er] s1];
    simpl; [|reflexivity].
  destruct (isRequest req); simpl; [|reflexivity].
  destruct (bearer_token req) as [token|]; simpl; [|reflexivity].
  destruct (truthy token); simpl; [|reflexivity].
  destruct (h (IsJWT token) s1) as [[jwt | er] s2]; simpl; [|reflexivity].
  destruct jwt; simpl; [reflexivity|].
  destruct (h (AuthorizationMiddleware req) s2) as [[req' | er] s3];
    reflexivity.
Qed.

(** What [getUser] does once the pre-resolution has run. *)
Lemma run_getUser S (h : Handler S) (w : World S) (required : bool) :
  run h (getUser required) w =
  match result (run h retrieveAPIKey w) with
  | Err e => mkRun (Err e) (world (run h retrieveAPIKey w))
                   (trace (run h retrieveAPIKey w))
  | Ok _ =>
      let w1 := world (run h retrieveAPIKey w) in
      let t1 := trace (run h retrieveAPIKey w) in
      let req := w_req w1 in
      match Request.user req, Request.creds req with
      | Some u, Some _ => mkRun (Ok (Some u)) w1 (t1 ++ [])
      | Some u, None =>
          mkRun (Ok (Some u))
                (mkWorld (Request.set_creds (Some u) req) (w_ext w1)) (t1 ++ [])
      | None, Some _ =>
          mkRun (if required
                 then Err (UnauthorizedError "User has not been authorized")
                 else Ok None) w1 (t1 ++ [])
      | None, None =>
          let key := match Request.apiKey req with
                     | Some k => ApiKey.key k
                     | None => ""
                     end in
          if negb (truthy key)
          then mkRun (if required
                      then Err (UnauthorizedError "Request has no JWT or API key")
                      else Ok None) w1 (t1 ++ [])
          else
            match h (GetUserQuery key) (w_ext w1) with
            | (Ok (user :: users), s) =>
                mkRun (Ok (Some (pick_userFields user)))
                      (mkWorld (Request.set_user_and_creds
                                  (Some (pick_userFields user)) req) s)
                      (t1 ++ [answered (GetUserQuery key) (user :: users)])
            | (Ok [], s) =>
                mkRun (if required
                       then Err (UnauthorizedError "User not found for API key")
                       else Ok None)
                      (mkWorld req s)
                      (t1 ++ [answered (GetUserQuery key) []])
            | (Err e, s) =>
                mkRun (Err e) (mkWorld req s)
                      (t1 ++ [rejected_with (GetUserQuery key) e])
            end
      end
  end.
Proof.
  unfold getUser. rewrite run_bind.
  destruct (result (run h retrieveAPIKey w)) as [[] | e]; [|reflexivity].
  cbv zeta. set (w1 := world (run h retrieveAPIKey w)).
  set (t1 := trace (run h retrieveAPIKey w)).
  destruct w1 as [[u c k g a] s1]. simpl.
  destruct u as [u|]; destruct c as [c|]; simpl; try reflexivity.
  - destruct required; reflexivity.
  - destruct (truthy match k with
                     | Some k => ApiKey.key k
                     | None => ""
                     end); simpl.
    + destruct (h _ s1) as [[[|user users] | e] s2]; simpl;
        destruct required; reflexivity.
    + destruct required; reflexivity.
Qed.

(** C3. Once the pre-resolution step has run: a request with neither
    credentials nor an API key makes [getUser] fail with Unauthorized; so
    does one with credentials but no user object ("User has not been
    authorized"), and one with an API key whose key string the store
    matches to no user ("User not found for API key").  With
    [required = false] each of these returns [undefined] instead. *)
Theorem getUser_unauthorized S (h : Handler S) (w : World S) :
  result (run h retrieveAPIKey w) = Ok tt ->
  let w1 := world (run h retrieveAPIKey w) in
  let req := w_req w1 in
  let required := result (run h (getUser true) w) in
  let optional := result (run h (getUser false) w) in
  (Request.user req = None -> Request.creds req = None ->
   Request.apiKey req = None ->
   required = Err (UnauthorizedError "Request has no JWT or API key")
   /\ optional = Ok None)
  /\ (Request.user req = None -> Request.creds req <> None ->
      required = Err (UnauthorizedError "User has not been authorized")
      /\ optional = Ok None)
  /\ (forall k,
      Request.user req = None -> Request.creds req = None ->
      Request.apiKey req = Some k -> truthy (ApiKey.key k) = true ->
      fst (h (GetUserQuery (ApiKey.key k)) (w_ext w1)) = Ok [] ->
      required = Err (UnauthorizedError "User not found for API key")
      /\ optional = Ok None).
Proof.
  intros Hpre. cbv zeta. rewrite !run_getUser, Hpre. cbv zeta.
  split; [|split].
  - intros Hu Hc Hk. rewrite Hu, Hc, Hk. split; reflexivity.
  - intros Hu Hc. rewrite Hu.
    destruct (Request.creds _) as [c|]; [|congruence]. split; reflexivity.
  - intros k Hu Hc Hk Ht Hq. rewrite Hu, Hc, Hk, Ht. simpl.
    destruct (h _ _) as [[[|user users] | e] s2]; simpl in Hq;
      try discriminate Hq.
    split; reflexivity.
Qed.

Lemma getUser_unauthorized_witness :
  let h := RefStore.handler Sample.env in
  let partial := Request.mk None (Some Sample.alice_user) None false None in
  let keyed := Sample.request (Some (ApiKey.mk "no-such-key" None)) in
  result (run h (getUser true) (Sample.world []))
  = Err (UnauthorizedError "Request has no JWT or API key")
  /\ result (run h (getUser true) (Sample.world_of partial []))
     = Err (UnauthorizedError "User has not been authorized")
  /\ result (run h (getUser true) (Sample.world_of keyed []))
     = Err (UnauthorizedError "User not found for API key")
  /\ result (run h (getUser false) (Sample.world_of keyed [])) = Ok None.
Proof.
  intros h partial keyed.
  pose proof (getUser_unauthorized Store.t h) as T. cbv zeta in T.
  split; [|split; [|split]].
  - apply (proj1 (T (Sample.world []) eq_refl)); reflexivity.
  - apply (proj1 (proj2 (T (Sample.world_of partial []) eq_refl)));
      [reflexivity | discriminate].
  - apply (proj2 (proj2 (T (Sample.world_of keyed []) eq_refl))
             (ApiKey.mk "no-such-key" None)); reflexivity.
  - apply (proj2 (proj2 (T (Sample.world_of keyed []) eq_refl))
             (ApiKey.mk "no-such-key" None)); reflexivity.
Defined.

Lemma in_user_lookup (st : Step) (t : list Step) :
  In st t -> is_user_lookup st = true -> existsb is_user_lookup t = true.
Proof. intros Hin Hst. apply existsb_exists. eauto. Qed.

(** C7. When a run of [getUser] has resolved a user from an API key (the
    prepared query answered a user), that user, cut down to
    [userFields], is the result and sits in both the [user] and the
    [creds] slot of the request; a second [getUser] on the same request,
    whose pre-resolution step succeeds and leaves the two slots as they
    are, returns the same user and issues no call beyond those of the
    pre-resolution step, so no user lookup. *)
Theorem getUser_caches S (h : Handler S) (w : World S) (required : bool)
    (key : string) (user : DbUser.t) (users : list DbUser.t) :
  let r1 := run h (getUser required) w in
  In (answered (GetUserQuery key) (user :: users)) (trace r1) ->
  result r1 = Ok (Some (pick_userFields user))
  /\ Request.user (w_req (world r1)) = Some (pick_userFields user)
  /\ Request.creds (w_req (world r1)) = Some (pick_userFields user)
  /\ forall required' : bool,
       let pre := run h retrieveAPIKey (world r1) in
       let r2 := run h (getUser required') (world r1) in
       result pre = Ok tt ->
       Request.user (w_req (world pre)) = Request.user (w_req (world r1)) ->
       Request.creds (w_req (world pre)) = Request.creds (w_req (world r1)) ->
       result r2 = Ok (Some (pick_userFields user))
       /\ trace r2 = trace pre
       /\ existsb is_user_lookup (trace r2) = false.
Proof.
  cbv zeta. intros Hin.
  assert (Hpre : ~ In (answered (GetUserQuery key) (user :: users))
                      (trace (run h retrieveAPIKey w))).
  { intros H. apply in_user_lookup in H; [|reflexivity].
    rewrite retrieveAPIKey_no_lookup in H. discriminate H. }
  assert (Hfirst :
    result (run h (getUser required) w) = Ok (Some (pick_userFields user))
    /\ Request.user (w_req (world (run h (getUser required) w)))
       = Some (pick_userFields user)
    /\ Request.creds (w_req (world (run h (getUser required) w)))
       = Some (pick_userFields user)).
  { rewrite run_getUser in Hin |- *.
    destruct (result (run h retrieveAPIKey w)) as [[] | e]; [|contradiction].
    cbv zeta in Hin |- *.
    destruct (Request.user _) as [u|]; destruct (Request.creds _) as [c|];
      simpl in Hin; rewrite ?app_nil_r in Hin; try contradiction.
    destruct (negb (truthy _)); simpl in Hin; rewrite ?app_nil_r in Hin;
      try contradiction.
    destruct (h _ _) as [[[|user' users'] | e] s2]; simpl in Hin;
      apply in_app_or in Hin; destruct Hin as [Hin | [Hin | []]];
      try contradiction;
      apply (f_equal lookup_answer) in Hin; simpl in Hin;
      try discriminate Hin.
    injection Hin as -> _. simpl. repeat split. }
  destruct Hfirst as (Hres & Huser & Hcreds).
  repeat (split; [assumption|]).
  intros required' Hpre2 Hu2 Hc2.
  rewrite run_getUser, Hpre2. cbv zeta.
  rewrite Hu2, Hc2, Huser, Hcreds. simpl.
  rewrite app_nil_r.
  split; [reflexivity|]. split; [reflexivity|].
  apply retrieveAPIKey_no_lookup.
Qed.

Lemma getUser_caches_witness :
  let h := RefStore.handler Sample.env in
  let keyed := Sample.request (Some (ApiKey.mk "alicekey" None)) in
  let r1 := run h (getUser true) (Sample.world_of keyed []) in
  result r1 = Ok (Some Sample.alice_user)
  /\ result (run h (getUser true) (world r1)) = Ok (Some Sample.alice_user)
  /\ trace (run h (getUser true) (world r1))
     = [answered (ApiKeyMiddleware (w_req (world r1))) (w_req (world r1))].
Proof.
  intros h keyed r1.
  pose proof (getUser_caches Store.t h (Sample.world_of keyed []) true
                "alicekey" Sample.alice []) as T.
  cbv zeta in T.
  destruct T as (T1 & _ & _ & T2).
  - vm_compute. right. left. reflexivity.
  - split; [exact T1|]. split; [|reflexivity].
    apply (T2 true); reflexivity.
Defined.

(** * API key issuer *)

(** Case analysis on the answers of the handler, call after call. *)
Ltac exec_calls h :=
  repeat (simpl;
          match goal with
          | |- context [h ?e ?s] =>
              let x := fresh "x" in
              let er := fresh "er" in
              let s' := fresh "s" in
              destruct (h e s) as [[x | er] s']
          end);
  simpl.

Ltac pick_step Hin Hacc :=
  simpl in Hin;
  repeat (destruct Hin as [Hin | Hin];
          [subst; simpl in Hacc; try discriminate Hacc|]);
  try contradiction.

Lemma dollar_createApiKey_access S (h : Handler S) (w : World S)
    (actorType roleName : string) (req : Caller) (actorTypeID : Z)
    (options : InternalApiKeyOptions.t) (res : list (option Z)) :
  let r := run h (dollar_createApiKey actorType roleName req actorTypeID options) w in
  forall st, In st (trace r) -> access_answer st = Some res ->
  (first_id res <> Some actorTypeID ->
   result r = Err ForbiddenError
   /\ existsb is_api_key_insert (trace r) = false)
  /\ (first_id res = Some actorTypeID ->
      existsb is_api_key_insert (trace r) = true).
Proof.
  cbv zeta. unfold dollar_createApiKey. simpl.
  destruct (h (ResinGetActor _ _ _) _) as [[[[[actorID|]]|] | er] s1]; simpl;
    try (intros st Hin Hacc; pick_step Hin Hacc; fail).
  destruct (h (ResinCanAccess _ _ _ _) _) as [[res' | er] s2]; simpl;
    try (intros st Hin Hacc; pick_step Hin Hacc; fail).
  destruct (first_id res') as [resId|] eqn:F;
    [destruct (Z.eqb_spec resId actorTypeID) as [-> | Hne]|]; simpl.
  - exec_calls h;
      try (destruct x0 as [|roleId roles]; exec_calls h);
      intros st Hin Hacc; pick_step Hin Hacc;
      injection Hacc as <-; (split; [congruence | reflexivity]).
  - intros st Hin Hacc; pick_step Hin Hacc. injection Hacc as <-.
    split; [split; reflexivity | congruence].
  - intros st Hin Hacc; pick_step Hin Hacc. injection Hacc as <-.
    split; [split; reflexivity | congruence].
Qed.

(** The runs of a transaction: begin, the body, then end, or roll back
    when the body or the end is rejected. *)
Lemma run_db_transaction S (h : Handler S) A (fn : Tx -> Prog A) (w : World S) :
  run h (db_transaction fn) w =
  match h DbBegin (w_ext w) with
  | (Err e, s) => mkRun (Err e) (mkWorld (w_req w) s) [rejected_with DbBegin e]
  | (Ok tx, s) =>
      let body := run h (fn tx) (mkWorld (w_req w) s) in
      let undo (e : Error) (s1 : S) (steps : list Step) :=
        match h (DbRollback tx) s1 with
        | (Ok u, s2) =>
            mkRun (Err e) (mkWorld (w_req (world body)) s2)
                  (answered DbBegin tx
                     :: trace body ++ steps ++ [answered (DbRollback tx) u])
        | (Err e', s2) =>
            mkRun (Err e') (mkWorld (w_req (world body)) s2)
                  (answered DbBegin tx
                     :: trace body ++ steps ++ [rejected_with (DbRollback tx) e'])
        end in
      match result body with
      | Ok a =>
          match h (DbEnd tx) (w_ext (world body)) with
          | (Ok u, s1) =>
              mkRun (Ok a) (mkWorld (w_req (world body)) s1)
                    (answered DbBegin tx :: trace body ++ [answered (DbEnd tx) u])
          | (Err e, s1) => undo e s1 [rejected_with (DbEnd tx) e]
          end
      | Err e => undo e (w_ext (world body)) []
      end
  end.
Proof.
  unfold db_transaction, call. simpl.
  destruct (h DbBegin (w_ext w)) as [[tx | e] s]; simpl; [|reflexivity].
  rewrite run_bind.
  destruct (result (run h (fn tx) (mkWorld (w_req w) s))) as [a | e]; simpl.
  - destruct (h (DbEnd tx) _) as [[u | e] s1]; simpl.
    + rewrite app_nil_r. reflexivity.
    + destruct (h (DbRollback tx) s1) as [[u | e'] s2]; simpl;
        rewrite <- ?app_assoc; reflexivity.
  - destruct (h (DbRollback tx) _) as [[u | e'] s2]; simpl; reflexivity.
Qed.

Lemma access_answer_answered (actorType : string) (id : Z) (action : string)
                             (tx : Tx) (res : list (option Z)) :
  access_answer (answered (ResinCanAccess actorType id action tx) res) = Some res.
Proof. reflexivity. Qed.

(** The steps a transaction adds around its body answer no access check,
    insert no key, and are rejected only if the rollback or the end is. *)
Lemma createApiKey_inner S (h : Handler S) (w : World S)
    (actorType roleName : string) (req : Caller) (actorTypeID : Z)
    (internal : Tx -> InternalApiKeyOptions.t) (otx : option Tx)
    (res : list (option Z)) :
  let r := run h match otx with
                 | Some tx =>
                     dollar_createApiKey actorType roleName req actorTypeID
                                         (internal tx)
                 | None =>
                     db_transaction
                       (fun tx => dollar_createApiKey actorType roleName req
                                    actorTypeID (internal tx))
                 end w in
  forall st, In st (trace r) -> access_answer st = Some res ->
  (first_id res <> Some actorTypeID ->
   is_ok (result r) = false
   /\ existsb is_api_key_insert (trace r) = false
   /\ (otx <> None
       \/ existsb (fun st => is_rollback st && rejected st) (trace r) = false ->
       result r = Err ForbiddenError))
  /\ (first_id res = Some actorTypeID ->
      existsb is_api_key_insert (trace r) = true).
Proof.
  cbv zeta. destruct otx as [tx|].
  - intros st Hin Hacc.
    destruct (dollar_createApiKey_access S h w actorType roleName req
                actorTypeID (internal tx) res st Hin Hacc) as [Hno Hyes].
    split; [|exact Hyes].
    intros Hid. destruct (Hno Hid) as [-> ->]. repeat split.
  - rewrite run_db_transaction.
    destruct (h DbBegin (w_ext w)) as [[tx | e] s0]; cbv zeta;
      [|intros st [<- | []] Hacc; discriminate Hacc].
    set (body := run h (dollar_createApiKey actorType roleName req actorTypeID
                          (internal tx)) (mkWorld (w_req w) s0)).
    pose proof (dollar_createApiKey_access S h (mkWorld (w_req w) s0) actorType
                  roleName req actorTypeID (internal tx) res) as Hbody.
    cbv zeta in Hbody. fold body in Hbody.
    assert (Hin_body : forall st steps,
               In st (answered DbBegin tx :: trace body ++ steps) ->
               access_answer st = Some res ->
               Forall (fun st => access_answer st = None) steps ->
               In st (trace body)).
    { intros st steps [<- | Hin] Hacc Hsteps; [discriminate Hacc|].
      apply in_app_or in Hin. destruct Hin as [Hin | Hin]; [exact Hin|].
      rewrite Forall_forall in Hsteps. rewrite (Hsteps st Hin) in Hacc.
      discriminate Hacc. }
    destruct (result body) as [a | e] eqn:Eres.
    + destruct (h (DbEnd tx) _) as [[u | e] s1];
        [|destruct (h (DbRollback tx) s1) as [[u | e'] s2]];
        cbn [result world trace];
        intros st Hin Hacc;
        (apply Hin_body in Hin; [|exact Hacc|repeat constructor]);
        destruct (Hbody st Hin Hacc) as [Hno Hyes];
        (split; [intros Hid; destruct (Hno Hid) as [Hf _]; discriminate Hf|]);
        intros Hid; simpl; rewrite existsb_app, (Hyes Hid); reflexivity.
    + destruct (h (DbRollback tx) _) as [[u | e'] s2];
        cbn [result world trace];
        intros st Hin Hacc;
        (apply Hin_body in Hin; [|exact Hacc|repeat constructor]);
        destruct (Hbody st Hin Hacc) as [Hno Hyes];
        (split;
         [intros Hid; destruct (Hno Hid) as [Hf Hins];
          injection Hf as ->; simpl;
          rewrite !existsb_app, ?Hins; simpl;
          repeat split; try reflexivity;
          rewrite ?orb_true_r; try reflexivity;
          intros [Hcaller | Hroll]; try reflexivity; try discriminate;
          try (exfalso; apply Hcaller; reflexivity)
         |intros Hid; simpl; rewrite !existsb_app, (Hyes Hid); reflexivity]).
Qed.

(** C4. In every run of [createApiKey] (and of [$createApiKey]) in which
    the access-control check for [create-<roleName>] on the target entity
    answers a list whose first id is not [actorTypeID], or an empty list,
    the call fails and no API key is inserted; the failure is Forbidden
    (always for [$createApiKey] and under a caller's transaction; under
    its own transaction unless the rollback itself is rejected).  When
    the first id equals [actorTypeID] the operation goes on to insert
    the key. *)
Theorem createApiKey_forbidden S (h : Handler S) (w : World S)
    (actorType roleName : string) (req : Caller) (actorTypeID : Z)
    (tx : Tx) (res : list (option Z)) :
  let check :=
    answered (ResinCanAccess actorType actorTypeID
                             (String.append "create-" roleName) tx) res in
  (forall options,
     let r := run h (dollar_createApiKey actorType roleName req actorTypeID
                                         options) w in
     In check (trace r) ->
     (first_id res <> Some actorTypeID ->
      result r = Err ForbiddenError
      /\ existsb is_api_key_insert (trace r) = false)
     /\ (first_id res = Some actorTypeID ->
         existsb is_api_key_insert (trace r) = true))
  /\ (forall options,
        let r := run h (createApiKey actorType roleName req actorTypeID
                                     options) w in
        In check (trace r) ->
        (first_id res <> Some actorTypeID ->
         is_ok (result r) = false
         /\ existsb is_api_key_insert (trace r) = false
         /\ (ApiKeyOptions.tx options <> None
             \/ existsb (fun st => is_rollback st && rejected st) (trace r) = false ->
             result r = Err ForbiddenError))
        /\ (first_id res = Some actorTypeID ->
            existsb is_api_key_insert (trace r) = true)).
Proof.
  cbv zeta. split.
  - intros options Hin.
    apply (dollar_createApiKey_access S h w actorType roleName req actorTypeID
             options res _ Hin). reflexivity.
  - intros options. unfold createApiKey. rewrite run_bind.
    set (internal := fun apiKey tx =>
           InternalApiKeyOptions.mk apiKey tx (ApiKeyOptions.name options)
                                    (ApiKeyOptions.description options)).
    destruct (ApiKeyOptions.apiKey options) as [apiKey|].
    + cbn [run result world trace app].
      intros Hin.
      destruct (createApiKey_inner S h w actorType roleName req actorTypeID
                  (internal apiKey) (ApiKeyOptions.tx options) res _ Hin eq_refl)
        as [Hno Hyes].
      split; assumption.
    + unfold call. cbn [run].
      destruct (h RandomstringGenerate (w_ext w)) as [[apiKey | e] s0];
        cbn [result world trace app];
        [|intros [Hin | []]; apply (f_equal access_answer) in Hin;
          discriminate Hin].
      intros [Hin | Hin];
        [apply (f_equal access_answer) in Hin; discriminate Hin|].
      destruct (createApiKey_inner S h (mkWorld (w_req w) s0) actorType
                  roleName req actorTypeID (internal apiKey)
                  (ApiKeyOptions.tx options) res _ Hin eq_refl)
        as [Hno Hyes].
      split; [exact Hno | exact Hyes].
Qed.

Lemma createApiKey_forbidden_witness :
  let h := RefStore.handler Sample.deny_env in
  let options := ApiKeyOptions.mk None (Some "laptop") None None in
  let r := run h (createApiKey "application" "observer" AsRequest 42 options)
               (Sample.world []) in
  result r = Err ForbiddenError
  /\ existsb is_api_key_insert (trace r) = false
  /\ Store.committed (w_ext (world r)) = Sample.db.
Proof.
  intros h options r.
  pose proof (createApiKey_forbidden Store.t h (Sample.world []) "application"
                "observer" AsRequest 42 0%nat [Some 43%Z]) as T.
  cbv zeta in T. destruct T as [_ T].
  destruct (T options) as [[_ [Hins Hres]] _].
  - vm_compute. right. right. right. left. reflexivity.
  - vm_compute. discriminate.
  - split; [apply Hres; right; reflexivity|]. split; [exact Hins | reflexivity].
Defined.

(** * The reference store *)

Lemma calls_satisfy_bind A B (P : Event -> Prop) (p : Prog A) (f : A -> Prog B) :
  calls_satisfy P p -> (forall a, calls_satisfy P (f a)) ->
  calls_satisfy P (bind p f).
Proof.
  intros Hp Hf.
  induction p as [A a | A e | A e k IH | A k IH | A r k IH
                 | A C body _ handler _ k IH]; simpl in *; auto.
  - destruct Hp as [He Hk]. split; auto.
  - destruct Hp as (Hb & Hh & Hk). repeat split; auto.
Qed.

(** An invariant of the outside world that every call of a program
    keeps is kept by every run of the program. *)
Lemma run_invariant S (h : Handler S) (I : S -> Prop) (P : Event -> Prop) :
  (forall e s, P e -> I s -> I (snd (h e s))) ->
  forall A (p : Prog A) (w : World S),
    calls_satisfy P p -> I (w_ext w) -> I (w_ext (world (run h p w))).
Proof.
  intros Hstep A p.
  induction p as [A a | A e | A e k IH | A k IH | A r k IH
                 | A C body IHb handler IHh k IH]; intros w Hp Hw; simpl in *;
    auto.
  - destruct Hp as [He Hk]. specialize (Hstep e (w_ext w) He Hw).
    destruct (h e (w_ext w)) as [[x | er] s]; simpl in *; auto.
  - destruct Hp as (Hb & Hh & Hk).
    specialize (IHb w Hb Hw).
    destruct (result (run h body w)) as [x | er]; simpl.
    + apply IH; auto.
    + specialize (IHh er _ (Hh er) IHb).
      destruct (result (run h (handler er) (world (run h body w))))
        as [x | er']; simpl; auto.
Qed.

Lemma on_db_keeps_committed A (tx : Tx) (s : Store.t)
                            (f : DB.t -> Result A * DB.t) :
  Store.committed (snd (Store.on_db (Some tx) s f)) = Store.committed s.
Proof.
  unfold Store.on_db.
  destruct (Store.lookup_tx tx (Store.open_tx s)) as [db0|]; [|reflexivity].
  destruct (f db0) as [[a | e] db]; reflexivity.
Qed.

Lemma answer_keeps_committed (env : Env.t) (e : Event) (s : Store.t) :
  keeps_committed e = true ->
  Store.committed (snd (RefStore.answer env e s)) = Store.committed s.
Proof.
  destruct e; simpl; intros H; try reflexivity; try discriminate H;
    unfold Store.on_db, RefStore.insert_binding;
    repeat match goal with
           | |- context [match ?x with _ => _ end] => destruct x
           end;
    try reflexivity; discriminate H.
Qed.

Lemma handler_keeps_committed (env : Env.t) (e : Event) (s : Store.t) :
  keeps_committed e = true ->
  Store.committed (snd (RefStore.handler env e s)) = Store.committed s.
Proof.
  intros H. unfold RefStore.handler.
  destruct (Store.faults s) as [|[er|] plan]; simpl.
  - now apply answer_keeps_committed.
  - reflexivity.
  - now rewrite answer_keeps_committed.
Qed.

(** A run whose calls all keep the committed tables keeps them. *)
Lemma run_keeps_committed (env : Env.t) A (p : Prog A) (w : World Store.t) :
  calls_satisfy (fun e => keeps_committed e = true) p ->
  Store.committed (w_ext (world (run (RefStore.handler env) p w)))
  = Store.committed (w_ext w).
Proof.
  intros Hp.
  apply (run_invariant Store.t (RefStore.handler env)
           (fun s => Store.committed s = Store.committed (w_ext w))
           (fun e => keeps_committed e = true)); auto.
  intros e s He Hs. now rewrite handler_keeps_committed.
Qed.

Lemma dollar_createApiKey_calls actorType roleName req actorTypeID options :
  calls_satisfy (fun e => keeps_committed e = true)
    (dollar_createApiKey actorType roleName req actorTypeID options).
Proof.
  unfold dollar_createApiKey. simpl. split; [reflexivity|].
  intros actorable.
  destruct (match actorable with
            | Some a => Actorable.actor a
            | None => None
            end) as [actorID|]; simpl; [|exact I].
  split; [reflexivity|]. intros res.
  destruct (match first_id res with
            | Some resId => negb (resId =? actorTypeID)%Z
            | None => true
            end); simpl; [exact I|].
  split; [split; [reflexivity | exact (fun _ => I)]|].
  split; [exact (fun _ => I)|]. intros rk.
  split; [split; [reflexivity | exact (fun _ => I)]|].
  split; [exact (fun _ => I)|]. intros rr.
  destruct rk as [k | e]; [destruct rr as [[|roleId roles] | e]|]; simpl;
    auto.
Qed.

Arguments Store.on_db : simpl never.

Lemma lookup_update_tx (tx : Tx) (db : DB.t) (l : list (Tx * DB.t)) :
  Store.lookup_tx tx l <> None ->
  Store.lookup_tx tx (Store.update_tx tx db l) = Some db.
Proof.
  induction l as [|[tx' db'] l IH]; simpl; [congruence|].
  destruct (Nat.eqb tx' tx) eqn:E; simpl; rewrite E; auto.
Qed.

Lemma handler_ok (env : Env.t) (e : Event) (s : Store.t) (x : resp e)
                 (s' : Store.t) :
  RefStore.handler env e s = (Ok x, s') ->
  exists s0, RefStore.answer env e s0 = (Ok x, s')
             /\ Store.open_tx s0 = Store.open_tx s
             /\ Store.committed s0 = Store.committed s.
Proof.
  unfold RefStore.handler.
  destruct (Store.faults s) as [|[er|] plan]; intros H.
  - exists s. auto.
  - discriminate H.
  - exists (Store.set_faults plan s). auto.
Qed.

Lemma on_db_ok A (tx : Tx) (s : Store.t) (f : DB.t -> Result A * DB.t)
               (a : A) (s' : Store.t) :
  Store.on_db (Some tx) s f = (Ok a, s') ->
  exists db0 db,
    Store.lookup_tx tx (Store.open_tx s) = Some db0
    /\ f db0 = (Ok a, db)
    /\ Store.lookup_tx tx (Store.open_tx s') = Some db.
Proof.
  unfold Store.on_db.
  destruct (Store.lookup_tx tx (Store.open_tx s)) as [db0|] eqn:L;
    [|discriminate].
  destruct (f db0) as [[a' | e] db] eqn:F; intros H; [|discriminate H].
  injection H as <- <-. exists db0, db. repeat split; auto.
  simpl. apply lookup_update_tx. congruence.
Qed.

Lemma view_after_read (env : Env.t) (tx : Tx) (e : Event) (s : Store.t)
                      (x : resp e) (s' : Store.t) :
  reads_in tx e ->
  RefStore.handler env e s = (Ok x, s') ->
  exists db0, Store.lookup_tx tx (Store.open_tx s) = Some db0
              /\ Store.lookup_tx tx (Store.open_tx s') = Some db0.
Proof.
  intros Hr H. apply handler_ok in H. destruct H as (s0 & H & Ho & _).
  destruct e; simpl in Hr; try contradiction; subst; simpl in H;
    apply on_db_ok in H; destruct H as (db0 & db & L & F & L');
    injection F as _ <-; exists db0; rewrite <- Ho; auto.
Qed.

Lemma view_after_post_key (env : Env.t) (tx : Tx) (actor : Z) (key : string)
    (name description : option string) (s : Store.t) (id : Z) (s' : Store.t) :
  RefStore.handler env (AuthPostApiKey actor key name description tx) s
  = (Ok id, s') ->
  exists db0,
    Store.lookup_tx tx (Store.open_tx s) = Some db0
    /\ id = DB.next_id db0
    /\ Store.lookup_tx tx (Store.open_tx s')
       = Some (DB.add_api_key (ApiKeyRow.mk id actor key name description) db0).
Proof.
  intros H. apply handler_ok in H. destruct H as (s0 & H & Ho & _).
  simpl in H. apply on_db_ok in H. destruct H as (db0 & db & L & F & L').
  injection F as <- <-. exists db0. rewrite <- Ho. auto.
Qed.

Lemma view_after_post_binding (env : Env.t) (tx : Tx) (api_key role : Z)
    (s : Store.t) (id : Z) (s' : Store.t) :
  RefStore.handler env (AuthPostApiKeyHasRole api_key role tx) s = (Ok id, s') ->
  exists db0,
    Store.lookup_tx tx (Store.open_tx s) = Some db0
    /\ Store.lookup_tx tx (Store.open_tx s')
       = Some (DB.add_binding (BindingRow.mk (DB.next_id db0) api_key role) db0).
Proof.
  intros H. apply handler_ok in H. destruct H as (s0 & H & Ho & _).
  simpl in H. apply on_db_ok in H. destruct H as (db0 & db & L & F & L').
  unfold RefStore.insert_binding in F.
  destruct (_ && _); [|discriminate F].
  injection F as _ <-. exists db0. rewrite <- Ho. auto.
Qed.

(** A successful [$createApiKey] adds to the tables of its transaction
    exactly one key row, carrying the key string it returns, and one
    binding of that row. *)
Lemma dollar_createApiKey_success (env : Env.t) (w : World Store.t)
    (actorType roleName : string) (req : Caller) (actorTypeID : Z)
    (options : InternalApiKeyOptions.t) (key : string) :
  let tx := InternalApiKeyOptions.tx options in
  let r := run (RefStore.handler env)
               (dollar_createApiKey actorType roleName req actorTypeID options)
               w in
  result r = Ok key ->
  key = InternalApiKeyOptions.apiKey options
  /\ exists db0 row binding,
       Store.lookup_tx tx (Store.open_tx (w_ext w)) = Some db0
       /\ Store.lookup_tx tx (Store.open_tx (w_ext (world r)))
          = Some (DB.add_binding binding (DB.add_api_key row db0))
       /\ ApiKeyRow.key row = key
       /\ ApiKeyRow.id row = DB.next_id db0
       /\ BindingRow.api_key binding = ApiKeyRow.id row.
Proof.
  cbv zeta. unfold dollar_createApiKey.
  set (h := RefStore.handler env). simpl.
  destruct (h (ResinGetActor _ _ _) _) as [[[[[actorID|]]|] | er] s1] eqn:E1;
    simpl; try discriminate.
  destruct (h (ResinCanAccess _ _ _ _) _) as [[res | er] s2] eqn:E2;
    simpl; try discriminate.
  destruct (match first_id res with
            | Some resId => negb (resId =? actorTypeID)%Z
            | None => true
            end); simpl; try discriminate.
  destruct (h (AuthPostApiKey _ _ _ _ _) _) as [[id | er] s3] eqn:E3; simpl;
    destruct (h (AuthGetRole _ _) _) as [[[|roleId roles] | er'] s4] eqn:E4;
    simpl; try discriminate.
  destruct (h (AuthPostApiKeyHasRole _ _ _) _) as [[bid | er] s5] eqn:E5;
    simpl; try discriminate.
  intros H. injection H as <-. split; [reflexivity|].
  apply view_after_read with (tx := InternalApiKeyOptions.tx options) in E1;
    [|reflexivity].
  apply view_after_read with (tx := InternalApiKeyOptions.tx options) in E2;
    [|reflexivity].
  apply view_after_post_key in E3.
  apply view_after_read with (tx := InternalApiKeyOptions.tx options) in E4;
    [|reflexivity].
  apply view_after_post_binding in E5.
  destruct E1 as (db0 & L0 & L1). destruct E2 as (db1 & L1' & L2).
  destruct E3 as (db2 & L2' & Hid & L3). destruct E4 as (db3 & L3' & L4).
  destruct E5 as (db4 & L4' & L5).
  assert (db1 = db0) by congruence. assert (db2 = db0) by congruence.
  subst db1 db2.
  assert (db3 = DB.add_api_key
                  (ApiKeyRow.mk id actorID (InternalApiKeyOptions.apiKey options)
                     (InternalApiKeyOptions.name options)
                     (InternalApiKeyOptions.description options)) db0)
    by congruence.
  assert (db4 = db3) by congruence. subst db4 db3.
  eexists db0, _, _. split; [exact L0|]. split; [exact L5|].
  simpl. auto.
Qed.

Lemma handler_rejected (env : Env.t) (e : Event) (s : Store.t) (er : Error)
                       (s' : Store.t) :
  RefStore.handler env e s = (Err er, s') ->
  Store.committed s' = Store.committed s.
Proof.
  unfold RefStore.handler.
  destruct (Store.faults s) as [|[er0|] plan];
    try (intros H; injection H as _ <-; reflexivity);
    destruct e; simpl; unfold Store.on_db, RefStore.insert_binding;
    repeat match goal with
           | |- context [match ?x with _ => _ end] => destruct x
           end;
    intros H; try discriminate H; injection H as _ <-; reflexivity.
Qed.

Lemma handler_random (env : Env.t) (s : Store.t) (r : Result string)
                     (s' : Store.t) :
  RefStore.handler env RandomstringGenerate s = (r, s') ->
  Store.committed s' = Store.committed s
  /\ Store.open_tx s' = Store.open_tx s.
Proof.
  unfold RefStore.handler.
  destruct (Store.faults s) as [|[er0|] plan]; simpl;
    intros H; injection H as _ <-; auto.
Qed.

Lemma handler_begin (env : Env.t) (s : Store.t) (tx : Tx) (s' : Store.t) :
  RefStore.handler env DbBegin s = (Ok tx, s') ->
  Store.committed s' = Store.committed s
  /\ Store.lookup_tx tx (Store.open_tx s') = Some (Store.committed s).
Proof.
  intros H. apply handler_ok in H. destruct H as (s0 & H & _ & Hc).
  simpl in H. injection H as <- <-. simpl. rewrite Nat.eqb_refl, Hc. auto.
Qed.

Lemma handler_end (env : Env.t) (tx : Tx) (s : Store.t) (u : unit)
                  (s' : Store.t) :
  RefStore.handler env (DbEnd tx) s = (Ok u, s') ->
  Store.lookup_tx tx (Store.open_tx s) = Some (Store.committed s').
Proof.
  intros H. apply handler_ok in H. destruct H as (s0 & H & Ho & _).
  simpl in H. rewrite Ho in H.
  destruct (Store.lookup_tx tx (Store.open_tx s)) as [db|]; [|discriminate H].
  injection H as _ <-. reflexivity.
Qed.

(** A fresh key row with its binding has exactly that binding. *)
Lemma bindings_of_new (db0 : DB.t) (row : ApiKeyRow.t) (binding : BindingRow.t) :
  DB.fresh_ids db0 ->
  ApiKeyRow.id row = DB.next_id db0 ->
  BindingRow.api_key binding = ApiKeyRow.id row ->
  DB.bindings_of (DB.add_binding binding (DB.add_api_key row db0))
                 (ApiKeyRow.id row)
  = [binding].
Proof.
  unfold DB.fresh_ids, DB.bindings_of. intros Hf Hid Hb. simpl.
  rewrite filter_app. simpl. rewrite Hb, Z.eqb_refl.
  replace (filter _ (DB.api_key__has__role db0)) with (@nil BindingRow.t);
    [reflexivity|].
  symmetry. rewrite Hid.
  induction Hf as [|b l Hlt _ IH]; simpl; [reflexivity|].
  destruct (Z.eqb_spec (BindingRow.api_key b) (DB.next_id db0)); [lia | exact IH].
Qed.

(** Adding a key row together with a binding of it orphans no key. *)
Lemma no_orphan_key_new (db0 : DB.t) (row : ApiKeyRow.t) (binding : BindingRow.t) :
  DB.no_orphan_key db0 ->
  BindingRow.api_key binding = ApiKeyRow.id row ->
  DB.no_orphan_key (DB.add_binding binding (DB.add_api_key row db0)).
Proof.
  unfold DB.no_orphan_key, DB.bindings_of. intros H0 Hb row' Hin. simpl in *.
  rewrite filter_app. apply in_app_or in Hin. destruct Hin as [Hin | [<- | []]].
  - specialize (H0 row' Hin).
    destruct (filter _ (DB.api_key__has__role db0)); [congruence | discriminate].
  - simpl. rewrite Hb, Z.eqb_refl.
    destruct (filter _ (DB.api_key__has__role db0)); discriminate.
Qed.

(** The store after [createApiKey], once the key string is fixed. *)
Lemma createApiKey_inner_store (env : Env.t) (w : World Store.t)
    (actorType roleName : string) (req : Caller) (actorTypeID : Z)
    (apiKey : string) (name description : option string) (otx : option Tx) :
  let internal tx := InternalApiKeyOptions.mk apiKey tx name description in
  let r := run (RefStore.handler env)
               match otx with
               | Some tx =>
                   dollar_createApiKey actorType roleName req actorTypeID
                                       (internal tx)
               | None =>
                   db_transaction
                     (fun tx => dollar_createApiKey actorType roleName req
                                  actorTypeID (internal tx))
               end w in
  (forall key, result r = Ok key ->
     key = apiKey
     /\ exists db0 row binding,
          Store.visible otx (w_ext w) = Some db0
          /\ Store.visible otx (w_ext (world r))
             = Some (DB.add_binding binding (DB.add_api_key row db0))
          /\ ApiKeyRow.key row = key
          /\ ApiKeyRow.id row = DB.next_id db0
          /\ BindingRow.api_key binding = ApiKeyRow.id row)
  /\ (is_ok (result r) = false \/ otx <> None ->
      Store.committed (w_ext (world r)) = Store.committed (w_ext w)).
Proof.
  cbv zeta. set (h := RefStore.handler env).
  destruct otx as [tx|].
  - split.
    + intros key H.
      apply (dollar_createApiKey_success env w actorType roleName req
               actorTypeID (InternalApiKeyOptions.mk apiKey tx name description)
               key H).
    + intros _. apply run_keeps_committed, dollar_createApiKey_calls.
  - rewrite run_db_transaction. fold h.
    destruct (h DbBegin (w_ext w)) as [[tx | e] s0] eqn:Eb; cbv zeta.
    2:{ split; [discriminate|]. intros _. simpl.
        apply (handler_rejected env _ _ _ _ Eb). }
    apply handler_begin in Eb. destruct Eb as [Hc0 L0].
    set (options := InternalApiKeyOptions.mk apiKey tx name description).
    set (body := run h (dollar_createApiKey actorType roleName req actorTypeID
                          options) (mkWorld (w_req w) s0)).
    assert (Hbody : Store.committed (w_ext (world body)) = Store.committed (w_ext w)).
    { unfold body, h. rewrite run_keeps_committed; [exact Hc0|].
      apply dollar_createApiKey_calls. }
    pose proof (dollar_createApiKey_success env (mkWorld (w_req w) s0)
                  actorType roleName req actorTypeID options) as Hok.
    cbv zeta in Hok. fold h in Hok. fold body in Hok.
    destruct (result body) as [key | e] eqn:Eres.
    + destruct (h (DbEnd tx) (w_ext (world body))) as [[u | e] s1] eqn:Ee.
      * split; [|intros [H | H]; [discriminate H | congruence]].
        intros key' H. injection H as <-.
        destruct (Hok key eq_refl) as (-> & db0 & row & binding & L & L' & Hrow).
        split; [reflexivity|].
        apply handler_end in Ee. simpl in L, L', Ee.
        exists db0, row, binding. simpl.
        repeat split; try apply Hrow; congruence.
      * apply handler_rejected in Ee.
        destruct (h (DbRollback tx) s1) as [[u | e'] s2] eqn:Er;
          (split; [discriminate|]); intros _; simpl.
        -- replace s2 with (snd (h (DbRollback tx) s1)) by (rewrite Er; reflexivity).
           unfold h. rewrite handler_keeps_committed by reflexivity. congruence.
        -- apply handler_rejected in Er. congruence.
    + destruct (h (DbRollback tx) (w_ext (world body))) as [[u | e'] s2] eqn:Er;
        (split; [discriminate|]); intros _; simpl.
      * replace s2 with (snd (h (DbRollback tx) (w_ext (world body))))
          by (rewrite Er; reflexivity).
        unfold h. rewrite handler_keeps_committed by reflexivity. exact Hbody.
      * apply handler_rejected in Er. congruence.
Qed.

(** C1. On the reference store, whatever calls are made to fail: when
    [createApiKey] returns, it returns the key string and the tables it
    wrote to hold one new key row with that string and one new binding,
    the only binding of that row (ids being handed out in sequence, so
    that no older binding refers to it); when it fails under a transaction it
    opened itself, the committed tables are as before, so no key row is
    observable; and in every case no committed key is without a role
    binding afterwards if none was before.  Under a caller's transaction
    the committed tables are untouched and the rollback is the caller's. *)
Theorem createApiKey_atomic (env : Env.t) (w : World Store.t)
    (actorType roleName : string) (req : Caller) (actorTypeID : Z)
    (options : ApiKeyOptions.t) :
  let r := run (RefStore.handler env)
               (createApiKey actorType roleName req actorTypeID options) w in
  let otx := ApiKeyOptions.tx options in
  (forall key, result r = Ok key ->
     (forall k, ApiKeyOptions.apiKey options = Some k -> key = k)
     /\ exists db0 db row binding,
          Store.visible otx (w_ext w) = Some db0
          /\ Store.visible otx (w_ext (world r)) = Some db
          /\ DB.api_key db = DB.api_key db0 ++ [row]
          /\ ApiKeyRow.key row = key
          /\ DB.api_key__has__role db = DB.api_key__has__role db0 ++ [binding]
          /\ BindingRow.api_key binding = ApiKeyRow.id row
          /\ (DB.fresh_ids db0 ->
              DB.bindings_of db (ApiKeyRow.id row) = [binding]))
  /\ (otx = None -> is_ok (result r) = false ->
      Store.committed (w_ext (world r)) = Store.committed (w_ext w))
  /\ (otx <> None ->
      Store.committed (w_ext (world r)) = Store.committed (w_ext w))
  /\ (DB.no_orphan_key (Store.committed (w_ext w)) ->
      DB.no_orphan_key (Store.committed (w_ext (world r)))).
Proof.
  cbv zeta. set (h := RefStore.handler env).
  unfold createApiKey. rewrite run_bind.
  assert (Hinner : forall (w0 : World Store.t) (apiKey : string),
    Store.committed (w_ext w0) = Store.committed (w_ext w) ->
    Store.open_tx (w_ext w0) = Store.open_tx (w_ext w) ->
    (forall k, ApiKeyOptions.apiKey options = Some k -> apiKey = k) ->
    let r := run h
      match ApiKeyOptions.tx options with
      | Some tx =>
          dollar_createApiKey actorType roleName req actorTypeID
            (InternalApiKeyOptions.mk apiKey tx (ApiKeyOptions.name options)
               (ApiKeyOptions.description options))
      | None =>
          db_transaction
            (fun tx =>
               dollar_createApiKey actorType roleName req actorTypeID
                 (InternalApiKeyOptions.mk apiKey tx (ApiKeyOptions.name options)
                    (ApiKeyOptions.description options)))
      end w0 in
    (forall key, result r = Ok key ->
       (forall k, ApiKeyOptions.apiKey options = Some k -> key = k)
       /\ exists db0 db row binding,
            Store.visible (ApiKeyOptions.tx options) (w_ext w) = Some db0
            /\ Store.visible (ApiKeyOptions.tx options) (w_ext (world r)) = Some db
            /\ DB.api_key db = DB.api_key db0 ++ [row]
            /\ ApiKeyRow.key row = key
            /\ DB.api_key__has__role db = DB.api_key__has__role db0 ++ [binding]
            /\ BindingRow.api_key binding = ApiKeyRow.id row
            /\ (DB.fresh_ids db0 ->
                DB.bindings_of db (ApiKeyRow.id row) = [binding]))
    /\ (ApiKeyOptions.tx options = None -> is_ok (result r) = false ->
        Store.committed (w_ext (world r)) = Store.committed (w_ext w))
    /\ (ApiKeyOptions.tx options <> None ->
        Store.committed (w_ext (world r)) = Store.committed (w_ext w))
    /\ (DB.no_orphan_key (Store.committed (w_ext w)) ->
        DB.no_orphan_key (Store.committed (w_ext (world r))))).
  { intros w0 apiKey Hc Ho Hk. cbv zeta.
    destruct (createApiKey_inner_store env w0 actorType roleName req actorTypeID
                apiKey (ApiKeyOptions.name options)
                (ApiKeyOptions.description options) (ApiKeyOptions.tx options))
      as [Hok Hkeep].
    fold h in Hok, Hkeep.
    assert (Hvis : Store.visible (ApiKeyOptions.tx options) (w_ext w0)
                   = Store.visible (ApiKeyOptions.tx options) (w_ext w)).
    { unfold Store.visible. destruct (ApiKeyOptions.tx options); congruence. }
    split; [|split; [|split]].
    - intros key H. destruct (Hok key H)
        as (-> & db0 & row & binding & L & L' & Hkey & Hid & Hb).
      split; [exact Hk|].
      exists db0, (DB.add_binding binding (DB.add_api_key row db0)), row, binding.
      rewrite <- Hvis. repeat split; auto.
      intros Hf. now apply bindings_of_new.
    - intros _ H. rewrite Hkeep by auto. exact Hc.
    - intros H. rewrite Hkeep by auto. exact Hc.
    - intros Hno.
      match goal with |- DB.no_orphan_key (Store.committed (w_ext (world ?r))) =>
        destruct (result r) as [key | e] eqn:Eres end.
      + destruct (Hok key eq_refl)
          as (_ & db0 & row & binding & L & L' & _ & _ & Hb).
        destruct (ApiKeyOptions.tx options) as [tx|].
        * rewrite Hkeep by (right; discriminate). now rewrite Hc.
        * unfold Store.visible in L, L'.
          assert (E0 : db0 = Store.committed (w_ext w0)) by congruence.
          match type of L' with
          | Some ?x = Some ?y => assert (E1 : x = y) by congruence
          end.
          rewrite E1, E0.
          apply no_orphan_key_new; [now rewrite Hc | exact Hb].
      + rewrite Hkeep by (left; reflexivity). now rewrite Hc. }
  destruct (ApiKeyOptions.apiKey options) as [apiKey|].
  - cbn [run result world trace].
    assert (Hk : forall k, Some apiKey = Some k -> apiKey = k)
      by (intros k Hk; now injection Hk).
    destruct (Hinner w apiKey eq_refl eq_refl Hk) as (H1 & H2 & H3 & H4).
    repeat split; auto; apply H1; auto.
  - unfold call. cbn [run].
    destruct (h RandomstringGenerate (w_ext w)) as [[apiKey | e] s0] eqn:Er;
      cbn [result world trace w_ext];
      destruct (handler_random env _ _ _ Er) as [Hc Ho].
    + assert (Hk : forall k, @None string = Some k -> apiKey = k)
        by discriminate.
      destruct (Hinner (mkWorld (w_req w) s0) apiKey Hc Ho Hk)
        as (H1 & H2 & H3 & H4).
      repeat split; auto; apply H1; auto.
    + repeat split; try discriminate; auto. now rewrite Hc.
Qed.

(** Under a caller's transaction nothing is rolled back here: when the
    role does not exist the call fails after the key insert, the
    committed tables are untouched, and the caller's transaction holds
    a key row without a binding until the caller rolls it back. *)
Lemma createApiKey_caller_transaction :
  let h := RefStore.handler Sample.env in
  let options := ApiKeyOptions.mk (Some "k3y") None None (Some 0%nat) in
  let r := run h (createApiKey "application" "no-such-role" AsRequest 42 options)
               Sample.world_in_tx in
  result r = Err (TypeError "Cannot read property 'id' of undefined")
  /\ Store.committed (w_ext (world r)) = Sample.db
  /\ option_map (fun db => (map ApiKeyRow.key (DB.api_key db),
                            DB.bindings_of db 100))
                (Store.visible (Some 0%nat) (w_ext (world r)))
     = Some (["alicekey"; "k3y"], []).
Proof. repeat split. Qed.

Lemma createApiKey_atomic_witness :
  let h := RefStore.handler Sample.env in
  let options := ApiKeyOptions.mk None (Some "laptop") None None in
  let issue := createApiKey "application" "observer" AsRequest 42 options in
  let ok := run h issue (Sample.world []) in
  let role_lookup_fails :=
    run h issue (Sample.world [None; None; None; None; None; Some Sample.DOWN]) in
  (result ok = Ok "k3y"
   /\ exists row binding,
        In row (DB.api_key (Store.committed (w_ext (world ok))))
        /\ ApiKeyRow.key row = "k3y"
        /\ DB.bindings_of (Store.committed (w_ext (world ok))) (ApiKeyRow.id row)
           = [binding])
  /\ (result role_lookup_fails = Err Sample.DOWN
      /\ Store.committed (w_ext (world role_lookup_fails)) = Sample.db)
  /\ DB.no_orphan_key (Store.committed (w_ext (world ok))).
Proof.
  intros h options issue ok role_lookup_fails.
  assert (Hno : DB.no_orphan_key Sample.db).
  { intros row [<- | []]. vm_compute. discriminate. }
  assert (Hfresh : DB.fresh_ids Sample.db).
  { unfold DB.fresh_ids. simpl. repeat constructor. }
  split; [|split].
  - split; [reflexivity|].
    destruct (createApiKey_atomic Sample.env (Sample.world []) "application"
                "observer" AsRequest 42 options) as (H1 & _).
    destruct (H1 "k3y" eq_refl)
      as (_ & db0 & db & row & binding & V0 & V & Hk & Hkey & _ & _ & Hone).
    unfold Store.visible in V0, V. simpl ApiKeyOptions.tx in V0, V.
    assert (E0 : db0 = Sample.db) by (injection V0 as <-; reflexivity).
    assert (E : db = Store.committed (w_ext (world ok)))
      by (injection V as <-; reflexivity).
    subst db0 db.
    exists row, binding. split; [|split].
    + rewrite Hk. apply in_or_app. right. left. reflexivity.
    + exact Hkey.
    + apply Hone. exact Hfresh.
  - split; [reflexivity|].
    destruct (createApiKey_atomic Sample.env
                (Sample.world [None; None; None; None; None; Some Sample.DOWN])
                "application" "observer" AsRequest 42 options)
      as (_ & H2 & _).
    apply H2; reflexivity.
  - destruct (createApiKey_atomic Sample.env (Sample.world []) "application"
                "observer" AsRequest 42 options) as (_ & _ & _ & H4).
    apply H4. exact Hno.
Defined.

(** * Registration *)

(** The uniqueness checks of [registerUser], in order, for a username
    that is not blacklisted: a user found by the email lookup makes it
    fail with Conflict, then a user found by the username lookup does;
    otherwise the record the store answers is returned, unless it has no
    id, which is an internal error. *)
Lemma registerUser_checks S (h : Handler S) (w : World S)
    (userData : UserData.t) (tx : Tx) :
  includes USERNAME_BLACKLIST (UserData.username userData) = false ->
  let r := run h (registerUser userData tx None) w in
  let byEmail := run h (findUser (UserData.email userData) (Some tx) ["id"]) w in
  let byName := run h (findUser (UserData.username userData) (Some tx) ["id"])
                    (world byEmail) in
  let post := h (ResinPostUser userData tx None) (w_ext (world byName)) in
  (forall u, result byEmail = Ok (Some u) ->
     result r = Err (ConflictError "This email is already taken")
     /\ existsb is_user_write (trace r) = false)
  /\ (result byEmail = Ok None ->
      (forall u, result byName = Ok (Some u) ->
         result r = Err (ConflictError "This username is already taken")
         /\ existsb is_user_write (trace r) = false)
      /\ (result byName = Ok None ->
          forall user, fst post = Ok user ->
          result r = if is_nullish (get_prop user "id")
                     then Err (PlainError "Error creating user in the platform")
                     else Ok user)).
Proof.
  intros Hb. cbv zeta. unfold registerUser. rewrite Hb, run_bind.
  split.
  - intros u Hf. rewrite Hf. cbn [result world trace run].
    split; [reflexivity|].
    rewrite existsb_app, findUser_no_write. reflexivity.
  - intros Hf. rewrite Hf. cbn [result world trace]. rewrite run_bind.
    split.
    + intros u Hn. rewrite Hn. cbn [result world trace run].
      split; [reflexivity|].
      rewrite !existsb_app, !findUser_no_write. reflexivity.
    + intros Hn user Hp. rewrite Hn. cbn [result world trace].
      simpl.
      destruct (h (ResinPostUser userData tx None) _) as [[user' | e] s1];
        simpl in Hp; [|discriminate Hp].
      injection Hp as ->. simpl.
      destruct (is_nullish (get_prop user "id")); reflexivity.
Qed.

(** C5 at a failing input.  A second registration of the username
    "eve@x.io", already taken, under a fresh email: the username lookup
    goes to the email column because the name contains an at sign, finds
    nobody, and the registration is not refused with Conflict: the
    insert is issued and two users end up with the same username. *)
Theorem registerUser_taken_username_with_at_sign :
  let h := RefStore.handler Sample.env in
  let r := run h (db_transaction
                    (fun tx => registerUser Sample.second_eve tx None))
               Sample.world_eve in
  In Sample.eve (DB.user (Store.committed (w_ext Sample.world_eve)))
  /\ DbUser.username Sample.eve = UserData.username Sample.second_eve
  /\ In (answered (ResinGetUserWhereLower "email" "eve@x.io" ["id"] (Some 0%nat))
                  []) (trace r)
  /\ is_ok (result r) = true
  /\ existsb is_user_write (trace r) = true
  /\ map DbUser.username (DB.user (Store.committed (w_ext (world r))))
     = ["alice"; "eve@x.io"; "eve@x.io"].
Proof.
  vm_compute. repeat split; auto.
Qed.

(** * Further properties of the request identity resolver *)

Lemma retrieveAPIKey_fails_only_by_rejection :
  fails_only_by_rejection retrieveAPIKey.
Proof.
  intros S h w e. unfold retrieveAPIKey. simpl.
  destruct (h (ApiKeyMiddleware (w_req w)) (w_ext w)) as [[req | er] s1];
    simpl; [|intros H; injection H as ->; eexists; left; reflexivity].
  destruct (isRequest req); simpl; [|discriminate].
  destruct (bearer_token req) as [token|]; simpl; [|discriminate].
  destruct (truthy token); simpl; [|discriminate].
  destruct (h (IsJWT token) s1) as [[jwt | er] s2]; simpl;
    [|intros H; injection H as ->; eexists; right; left; reflexivity].
  destruct jwt; simpl; [discriminate|].
  destruct (h (AuthorizationMiddleware req) s2) as [[req' | er] s3]; simpl;
    [discriminate|].
  intros H; injection H as ->. eexists. right. right. left. reflexivity.
Qed.

(** X1. In required mode [getUser] never resolves to [undefined]: every
    run that returns, returns a user. *)
Theorem getUser_required_returns_user S (h : Handler S) (w : World S) :
  result (run h (getUser true) w) <> Ok None.
Proof.
  rewrite run_getUser.
  destruct (result (run h retrieveAPIKey w)) as [[] | e]; [|discriminate].
  cbv zeta.
  destruct (Request.user _) as [u|]; destruct (Request.creds _) as [c|];
    simpl; try discriminate.
  destruct (negb (truthy _)); simpl; [discriminate|].
  destruct (h _ _) as [[[|user users] | e] s2]; discriminate.
Qed.

(** X2. In optional mode [getUser] raises no error of its own: when a
    run fails, its error is the one a call of the run was rejected
    with (a middleware, the JWT test or the user lookup). *)
Theorem getUser_optional_fails_only_by_rejection :
  fails_only_by_rejection (getUser false).
Proof.
  intros S h w e. rewrite run_getUser.
  pose proof (retrieveAPIKey_fails_only_by_rejection S h w) as Hpre.
  destruct (result (run h retrieveAPIKey w)) as [[] | e0].
  - clear Hpre. cbv zeta.
    destruct (Request.user _) as [u|]; destruct (Request.creds _) as [c|];
      simpl; try discriminate.
    destruct (negb (truthy _)); simpl; [discriminate|].
    destruct (h _ _) as [[[|user users] | e1] s2]; simpl; try discriminate.
    intros H; injection H as ->. eexists. apply in_or_app. right. left.
    reflexivity.
  - simpl. intros H; injection H as ->. apply Hpre. reflexivity.
Qed.

Lemma getUser_optional_fails_only_by_rejection_witness :
  exists c,
    In (rejected_with c Sample.DOWN)
       (trace (run (RefStore.handler Sample.env) (getUser false)
                   (Sample.world_of
                      (Sample.request (Some (ApiKey.mk "alicekey" None)))
                      [None; Some Sample.DOWN]))).
Proof.
  apply (getUser_optional_fails_only_by_rejection Store.t
           (RefStore.handler Sample.env)). reflexivity.
Defined.

Tactic Notation "slots" "in" hyp(H) "|-" "*" :=
  cbn [result world trace w_req w_ext app negb truthy String.eqb
       Request.user Request.creds Request.apiKey
       Request.set_creds Request.set_user_and_creds] in H |- *.

(** X3. Whenever [getUser] returns a user, by whichever path (a user
    already attached, or one resolved from an API key), the request
    holds that user in its [user] slot and has a non-empty [creds]
    slot; a second call on the same request, whose pre-resolution step
    succeeds and leaves both slots alone, returns the same user and
    issues no call beyond those of the pre-resolution step. *)
Theorem getUser_resolved_is_cached S (h : Handler S) (w : World S)
    (required : bool) (u : User.t) :
  let r1 := run h (getUser required) w in
  result r1 = Ok (Some u) ->
  Request.user (w_req (world r1)) = Some u
  /\ Request.creds (w_req (world r1)) <> None
  /\ forall required' : bool,
       let pre := run h retrieveAPIKey (world r1) in
       let r2 := run h (getUser required') (world r1) in
       result pre = Ok tt ->
       Request.user (w_req (world pre)) = Request.user (w_req (world r1)) ->
       Request.creds (w_req (world pre)) = Request.creds (w_req (world r1)) ->
       result r2 = Ok (Some u) /\ trace r2 = trace pre.
Proof.
  cbv zeta. intros Hres.
  assert (Hslots :
    Request.user (w_req (world (run h (getUser required) w))) = Some u
    /\ Request.creds (w_req (world (run h (getUser required) w))) <> None).
  { rewrite run_getUser in Hres |- *.
    destruct (result (run h retrieveAPIKey w)) as [[] | e]; [|discriminate].
    cbv zeta in Hres |- *.
    destruct (Request.user _) as [u0|] eqn:Eu;
      destruct (Request.creds _) as [c|] eqn:Ec; slots in Hres |- *.
    - injection Hres as <-. rewrite Ec. split; [assumption | discriminate].
    - injection Hres as <-. split; [assumption | discriminate].
    - destruct required; discriminate.
    - destruct (negb (truthy _)); slots in Hres |- *;
        [destruct required; discriminate|].
      destruct (h _ _) as [[[|user users] | e] s2]; slots in Hres |- *.
      + destruct required; discriminate.
      + injection Hres as <-. split; [reflexivity | discriminate].
      + discriminate. }
  destruct Hslots as [Hu Hc]. split; [exact Hu|]. split; [exact Hc|].
  intros required' Hpre Hu2 Hc2.
  rewrite run_getUser, Hpre. cbv zeta. rewrite Hu2, Hc2, Hu.
  destruct (Request.creds _) as [c|]; [|congruence].
  simpl. rewrite app_nil_r. split; reflexivity.
Qed.

Lemma getUser_resolved_is_cached_witness :
  let h := RefStore.handler Sample.env in
  let attached :=
    Request.mk (Some Sample.alice_user) None None false None in
  let r1 := run h (getUser true) (Sample.world_of attached []) in
  Request.creds (w_req (world r1)) <> None
  /\ result (run h (getUser false) (world r1)) = Ok (Some Sample.alice_user).
Proof.
  intros h attached r1.
  destruct (getUser_resolved_is_cached Store.t h (Sample.world_of attached [])
              true Sample.alice_user eq_refl) as (_ & Hc & H2).
  split; [exact Hc|].
  apply (H2 false); reflexivity.
Defined.

(** X4. [getUser] looks a user up in the store only for a bare API key:
    if a run issues the prepared user-by-key query, then after the
    pre-resolution step the request had neither a user nor credentials
    attached, it had an API key with a non-empty key string, the query
    was made for that string, and it is the only such query of the run. *)
Theorem getUser_lookup_only_for_bare_api_key S (h : Handler S) (w : World S)
    (required : bool) (st : Step) :
  let r := run h (getUser required) w in
  let req := w_req (world (run h retrieveAPIKey w)) in
  In st (trace r) -> is_user_lookup st = true ->
  Request.user req = None
  /\ Request.creds req = None
  /\ (exists k, Request.apiKey req = Some k
                /\ truthy (ApiKey.key k) = true
                /\ step_call st = GetUserQuery (ApiKey.key k))
  /\ length (filter is_user_lookup (trace r)) = 1%nat.
Proof.
  cbv zeta. intros Hin Hst.
  assert (Hpre : forall t, trace (run h retrieveAPIKey w) = t ->
                           filter is_user_lookup t = []).
  { intros t <-. pose proof (retrieveAPIKey_no_lookup S h w) as H.
    induction (trace (run h retrieveAPIKey w)) as [|a l IH]; [reflexivity|].
    simpl in H |- *. apply orb_false_iff in H. destruct H as [-> H]. auto. }
  assert (Hnot : ~ In st (trace (run h retrieveAPIKey w))).
  { intros H. apply in_user_lookup in H; [|exact Hst].
    rewrite retrieveAPIKey_no_lookup in H. discriminate H. }
  rewrite run_getUser in Hin |- *.
  destruct (result (run h retrieveAPIKey w)) as [[] | e]; [|contradiction].
  cbv zeta in Hin |- *.
  destruct (Request.user _) as [u0|]; destruct (Request.creds _) as [c|];
    slots in Hin |- *; rewrite ?app_nil_r in Hin; try contradiction.
  destruct (Request.apiKey _) as [k|]; slots in Hin |- *;
    [|rewrite ?app_nil_r in Hin; contradiction].
  destruct (truthy (ApiKey.key k)) eqn:Ek; slots in Hin |- *;
    [|rewrite ?app_nil_r in Hin; contradiction].
  repeat (split; [reflexivity|]).
  destruct (h _ _) as [[[|user users] | e] s2]; slots in Hin |- *;
    apply in_app_or in Hin; destruct Hin as [Hin | [<- | []]];
    try contradiction;
    (split; [exists k; repeat split; assumption|]);
    rewrite filter_app, (Hpre _ eq_refl); reflexivity.
Qed.

Lemma getUser_lookup_only_for_bare_api_key_witness :
  let h := RefStore.handler Sample.env in
  let keyed := Sample.request (Some (ApiKey.mk "alicekey" None)) in
  let r := run h (getUser true) (Sample.world_of keyed []) in
  length (filter is_user_lookup (trace r)) = 1%nat.
Proof.
  intros h keyed r.
  apply (getUser_lookup_only_for_bare_api_key Store.t h
           (Sample.world_of keyed []) true
           (answered (GetUserQuery "alicekey") [Sample.alice])).
  - vm_compute. right. left. reflexivity.
  - reflexivity.
Defined.

(** * Further properties of the pre-resolution step *)

Lemma split_no_separator (sep : ascii) (s : string) :
  includes_char sep s = false -> split sep s = [s].
Proof.
  induction s as [|c s IH]; simpl; [reflexivity|].
  intros H. apply orb_false_iff in H. destruct H as [Hc Hs].
  rewrite Hc, (IH Hs). reflexivity.
Qed.

Lemma split_at_separator (sep : ascii) (a b : string) :
  includes_char sep a = false ->
  split sep (a ++ String sep b)%string = a :: split sep b.
Proof.
  induction a as [|c a IH]; simpl.
  - intros _. rewrite Ascii.eqb_refl. reflexivity.
  - intros H. apply orb_false_iff in H. destruct H as [Hc Ha].
    rewrite Hc, (IH Ha). reflexivity.
Qed.

(** X5. The token [retrieveAPIKey] reads off the Authorization header is
    its second space-separated field: a header made of a scheme, a
    space and a token (neither containing a space), optionally followed
    by a space and more, yields that token; a header without a space,
    or no header, yields none. *)
Theorem bearer_token_is_second_field (req : Request.t) :
  (forall scheme token,
     includes_char " " scheme = false -> includes_char " " token = false ->
     (Request.authorization req = Some (scheme ++ String " " token)%string
      -> bearer_token req = Some token)
     /\ (forall more,
           Request.authorization req
           = Some (scheme ++ String " " (token ++ String " " more))%string
           -> bearer_token req = Some token))
  /\ (forall header,
        Request.authorization req = Some header ->
        includes_char " " header = false -> bearer_token req = None)
  /\ (Request.authorization req = None -> bearer_token req = None).
Proof.
  unfold bearer_token. split; [|split].
  - intros scheme token Hs Ht.
    assert (Htruthy : forall rest, truthy (scheme ++ String " " rest)%string = true).
    { intros rest. destruct scheme; reflexivity. }
    split.
    + intros ->. rewrite Htruthy, (split_at_separator _ _ _ Hs).
      rewrite (split_no_separator _ _ Ht). reflexivity.
    + intros more ->. rewrite Htruthy, (split_at_separator _ _ _ Hs).
      rewrite (split_at_separator _ _ _ Ht). reflexivity.
  - intros header -> Hh.
    destruct (truthy header); [|reflexivity].
    rewrite (split_no_separator _ _ Hh). reflexivity.
  - intros ->. reflexivity.
Qed.

Lemma bearer_token_is_second_field_witness :
  bearer_token (Request.mk None None None true (Some "Bearer k3y")) = Some "k3y"
  /\ bearer_token (Request.mk None None None true (Some "Bearer a.b.c extra"))
     = Some "a.b.c"
  /\ bearer_token (Request.mk None None None true (Some "k3y")) = None.
Proof.
  split; [|split].
  - apply (proj1 (bearer_token_is_second_field
                    (Request.mk None None None true (Some "Bearer k3y")))
             "Bearer" "k3y"); reflexivity.
  - apply (proj2 (proj1 (bearer_token_is_second_field
                           (Request.mk None None None true
                                       (Some "Bearer a.b.c extra")))
                    "Bearer" "a.b.c" eq_refl eq_refl) "extra"). reflexivity.
  - apply (proj1 (proj2 (bearer_token_is_second_field
                           (Request.mk None None None true (Some "k3y"))))
             "k3y"); reflexivity.
Defined.

(** X6. [retrieveAPIKey] always starts with the API-key middleware, on
    the request as handed in, and issues at most three calls.  It hands
    the request to the authorization middleware only when the request,
    as the first middleware left it, can read headers, its header has a
    non-empty token and the JWT test on that token answered false; the
    request of a successful run is as the last middleware answered it. *)
Theorem retrieveAPIKey_order S (h : Handler S) (w : World S) :
  let r := run h retrieveAPIKey w in
  (exists st rest,
     trace r = st :: rest /\ step_call st = ApiKeyMiddleware (w_req w))
  /\ (length (trace r) <= 3)%nat
  /\ (forall st req,
        In st (trace r) -> step_call st = AuthorizationMiddleware req ->
        In (answered (ApiKeyMiddleware (w_req w)) req) (trace r)
        /\ isRequest req = true
        /\ (exists token,
              bearer_token req = Some token /\ truthy token = true
              /\ In (answered (IsJWT token) false) (trace r))
        /\ forall req', st = answered (AuthorizationMiddleware req) req' ->
                        w_req (world r) = req')
  /\ (forall req,
        result r = Ok tt ->
        In (answered (ApiKeyMiddleware (w_req w)) req) (trace r) ->
        existsb (fun st => match step_call st with
                           | AuthorizationMiddleware _ => true
                           | _ => false
                           end) (trace r) = false ->
        w_req (world r) = req).
Proof.
  cbv zeta. unfold retrieveAPIKey. simpl.
  destruct (h (ApiKeyMiddleware (w_req w)) (w_ext w)) as [[req1 | er] s1];
    simpl.
  2:{ split; [eauto|]. split; [lia|]. split.
      - intros st req [<- | []] H. discriminate H.
      - intros req H. discriminate H. }
  assert (Hfirst : forall req,
             answered (ApiKeyMiddleware (w_req w)) req1
             = answered (ApiKeyMiddleware (w_req w)) req -> req1 = req).
  { intros req H.
    apply (f_equal (fun st => match st with
                              | mkStep (ApiKeyMiddleware _) (Ok x) => Some x
                              | _ => None
                              end)) in H.
    now injection H. }
  destruct (isRequest req1) eqn:Hreq; simpl.
  2:{ split; [eauto|]. split; [lia|]. split.
      - intros st req [<- | []] H. discriminate H.
      - intros req _ [H | []] _. now apply Hfirst. }
  destruct (bearer_token req1) as [token|] eqn:Htok; simpl.
  2:{ split; [eauto|]. split; [lia|]. split.
      - intros st req [<- | []] H. discriminate H.
      - intros req _ [H | []] _. now apply Hfirst. }
  destruct (truthy token) eqn:Htruthy; simpl.
  2:{ split; [eauto|]. split; [lia|]. split.
      - intros st req [<- | []] H. discriminate H.
      - intros req _ [H | []] _. now apply Hfirst. }
  destruct (h (IsJWT token) s1) as [[jwt | er] s2]; simpl.
  2:{ split; [eauto|]. split; [lia|]. split.
      - intros st req [<- | [<- | []]] H; discriminate H.
      - intros req H. discriminate H. }
  destruct jwt; simpl.
  { split; [eauto|]. split; [lia|]. split.
    - intros st req [<- | [<- | []]] H; discriminate H.
    - intros req _ [H | [H | []]] _; [now apply Hfirst|].
      apply (f_equal step_call) in H. discriminate H. }
  destruct (h (AuthorizationMiddleware req1) s2) as [[req2 | er] s3]; simpl.
  - split; [eauto|]. split; [lia|]. split.
    + intros st req [<- | [<- | [<- | []]]] H; try discriminate H.
      injection H as <-.
      split; [left; reflexivity|]. split; [exact Hreq|].
      split; [exists token; repeat split; auto|].
      intros req' H.
      apply (f_equal (fun st => match st with
                                | mkStep (AuthorizationMiddleware _) (Ok x) =>
                                    Some x
                                | _ => None
                                end)) in H.
      now injection H.
    + intros req _ _ H. discriminate H.
  - split; [eauto|]. split; [lia|]. split.
    + intros st req [<- | [<- | [<- | []]]] H; try discriminate H.
      injection H as <-.
      split; [left; reflexivity|]. split; [exact Hreq|].
      split; [exists token; repeat split; auto|].
      intros req' H. apply (f_equal rejected) in H. discriminate H.
    + intros req H. discriminate H.
Qed.

Lemma retrieveAPIKey_order_witness :
  let h := RefStore.handler Sample.env in
  let with_header := Request.mk None None None true (Some "Bearer k3y") in
  let r := run h retrieveAPIKey (Sample.world_of with_header []) in
  In (answered (IsJWT "k3y") false) (trace r)
  /\ w_req (world (run h retrieveAPIKey (Sample.world []))) = Sample.request None.
Proof.
  intros h with_header r.
  split.
  - destruct (retrieveAPIKey_order Store.t h (Sample.world_of with_header []))
      as (_ & _ & H & _).
    destruct (H (answered (AuthorizationMiddleware with_header) with_header)
                with_header) as (_ & _ & (token & Htok & _ & Hjwt) & _).
    + vm_compute. right. right. left. reflexivity.
    + reflexivity.
    + injection Htok as <-. exact Hjwt.
  - destruct (retrieveAPIKey_order Store.t h (Sample.world [])) as (_ & _ & _ & H).
    apply H.
    + reflexivity.
    + left. reflexivity.
    + reflexivity.
Defined.

(** * Further properties of the permission evaluator *)

Lemma includes_In (l : list string) (x : string) :
  includes l x = true <-> In x l.
Proof.
  unfold includes. rewrite existsb_exists. split.
  - intros (y & Hin & Heq). apply String.eqb_eq in Heq. now subst.
  - intros Hin. exists x. split; [exact Hin | apply String.eqb_refl].
Qed.

(** X7. [reqHasPermission] holds exactly when the permission string is in
    the permission list of the identity it looks at: the API key when
    one is attached, the user otherwise.  An attached API key hides the
    user's permissions, and an identity without a list has none. *)
Theorem reqHasPermission_iff (req : Request.t) (permission : string) :
  reqHasPermission req permission = true <->
  (exists apiKey l,
     Request.apiKey req = Some apiKey
     /\ ApiKey.permissions apiKey = Some l /\ In permission l)
  \/ (Request.apiKey req = None
      /\ exists user l,
           Request.user req = Some user
           /\ User.permissions user = Some l /\ In permission l).
Proof.
  unfold reqHasPermission, userHasPermission.
  destruct (Request.apiKey req) as [k|]; simpl.
  - destruct (ApiKey.permissions k) as [l|] eqn:El.
    + rewrite includes_In. split.
      * intros H. left. exists k, l. auto.
      * intros [(k' & l' & Hk & Hl & Hin) | [H _]]; [|discriminate H].
        injection Hk as <-. congruence.
    + split; [discriminate|].
      intros [(k' & l' & Hk & Hl & Hin) | [H _]]; [|discriminate H].
      injection Hk as <-. congruence.
  - destruct (Request.user req) as [u|]; simpl.
    + destruct (User.permissions u) as [l|] eqn:El.
      * rewrite includes_In. split.
        -- intros H. right. split; [reflexivity|]. exists u, l. auto.
        -- intros [(k' & l' & Hk & _) | (_ & u' & l' & Hu & Hl & Hin)];
             [discriminate Hk|].
           injection Hu as <-. congruence.
      * split; [discriminate|].
        intros [(k' & l' & Hk & _) | (_ & u' & l' & Hu & Hl & Hin)];
          [discriminate Hk|].
        injection Hu as <-. congruence.
    + split; [discriminate|].
      intros [(k' & l' & Hk & _) | (_ & u' & l' & Hu & _)]; discriminate.
Qed.

(** * Further properties of the password operations *)

(** X8. [checkUserPassword] fails with a bad-request error "User not
    found." when the store has no such user, and "Current password
    incorrect." when the comparison answers false; it returns when the
    comparison answers true.  No run of it writes to the store, and the
    only strings it ever hands to the hash primitive as a password are
    the given one or, for a user without a stored hash, the empty string
    against the fixed dummy hash. *)
Theorem checkUserPassword_outcomes S (h : Handler S) (w : World S)
    (password : string) (userId : Z) :
  let r := run h (checkUserPassword password userId) w in
  let lookup := h (ResinGetUserById userId ["password"; "id"]) (w_ext w) in
  (fst lookup = Ok None -> result r = Err (BadRequestError "User not found."))
  /\ (forall user, fst lookup = Ok (Some user) ->
      let cmp := run h (comparePassword password (DbUser.password user))
                     (mkWorld (w_req w) (snd lookup)) in
      (result cmp = Ok true -> result r = Ok tt)
      /\ (result cmp = Ok false ->
          result r = Err (BadRequestError "Current password incorrect.")))
  /\ existsb is_user_write (trace r) = false
  /\ (forall st p hash,
        In st (trace r) -> step_call st = HashedCompare p hash ->
        p = password \/ (p = "" /\ hash = INVALID_HASH)).
Proof.
  cbv zeta. unfold checkUserPassword. simpl.
  destruct (h (ResinGetUserById userId ["password"; "id"]) (w_ext w))
    as [[[user|] | er] s1]; simpl.
  - split; [discriminate|]. split.
    + intros user' H. injection H as <-. rewrite run_bind.
      split; intros ->; reflexivity.
    + rewrite run_bind. cbn [trace].
      assert (Hcmp : forall st p hash,
                 In st (trace (run h (comparePassword password
                                        (DbUser.password user))
                                  (mkWorld (w_req w) s1))) ->
                 step_call st = HashedCompare p hash ->
                 p = password \/ (p = "" /\ hash = INVALID_HASH)).
      { intros st p hash. destruct (DbUser.password user) as [stored|]; simpl;
          destruct (h _ s1) as [[b | e] s2]; simpl;
          intros [<- | []] H; injection H as <- <-; auto. }
      destruct (result (run h (comparePassword password (DbUser.password user))
                            (mkWorld (w_req w) s1))) as [b | e]; simpl.
      * split.
        -- rewrite existsb_app, comparePassword_no_write.
           destruct b; reflexivity.
        -- intros st p hash [H | H] Hc; [subst st; discriminate Hc|].
           apply in_app_or in H. destruct H as [H | H]; [eauto|].
           destruct b; destruct H.
      * split; [apply comparePassword_no_write|].
        intros st p hash [H | H] Hc; [subst st; discriminate Hc | eauto].
  - split; [reflexivity|]. split; [discriminate|]. split; [reflexivity|].
    intros st p hash [<- | []] H. discriminate H.
  - split; [discriminate|]. split; [discriminate|]. split; [reflexivity|].
    intros st p hash [<- | []] H. discriminate H.
Qed.

Lemma checkUserPassword_outcomes_witness :
  let h := RefStore.handler Sample.env in
  result (run h (checkUserPassword "password1" 1) (Sample.world [])) = Ok tt
  /\ result (run h (checkUserPassword "password2" 1) (Sample.world []))
     = Err (BadRequestError "Current password incorrect.")
  /\ result (run h (checkUserPassword "password1" 9) (Sample.world []))
     = Err (BadRequestError "User not found.").
Proof.
  intros h.
  pose proof (checkUserPassword_outcomes Store.t h (Sample.world [])) as T.
  cbv zeta in T.
  split; [|split].
  - apply (proj1 (proj1 (proj2 (T "password1" 1%Z)) Sample.alice eq_refl)).
    reflexivity.
  - apply (proj2 (proj1 (proj2 (T "password2" 1%Z)) Sample.alice eq_refl)).
    reflexivity.
  - apply (proj1 (T "password1" 9%Z)). reflexivity.
Defined.

(** * Further properties of the API key issuer *)

(** Every run of [createApiKey] either fails before [$createApiKey]
    starts, or is a run of [$createApiKey] between wrapper steps. *)
Lemma createApiKey_trace S (h : Handler S) (w : World S)
    (actorType roleName : string) (req : Caller) (actorTypeID : Z)
    (options : ApiKeyOptions.t) :
  let r := run h (createApiKey actorType roleName req actorTypeID options) w in
  (is_ok (result r) = false /\ forallb is_wrapper_step (trace r) = true)
  \/ exists w0 apiKey tx pre post,
       let body :=
         run h (dollar_createApiKey actorType roleName req actorTypeID
                  (InternalApiKeyOptions.mk apiKey tx
                     (ApiKeyOptions.name options)
                     (ApiKeyOptions.description options))) w0 in
       trace r = pre ++ trace body ++ post
       /\ forallb is_wrapper_step pre = true
       /\ forallb is_wrapper_step post = true
       /\ (forall k, ApiKeyOptions.apiKey options = Some k -> apiKey = k)
       /\ (ApiKeyOptions.apiKey options = None ->
           In (answered RandomstringGenerate apiKey) pre)
       /\ (forall tx', ApiKeyOptions.tx options = Some tx' ->
           tx' = tx /\ result r = result body)
       /\ (ApiKeyOptions.tx options = None ->
           In (answered DbBegin tx) pre
           /\ (is_ok (result r) = true -> In (answered (DbEnd tx) tt) post))
       /\ (is_ok (result r) = true -> result r = result body)
       /\ (is_ok (result body) = false -> is_ok (result r) = false)
       /\ (is_ok (result body) = false ->
           existsb rejected_rollback post = false -> result r = result body).
Proof.
  cbv zeta. unfold createApiKey. rewrite run_bind.
  assert (Hinner : forall (w0 : World S) (apiKey : string)
                          (t0 : list Step),
    forallb is_wrapper_step t0 = true ->
    (forall k, ApiKeyOptions.apiKey options = Some k -> apiKey = k) ->
    (ApiKeyOptions.apiKey options = None ->
     In (answered RandomstringGenerate apiKey) t0) ->
    let r := run h
      match ApiKeyOptions.tx options with
      | Some tx =>
          dollar_createApiKey actorType roleName req actorTypeID
            (InternalApiKeyOptions.mk apiKey tx (ApiKeyOptions.name options)
               (ApiKeyOptions.description options))
      | None =>
          db_transaction
            (fun tx =>
               dollar_createApiKey actorType roleName req actorTypeID
                 (InternalApiKeyOptions.mk apiKey tx (ApiKeyOptions.name options)
                    (ApiKeyOptions.description options)))
      end w0 in
    (is_ok (result r) = false /\ forallb is_wrapper_step (t0 ++ trace r) = true)
    \/ exists w1 apiKey' tx pre post,
         let body :=
           run h (dollar_createApiKey actorType roleName req actorTypeID
                    (InternalApiKeyOptions.mk apiKey' tx
                       (ApiKeyOptions.name options)
                       (ApiKeyOptions.description options))) w1 in
         t0 ++ trace r = pre ++ trace body ++ post
         /\ forallb is_wrapper_step pre = true
         /\ forallb is_wrapper_step post = true
         /\ (forall k, ApiKeyOptions.apiKey options = Some k -> apiKey' = k)
         /\ (ApiKeyOptions.apiKey options = None ->
             In (answered RandomstringGenerate apiKey') pre)
         /\ (forall tx', ApiKeyOptions.tx options = Some tx' ->
             tx' = tx /\ result r = result body)
         /\ (ApiKeyOptions.tx options = None ->
             In (answered DbBegin tx) pre
             /\ (is_ok (result r) = true -> In (answered (DbEnd tx) tt) post))
         /\ (is_ok (result r) = true -> result r = result body)
         /\ (is_ok (result body) = false -> is_ok (result r) = false)
         /\ (is_ok (result body) = false ->
             existsb rejected_rollback post = false ->
             result r = result body)).
  { intros w0 apiKey t0 Ht0 Hk Hgen. cbv zeta.
    destruct (ApiKeyOptions.tx options) as [tx|].
    - right. exists w0, apiKey, tx, t0, []. cbv zeta.
      rewrite app_nil_r.
      repeat split; auto; try discriminate; congruence.
    - rewrite run_db_transaction.
      destruct (h DbBegin (w_ext w0)) as [[tx | e] s0]; cbv zeta.
      2:{ left. split; [reflexivity|].
          cbn [trace]. rewrite forallb_app, Ht0. reflexivity. }
      set (body := run h (dollar_createApiKey actorType roleName req
                            actorTypeID
                            (InternalApiKeyOptions.mk apiKey tx
                               (ApiKeyOptions.name options)
                               (ApiKeyOptions.description options)))
                       (mkWorld (w_req w0) s0)).
      right. exists (mkWorld (w_req w0) s0), apiKey, tx.
      exists (t0 ++ [answered DbBegin tx]).
      fold body.
      assert (Hpre : forallb is_wrapper_step (t0 ++ [answered DbBegin tx]) = true)
        by (rewrite forallb_app, Ht0; reflexivity).
      assert (Hbegin : In (answered DbBegin tx) (t0 ++ [answered DbBegin tx]))
        by (apply in_or_app; right; left; reflexivity).
      assert (Hgen' : ApiKeyOptions.apiKey options = None ->
                      In (answered RandomstringGenerate apiKey)
                         (t0 ++ [answered DbBegin tx]))
        by (intros H; apply in_or_app; left; auto).
      destruct (result body) as [key | e] eqn:Eres.
      + destruct (h (DbEnd tx) (w_ext (world body))) as [[[] | e] s1].
        * exists [answered (DbEnd tx) tt]. cbn [result world trace].
          rewrite <- !app_assoc. simpl.
          repeat split; auto; try discriminate.
        * destruct (h (DbRollback tx) s1) as [[u | e'] s2];
            eexists; cbn [result world trace];
            rewrite <- !app_assoc; simpl;
            repeat split; auto; try discriminate; reflexivity.
      + destruct (h (DbRollback tx) (w_ext (world body))) as [[u | e'] s2];
          eexists; cbn [result world trace];
          rewrite <- !app_assoc; simpl;
          repeat split; auto; try discriminate; reflexivity. }
  destruct (ApiKeyOptions.apiKey options) as [apiKey|].
  - cbn [run result world trace].
    apply (Hinner w apiKey []); [reflexivity| |discriminate].
    intros k H. now injection H.
  - unfold call. cbn [run].
    destruct (h RandomstringGenerate (w_ext w)) as [[apiKey | e] s0];
      cbn [result world trace].
    + match goal with
      | |- context [run h ?p ?w0] =>
          destruct (Hinner w0 apiKey [answered RandomstringGenerate apiKey]
                      eq_refl) as [H | H]
      end; try discriminate.
      * intros _. left. reflexivity.
      * left. exact H.
      * right. exact H.
    + left. split; reflexivity.
Qed.

(** The five steps of a successful [$createApiKey]. *)
Lemma dollar_createApiKey_success_trace S (h : Handler S) (w : World S)
    (actorType roleName : string) (req : Caller) (actorTypeID : Z)
    (options : InternalApiKeyOptions.t) (key : string) :
  let tx := InternalApiKeyOptions.tx options in
  let r := run h (dollar_createApiKey actorType roleName req actorTypeID
                                      options) w in
  result r = Ok key ->
  key = InternalApiKeyOptions.apiKey options
  /\ exists actorID res keyId roleId roles bindingId,
       first_id res = Some actorTypeID
       /\ trace r =
          [answered (ResinGetActor actorType actorTypeID tx)
                    (Some (Actorable.mk (Some actorID)));
           answered (ResinCanAccess actorType actorTypeID
                                    (String.append "create-" roleName) tx) res;
           answered (AuthPostApiKey actorID key
                                    (InternalApiKeyOptions.name options)
                                    (InternalApiKeyOptions.description options)
                                    tx) keyId;
           answered (AuthGetRole roleName tx) (roleId :: roles);
           answered (AuthPostApiKeyHasRole keyId roleId tx) bindingId].
Proof.
  cbv zeta. unfold dollar_createApiKey. simpl.
  destruct (h (ResinGetActor _ _ _) _) as [[[[[actorID|]]|] | er] s1];
    simpl; try discriminate.
  destruct (h (ResinCanAccess _ _ _ _) _) as [[res | er] s2];
    simpl; try discriminate.
  destruct (first_id res) as [resId|] eqn:F; simpl; try discriminate.
  destruct (Z.eqb_spec resId actorTypeID) as [-> | Hne]; simpl;
    try discriminate.
  destruct (h (AuthPostApiKey _ _ _ _ _) _) as [[keyId | er] s3]; simpl;
    destruct (h (AuthGetRole _ _) _) as [[[|roleId roles] | er'] s4];
    simpl; try discriminate.
  destruct (h (AuthPostApiKeyHasRole _ _ _) _) as [[bindingId | er] s5];
    simpl; try discriminate.
  intros H. injection H as <-. split; [reflexivity|].
  exists actorID, res, keyId, roleId, roles, bindingId. split; [exact F|].
  reflexivity.
Qed.

(** X9. When [createApiKey] returns a key string, the run is exactly
    this sequence of answered calls, in this order, and nothing else:
    the key generation (unless a key string was supplied), the begin of
    the transaction (unless one was supplied), the lookup of the
    entity, which answered an actor, the access check, which answered
    the entity's own id, the insert of the key row for that actor with
    the returned key string, the role lookup, the insert of the binding
    that joins the id the key insert answered with the first id the
    role lookup answered, and the end of the transaction (when it is
    its own).  Every store call is made in the one transaction. *)
Theorem createApiKey_success_flow S (h : Handler S) (w : World S)
    (actorType roleName : string) (req : Caller) (actorTypeID : Z)
    (options : ApiKeyOptions.t) (key : string) :
  let r := run h (createApiKey actorType roleName req actorTypeID options) w in
  result r = Ok key ->
  exists tx actorID res keyId roleId roles bindingId,
    (forall tx', ApiKeyOptions.tx options = Some tx' -> tx' = tx)
    /\ (forall k, ApiKeyOptions.apiKey options = Some k -> key = k)
    /\ first_id res = Some actorTypeID
    /\ trace r =
       match ApiKeyOptions.apiKey options with
       | Some _ => []
       | None => [answered RandomstringGenerate key]
       end
       ++ match ApiKeyOptions.tx options with
          | Some _ => []
          | None => [answered DbBegin tx]
          end
       ++ [answered (ResinGetActor actorType actorTypeID tx)
                    (Some (Actorable.mk (Some actorID)));
           answered (ResinCanAccess actorType actorTypeID
                                    (String.append "create-" roleName) tx) res;
           answered (AuthPostApiKey actorID key (ApiKeyOptions.name options)
                                    (ApiKeyOptions.description options) tx)
                    keyId;
           answered (AuthGetRole roleName tx) (roleId :: roles);
           answered (AuthPostApiKeyHasRole keyId roleId tx) bindingId]
       ++ match ApiKeyOptions.tx options with
          | Some _ => []
          | None => [answered (DbEnd tx) tt]
          end
    /\ existsb rejected (trace r) = false.
Proof.
  cbv zeta. intros Hres.
  pose proof (propagates_createApiKey actorType roleName req actorTypeID
                options S h w) as Hclean.
  rewrite Hres in Hclean. specialize (Hclean eq_refl).
  revert Hres Hclean. generalize (existsb rejected) as clean.
  intros clean. unfold createApiKey. rewrite run_bind.
  assert (Hinner : forall (w0 : World S) (apiKey : string),
    let p :=
      match ApiKeyOptions.tx options with
      | Some tx =>
          dollar_createApiKey actorType roleName req actorTypeID
            (InternalApiKeyOptions.mk apiKey tx (ApiKeyOptions.name options)
               (ApiKeyOptions.description options))
      | None =>
          db_transaction
            (fun tx =>
               dollar_createApiKey actorType roleName req actorTypeID
                 (InternalApiKeyOptions.mk apiKey tx
                    (ApiKeyOptions.name options)
                    (ApiKeyOptions.description options)))
      end in
    result (run h p w0) = Ok key ->
    apiKey = key
    /\ exists tx actorID res keyId roleId roles bindingId,
         (forall tx', ApiKeyOptions.tx options = Some tx' -> tx' = tx)
         /\ first_id res = Some actorTypeID
         /\ trace (run h p w0) =
            match ApiKeyOptions.tx options with
            | Some _ => []
            | None => [answered DbBegin tx]
            end
            ++ [answered (ResinGetActor actorType actorTypeID tx)
                         (Some (Actorable.mk (Some actorID)));
                answered (ResinCanAccess actorType actorTypeID
                                         (String.append "create-" roleName) tx)
                         res;
                answered (AuthPostApiKey actorID key
                                         (ApiKeyOptions.name options)
                                         (ApiKeyOptions.description options) tx)
                         keyId;
                answered (AuthGetRole roleName tx) (roleId :: roles);
                answered (AuthPostApiKeyHasRole keyId roleId tx) bindingId]
            ++ match ApiKeyOptions.tx options with
               | Some _ => []
               | None => [answered (DbEnd tx) tt]
               end).
  { intros w0 apiKey. cbv zeta.
    destruct (ApiKeyOptions.tx options) as [tx|].
    - intros Hb.
      destruct (dollar_createApiKey_success_trace S h w0 actorType roleName
                  req actorTypeID _ key Hb)
        as (Hkey & actorID & res & keyId & roleId & roles & bindingId & F & Hbt).
      cbn [InternalApiKeyOptions.tx InternalApiKeyOptions.apiKey
           InternalApiKeyOptions.name InternalApiKeyOptions.description]
        in Hkey, Hbt.
      subst apiKey. split; [reflexivity|].
      exists tx, actorID, res, keyId, roleId, roles, bindingId.
      split; [intros tx' H; injection H as <-; reflexivity|].
      split; [exact F|]. rewrite Hbt. reflexivity.
    - rewrite run_db_transaction.
      destruct (h DbBegin (w_ext w0)) as [[tx | e] s]; [|discriminate].
      cbv zeta.
      destruct (result (run h (dollar_createApiKey actorType roleName req
                                 actorTypeID _) (mkWorld (w_req w0) s)))
        as [key' | e] eqn:Hb.
      + destruct (dollar_createApiKey_success_trace S h _ actorType roleName
                    req actorTypeID _ key' Hb)
          as (Hkey & actorID & res & keyId & roleId & roles & bindingId
              & F & Hbt).
        cbn [InternalApiKeyOptions.tx InternalApiKeyOptions.apiKey
             InternalApiKeyOptions.name InternalApiKeyOptions.description]
          in Hkey, Hbt.
        destruct (h (DbEnd tx) _) as [[[] | e] s1].
        * cbn [result trace]. intros H. injection H as <-.
          subst apiKey. split; [reflexivity|].
          exists tx, actorID, res, keyId, roleId, roles, bindingId.
          split; [discriminate|]. split; [exact F|].
          rewrite Hbt. reflexivity.
        * destruct (h (DbRollback tx) s1) as [[u | e'] s2]; discriminate.
      + destruct (h (DbRollback tx) _) as [[u | e'] s2]; discriminate. }
  destruct (ApiKeyOptions.apiKey options) as [k|].
  - cbn [run result world trace app]. intros Hres Hclean.
    destruct (Hinner w k Hres)
      as (-> & tx & actorID & res & keyId & roleId & roles & bindingId
          & Htx & F & Ht).
    exists tx, actorID, res, keyId, roleId, roles, bindingId.
    split; [exact Htx|].
    split; [intros k' H; injection H as <-; reflexivity|].
    split; [exact F|]. split; [exact Ht | exact Hclean].
  - unfold call. cbn [run].
    destruct (h RandomstringGenerate (w_ext w)) as [[apiKey | e] s0];
      cbn [result world trace app]; [|discriminate].
    intros Hres Hclean.
    destruct (Hinner _ apiKey Hres)
      as (-> & tx & actorID & res & keyId & roleId & roles & bindingId
          & Htx & F & Ht).
    exists tx, actorID, res, keyId, roleId, roles, bindingId.
    split; [exact Htx|]. split; [discriminate|].
    split; [exact F|]. split; [rewrite Ht; reflexivity | exact Hclean].
Qed.

Lemma createApiKey_success_flow_witness :
  let h := RefStore.handler Sample.env in
  let options := ApiKeyOptions.mk None (Some "laptop") None None in
  let r := run h (createApiKey "application" "observer" AsRequest 42 options)
               (Sample.world []) in
  existsb rejected (trace r) = false /\ length (trace r) = 8%nat.
Proof.
  intros h options r.
  destruct (createApiKey_success_flow Store.t h (Sample.world []) "application"
              "observer" AsRequest 42 options "k3y" eq_refl)
    as (tx & actorID & res & keyId & roleId & roles & bindingId
        & _ & _ & _ & Htrace & Hclean).
  split; [exact Hclean|]. unfold r. rewrite Htrace. reflexivity.
Defined.

Lemma wrapper_steps_are_plain (l : list Step) :
  forallb is_wrapper_step l = true ->
  existsb is_access_check l = false
  /\ existsb is_api_key_insert l = false
  /\ existsb is_binding_insert l = false
  /\ (forall st, In st l -> actor_answer st = None /\ role_answer st = None).
Proof.
  induction l as [|st l IH]; simpl; [repeat split; contradiction|].
  intros H. apply andb_true_iff in H. destruct H as [Hst Hl].
  destruct (IH Hl) as (H1 & H2 & H3 & H4).
  assert (Hplain : is_access_check st = false /\ is_api_key_insert st = false
                   /\ is_binding_insert st = false
                   /\ actor_answer st = None /\ role_answer st = None).
  { destruct st as [[] ans]; try discriminate Hst; repeat split. }
  destruct Hplain as (-> & -> & -> & Ha & Hr). simpl.
  split; [exact H1|]. split; [exact H2|]. split; [exact H3|].
  intros st0 [<- | Hin]; [split; assumption | apply H4; exact Hin].
Qed.

Lemma dollar_createApiKey_no_actor S (h : Handler S) (w : World S)
    (actorType roleName : string) (req : Caller) (actorTypeID : Z)
    (options : InternalApiKeyOptions.t) (st : Step)
    (actorable : option Actorable.t) :
  let r := run h (dollar_createApiKey actorType roleName req actorTypeID
                                      options) w in
  In st (trace r) -> actor_answer st = Some actorable ->
  actor_of actorable = None ->
  result r = Err (PlainError (String.append "No "
                    (String.append actorType
                       " found to associate with the api key")))
  /\ trace r = [st].
Proof.
  cbv zeta. unfold dollar_createApiKey. simpl.
  destruct (h (ResinGetActor _ _ _) _) as [[actorable' | er] s1]; simpl;
    [|intros [<- | []] H; discriminate H].
  destruct (match actorable' with
            | Some a => Actorable.actor a
            | None => None
            end) as [actorID|] eqn:Ea; simpl.
  - intros Hin Hacc Hnone.
    assert (actorable = actorable'); [|subst; unfold actor_of in Hnone; congruence].
    destruct Hin as [<- | Hin]; [simpl in Hacc; congruence|].
    exfalso. revert Hin Hacc. clear.
    destruct (h (ResinCanAccess _ _ _ _) _) as [[res | er] s2]; simpl;
      [|intros [<- | []] H; discriminate H].
    destruct (match first_id res with
              | Some resId => negb (resId =? actorTypeID)%Z
              | None => true
              end); simpl;
      [intros [<- | []] H; discriminate H|].
    exec_calls h; try (destruct x0 as [|roleId roles]; exec_calls h);
      intros Hin Hacc; pick_step Hin Hacc.
  - intros [<- | []] _ _. split; reflexivity.
Qed.

(** X10. When the target entity is not found, or has no actor,
    [createApiKey] fails without asking the access-control layer and
    without inserting anything: the run issues no access check, no key
    insert and no binding insert after the entity lookup.  The error is
    the plain "No <actorType> found to associate with the api key"
    (under its own transaction unless the rollback itself is rejected). *)
Theorem createApiKey_entity_without_actor S (h : Handler S) (w : World S)
    (actorType roleName : string) (req : Caller) (actorTypeID : Z)
    (options : ApiKeyOptions.t) (tx : Tx) (actorable : option Actorable.t) :
  let r := run h (createApiKey actorType roleName req actorTypeID options) w in
  In (answered (ResinGetActor actorType actorTypeID tx) actorable) (trace r) ->
  actor_of actorable = None ->
  is_ok (result r) = false
  /\ existsb is_access_check (trace r) = false
  /\ existsb is_api_key_insert (trace r) = false
  /\ existsb is_binding_insert (trace r) = false
  /\ (ApiKeyOptions.tx options <> None
      \/ existsb rejected_rollback (trace r) = false ->
      result r = Err (PlainError (String.append "No "
                        (String.append actorType
                           " found to associate with the api key")))).
Proof.
  cbv zeta. intros Hin Hnone.
  destruct (createApiKey_trace S h w actorType roleName req actorTypeID options)
    as [[_ Hwrap] | (w0 & apiKey & tx0 & pre & post & Htrace & Hpre & Hpost
                     & _ & _ & Htx & _ & _ & Hfail & Hsame)].
  { destruct (wrapper_steps_are_plain _ Hwrap) as (_ & _ & _ & H).
    destruct (H _ Hin) as [H' _]. discriminate H'. }
  cbv zeta in Htrace, Htx, Hfail, Hsame.
  destruct (wrapper_steps_are_plain _ Hpre) as (P1 & P2 & P3 & P4).
  destruct (wrapper_steps_are_plain _ Hpost) as (Q1 & Q2 & Q3 & Q4).
  rewrite Htrace in Hin |- *.
  apply in_app_or in Hin. destruct Hin as [Hin | Hin];
    [destruct (P4 _ Hin) as [H' _]; discriminate H'|].
  apply in_app_or in Hin. destruct Hin as [Hin | Hin];
    [|destruct (Q4 _ Hin) as [H' _]; discriminate H'].
  destruct (dollar_createApiKey_no_actor S h w0 actorType roleName req
              actorTypeID _ _ actorable Hin eq_refl Hnone) as [Hres Hbody].
  rewrite Hres in Hfail, Hsame. rewrite Hbody.
  rewrite !existsb_app, P1, P2, P3, Q1, Q2, Q3. simpl.
  split; [apply Hfail; reflexivity|]. repeat (split; [reflexivity|]).
  intros [Hcaller | Hroll].
  - destruct (ApiKeyOptions.tx options) as [tx'|]; [|congruence].
    destruct (Htx tx' eq_refl) as [_ ->]. exact Hres.
  - apply Hsame; [reflexivity|].
    apply orb_false_iff in Hroll. destruct Hroll as [_ Hroll].
    exact Hroll.
Qed.

Lemma createApiKey_entity_without_actor_witness :
  let h := RefStore.handler Sample.env in
  let options := ApiKeyOptions.mk None None None None in
  let r := run h (createApiKey "device" "observer" AsRequest 7 options)
               (Sample.world []) in
  result r = Err (PlainError "No device found to associate with the api key")
  /\ existsb is_access_check (trace r) = false.
Proof.
  intros h options r.
  destruct (createApiKey_entity_without_actor Store.t h (Sample.world [])
              "device" "observer" AsRequest 7 options 0%nat None)
    as (_ & Hcheck & _ & _ & Hres).
  - vm_compute. right. right. left. reflexivity.
  - reflexivity.
  - split; [apply Hres; right; reflexivity | exact Hcheck].
Defined.

Lemma dollar_createApiKey_no_role S (h : Handler S) (w : World S)
    (actorType roleName : string) (req : Caller) (actorTypeID : Z)
    (options : InternalApiKeyOptions.t) (st : Step) :
  let r := run h (dollar_createApiKey actorType roleName req actorTypeID
                                      options) w in
  In st (trace r) -> role_answer st = Some [] ->
  is_ok (result r) = false
  /\ existsb is_api_key_insert (trace r) = true
  /\ existsb is_binding_insert (trace r) = false
  /\ (existsb rejected (trace r) = false ->
      result r = Err (TypeError "Cannot read property 'id' of undefined")).
Proof.
  cbv zeta. unfold dollar_createApiKey. simpl.
  destruct (h (ResinGetActor _ _ _) _) as [[[[[actorID|]]|] | er] s1]; simpl;
    try (intros Hin Hacc; pick_step Hin Hacc; fail).
  destruct (h (ResinCanAccess _ _ _ _) _) as [[res | er] s2]; simpl;
    try (intros Hin Hacc; pick_step Hin Hacc; fail).
  destruct (match first_id res with
            | Some resId => negb (resId =? actorTypeID)%Z
            | None => true
            end); simpl;
    try (intros Hin Hacc; pick_step Hin Hacc; fail).
  exec_calls h; try (destruct x0 as [|roleId roles]; exec_calls h);
    intros Hin Hacc; pick_step Hin Hacc;
    repeat split; try reflexivity; discriminate.
Qed.

(** X11. When the role name resolves to no role, [createApiKey] fails
    after the key insert has been issued and before any binding insert:
    the run contains the key insert and no binding insert, and with no
    call rejected the error is the TypeError of reading the id of a
    missing first role.  (Under its own transaction the insert is then
    rolled back; under a caller's it stays in that transaction.) *)
Theorem createApiKey_role_not_found S (h : Handler S) (w : World S)
    (actorType roleName : string) (req : Caller) (actorTypeID : Z)
    (options : ApiKeyOptions.t) (tx : Tx) :
  let r := run h (createApiKey actorType roleName req actorTypeID options) w in
  In (answered (AuthGetRole roleName tx) []) (trace r) ->
  is_ok (result r) = false
  /\ existsb is_api_key_insert (trace r) = true
  /\ existsb is_binding_insert (trace r) = false
  /\ (existsb rejected (trace r) = false ->
      result r = Err (TypeError "Cannot read property 'id' of undefined")).
Proof.
  cbv zeta. intros Hin.
  destruct (createApiKey_trace S h w actorType roleName req actorTypeID options)
    as [[_ Hwrap] | (w0 & apiKey & tx0 & pre & post & Htrace & Hpre & Hpost
                     & _ & _ & _ & _ & _ & Hfail & Hsame)].
  { destruct (wrapper_steps_are_plain _ Hwrap) as (_ & _ & _ & H).
    destruct (H _ Hin) as [_ H']. discriminate H'. }
  cbv zeta in Htrace, Hfail, Hsame.
  destruct (wrapper_steps_are_plain _ Hpre) as (P1 & P2 & P3 & P4).
  destruct (wrapper_steps_are_plain _ Hpost) as (Q1 & Q2 & Q3 & Q4).
  rewrite Htrace in Hin |- *.
  apply in_app_or in Hin. destruct Hin as [Hin | Hin];
    [destruct (P4 _ Hin) as [_ H']; discriminate H'|].
  apply in_app_or in Hin. destruct Hin as [Hin | Hin];
    [|destruct (Q4 _ Hin) as [_ H']; discriminate H'].
  destruct (dollar_createApiKey_no_role S h w0 actorType roleName req
              actorTypeID _ _ Hin eq_refl) as (Hres & Hins & Hbind & Herr).
  rewrite !existsb_app, P2, P3, Q2, Q3, Hins, Hbind. simpl.
  split; [apply Hfail; exact Hres|]. repeat (split; [reflexivity|]).
  intros Hclean.
  apply orb_false_iff in Hclean. destruct Hclean as [_ Hclean].
  apply orb_false_iff in Hclean. destruct Hclean as [Hb Hp].
  rewrite Hsame; [apply Herr; exact Hb | exact Hres|].
  clear - Hp. induction post as [|a l IH]; [reflexivity|].
  simpl in Hp |- *. apply orb_false_iff in Hp. destruct Hp as [Ha Hl].
  unfold rejected_rollback. rewrite Ha, andb_false_r. simpl. apply IH, Hl.
Qed.

Lemma createApiKey_role_not_found_witness :
  let h := RefStore.handler Sample.env in
  let options := ApiKeyOptions.mk (Some "k3y") None None None in
  let r := run h (createApiKey "application" "no-such-role" AsRequest 42 options)
               (Sample.world []) in
  result r = Err (TypeError "Cannot read property 'id' of undefined")
  /\ Store.committed (w_ext (world r)) = Sample.db.
Proof.
  intros h options r.
  destruct (createApiKey_role_not_found Store.t h (Sample.world [])
              "application" "no-such-role" AsRequest 42 options 0%nat)
    as (_ & _ & _ & Hres).
  - vm_compute. do 4 right. left. reflexivity.
  - split; [apply Hres; reflexivity | reflexivity].
Defined.

(** The steps of a run are calls of the program. *)
Lemma calls_satisfy_trace S (h : Handler S) (P : Event -> Prop) A (p : Prog A) :
  calls_satisfy P p ->
  forall w : World S, Forall (fun st => P (step_call st)) (trace (run h p w)).
Proof.
  induction p as [A a | A e | A e k IH | A k IH | A r k IH
                 | A C body IHb handler IHh k IH]; intros Hp w; simpl in *;
    auto.
  - destruct Hp as [He Hk].
    destruct (h e (w_ext w)) as [[x | er] s]; simpl; repeat constructor; auto.
  - destruct Hp as (Hb & Hh & Hk).
    destruct (result (run h body w)) as [x | er]; simpl.
    + apply Forall_app. auto.
    + destruct (result (run h (handler er) (world (run h body w))))
        as [x | er']; simpl; repeat (apply Forall_app; split); auto.
Qed.

Lemma calls_satisfy_impl (P Q : Event -> Prop) A (p : Prog A) :
  (forall e, P e -> Q e) -> calls_satisfy P p -> calls_satisfy Q p.
Proof.
  intros HPQ.
  induction p as [A a | A e | A e k IH | A k IH | A r k IH
                 | A C body IHb handler IHh k IH]; simpl; auto.
  - intros [He Hk]. split; auto.
  - intros (Hb & Hh & Hk). repeat split; auto.
Qed.

Lemma dollar_createApiKey_works_in actorType roleName req actorTypeID options :
  calls_satisfy (works_in (InternalApiKeyOptions.tx options))
    (dollar_createApiKey actorType roleName req actorTypeID options).
Proof.
  unfold dollar_createApiKey, works_in. simpl. split; [auto|].
  intros actorable.
  destruct (match actorable with
            | Some a => Actorable.actor a
            | None => None
            end) as [actorID|]; simpl; [|exact I].
  split; [auto|]. intros res.
  destruct (match first_id res with
            | Some resId => negb (resId =? actorTypeID)%Z
            | None => true
            end); simpl; [exact I|].
  split; [split; [auto | exact (fun _ => I)]|].
  split; [exact (fun _ => I)|]. intros rk.
  split; [split; [auto | exact (fun _ => I)]|].
  split; [exact (fun _ => I)|]. intros rr.
  destruct rk as [k | e]; [destruct rr as [[|roleId roles] | e]|]; simpl;
    auto.
Qed.

(** X12. [createApiKey] makes every store call inside one transaction.
    Under a caller's transaction every call of the run, apart from the
    key generation, is a store call in that transaction, and the run
    never begins, ends or rolls back a transaction.  Under its own
    transaction every call, apart from the key generation and the
    begin, is made in the transaction the begin answered. *)
Theorem createApiKey_stays_in_transaction S (h : Handler S) (w : World S)
    (actorType roleName : string) (req : Caller) (actorTypeID : Z)
    (options : ApiKeyOptions.t) :
  let r := run h (createApiKey actorType roleName req actorTypeID options) w in
  (forall tx, ApiKeyOptions.tx options = Some tx ->
     Forall (fun st => step_call st = RandomstringGenerate
                       \/ works_in tx (step_call st)) (trace r))
  /\ (ApiKeyOptions.tx options = None ->
      Forall (fun st => step_call st = RandomstringGenerate
                        \/ step_call st = DbBegin
                        \/ exists tx, In (answered DbBegin tx) (trace r)
                                      /\ event_tx (step_call st) = Some tx)
             (trace r)).
Proof.
  cbv zeta. split.
  - intros tx Htx.
    apply (calls_satisfy_trace S h
             (fun e => e = RandomstringGenerate \/ works_in tx e)).
    unfold createApiKey. rewrite Htx.
    apply calls_satisfy_bind.
    + destruct (ApiKeyOptions.apiKey options); simpl; auto.
    + intros apiKey.
      pose proof (dollar_createApiKey_works_in actorType roleName req
                    actorTypeID
                    (InternalApiKeyOptions.mk apiKey tx
                       (ApiKeyOptions.name options)
                       (ApiKeyOptions.description options))) as H.
      simpl InternalApiKeyOptions.tx in H.
      revert H. apply calls_satisfy_impl. auto.
  - intros Htx. unfold createApiKey. rewrite Htx, run_bind.
    assert (Hinner : forall (w0 : World S) (apiKey : string) (t0 : list Step),
      Forall (fun st => step_call st = RandomstringGenerate) t0 ->
      let r := run h (db_transaction
                 (fun tx => dollar_createApiKey actorType roleName req
                              actorTypeID
                              (InternalApiKeyOptions.mk apiKey tx
                                 (ApiKeyOptions.name options)
                                 (ApiKeyOptions.description options)))) w0 in
      Forall (fun st => step_call st = RandomstringGenerate
                        \/ step_call st = DbBegin
                        \/ exists tx, In (answered DbBegin tx) (t0 ++ trace r)
                                      /\ event_tx (step_call st) = Some tx)
             (t0 ++ trace r)).
    { intros w0 apiKey t0 Ht0. cbv zeta. rewrite run_db_transaction.
      apply Forall_app. split.
      { eapply Forall_impl; [|exact Ht0]. intros st H. left. exact H. }
      destruct (h DbBegin (w_ext w0)) as [[tx | e] s0]; cbv zeta;
        [|apply Forall_cons; [right; left; reflexivity | apply Forall_nil]].
      set (body := run h (dollar_createApiKey actorType roleName req
                            actorTypeID
                            (InternalApiKeyOptions.mk apiKey tx
                               (ApiKeyOptions.name options)
                               (ApiKeyOptions.description options)))
                       (mkWorld (w_req w0) s0)).
      assert (Hbody : forall rest,
        Forall (fun st => step_call st = RandomstringGenerate
                          \/ step_call st = DbBegin
                          \/ exists tx',
                               In (answered DbBegin tx')
                                  (t0 ++ answered DbBegin tx :: rest)
                               /\ event_tx (step_call st) = Some tx')
               (trace body)).
      { intros rest.
        pose proof (calls_satisfy_trace S h _ _ _
                      (dollar_createApiKey_works_in actorType roleName req
                         actorTypeID
                         (InternalApiKeyOptions.mk apiKey tx
                            (ApiKeyOptions.name options)
                            (ApiKeyOptions.description options)))
                      (mkWorld (w_req w0) s0)) as H.
        eapply Forall_impl; [|exact H].
        intros st [Hst _]. right. right. exists tx.
        split; [apply in_or_app; right; left; reflexivity | exact Hst]. }
      assert (Hhere : forall rest (st : Step),
        event_tx (step_call st) = Some tx ->
        step_call st = RandomstringGenerate
        \/ step_call st = DbBegin
        \/ exists tx',
             In (answered DbBegin tx') (t0 ++ answered DbBegin tx :: rest)
             /\ event_tx (step_call st) = Some tx').
      { intros rest st Hst. right. right. exists tx.
        split; [apply in_or_app; right; left; reflexivity | exact Hst]. }
      destruct (result body) as [key | e].
      + destruct (h (DbEnd tx) (w_ext (world body))) as [[u | e] s1];
          [|destruct (h (DbRollback tx) s1) as [[u | e'] s2]];
          cbn [trace]; (apply Forall_cons; [right; left; reflexivity|]);
          apply Forall_app; (split; [apply Hbody|]);
          repeat (apply Forall_cons; [apply Hhere; reflexivity|]);
          apply Forall_nil.
      + destruct (h (DbRollback tx) (w_ext (world body))) as [[u | e'] s2];
          cbn [trace]; (apply Forall_cons; [right; left; reflexivity|]);
          apply Forall_app; (split; [apply Hbody|]);
          repeat (apply Forall_cons; [apply Hhere; reflexivity|]);
          apply Forall_nil. }
    destruct (ApiKeyOptions.apiKey options) as [apiKey|].
    + cbn [run result world trace]. apply (Hinner w apiKey []). constructor.
    + unfold call. cbn [run].
      destruct (h RandomstringGenerate (w_ext w)) as [[apiKey | e] s0];
        cbn [result world trace].
      * apply (Hinner (mkWorld (w_req w) s0) apiKey
                 [answered RandomstringGenerate apiKey]).
        apply Forall_cons; [reflexivity | apply Forall_nil].
      * apply Forall_cons; [left; reflexivity | apply Forall_nil].
Qed.

Lemma createApiKey_stays_in_transaction_witness :
  let h := RefStore.handler Sample.env in
  let options := ApiKeyOptions.mk None None None (Some 0%nat) in
  let r := run h (createApiKey "application" "observer" AsRequest 42 options)
               Sample.world_in_tx in
  Forall (fun st => step_call st = RandomstringGenerate
                    \/ works_in 0%nat (step_call st)) (trace r)
  /\ length (trace r) = 6%nat.
Proof.
  intros h options r. split; [|reflexivity].
  apply (proj1 (createApiKey_stays_in_transaction Store.t h Sample.world_in_tx
                  "application" "observer" AsRequest 42 options)).
  reflexivity.
Defined.

(** * Further properties of registration *)

(** X13. The uniqueness checks of [registerUser], in order, for a
    username that is not blacklisted, with or without a request: a user
    found by the email lookup makes it fail with Conflict "This email is
    already taken", then a user found by the username lookup makes it
    fail with Conflict "This username is already taken", in both cases
    without a write and without asking for the client IP; otherwise the
    client IP is asked for when a request was supplied, the user is
    inserted with it, and the record the store answers is returned,
    unless it has no id, which is the error "Error creating user in the
    platform". *)
Theorem registerUser_check_order S (h : Handler S) (w : World S)
    (userData : UserData.t) (tx : Tx) (req : option Request.t) :
  includes USERNAME_BLACKLIST (UserData.username userData) = false ->
  let r := run h (registerUser userData tx req) w in
  let byEmail := run h (findUser (UserData.email userData) (Some tx) ["id"]) w in
  let byName := run h (findUser (UserData.username userData) (Some tx) ["id"])
                    (world byEmail) in
  let ip := run h match req with
                  | Some req => call (GetIP req)
                  | None => Ret None
                  end (world byName) in
  (forall u, result byEmail = Ok (Some u) ->
     result r = Err (ConflictError "This email is already taken")
     /\ trace r = trace byEmail)
  /\ (result byEmail = Ok None ->
      (forall u, result byName = Ok (Some u) ->
         result r = Err (ConflictError "This username is already taken")
         /\ trace r = trace byEmail ++ trace byName)
      /\ (result byName = Ok None ->
          (req = None -> result ip = Ok None /\ trace ip = [])
          /\ forall clientIP, result ip = Ok clientIP ->
             forall user,
               fst (h (ResinPostUser userData tx clientIP) (w_ext (world ip)))
               = Ok user ->
               result r = (if is_nullish (get_prop user "id")
                           then Err (PlainError
                                       "Error creating user in the platform")
                           else Ok user)
               /\ trace r = trace byEmail ++ trace byName ++ trace ip
                             ++ [answered (ResinPostUser userData tx clientIP)
                                          user]))
  /\ existsb is_user_write (trace byEmail ++ trace byName ++ trace ip) = false.
Proof.
  intros Hb. cbv zeta. unfold registerUser. rewrite Hb, run_bind.
  split; [|split].
  - intros u Hf. rewrite Hf. cbn [result world trace run].
    split; [reflexivity | apply app_nil_r].
  - intros Hf. rewrite Hf. cbn [result world trace]. rewrite run_bind.
    split.
    + intros u Hn. rewrite Hn. cbn [result world trace run].
      rewrite app_nil_r. split; reflexivity.
    + intros Hn. rewrite Hn. cbn [result world trace]. rewrite run_bind.
      split; [intros ->; split; reflexivity|].
      intros clientIP Hip user Hp. rewrite Hip. cbn [result world trace].
      change (call (ResinPostUser userData tx clientIP))
        with (Vis (ResinPostUser userData tx clientIP) (@Ret AnyObject)).
      cbn [run bind].
      destruct (h (ResinPostUser userData tx clientIP) _) as [[user' | e] s1];
        simpl in Hp; [|discriminate Hp].
      injection Hp as ->.
      destruct (is_nullish (get_prop user "id")); cbn [run result trace];
        split; reflexivity.
  - rewrite !existsb_app, !findUser_no_write.
    destruct req as [rq|]; [|reflexivity].
    unfold call. cbn [run].
    destruct (h (GetIP rq) _) as [[x | e] s1]; reflexivity.
Qed.

Lemma registerUser_check_order_witness :
  let h := RefStore.handler Sample.env in
  let again := UserData.mk "bob" "ALICE@example.com" None [] in
  let fresh := UserData.mk "bob" "bob@example.com" None [] in
  let browser := Sample.request None in
  result (run h (registerUser again 0%nat (Some browser)) Sample.world_in_tx)
  = Err (ConflictError "This email is already taken")
  /\ is_ok (result (run h (registerUser fresh 0%nat (Some browser))
                        Sample.world_in_tx)) = true
  /\ In (answered (ResinPostUser fresh 0%nat (Some "10.0.0.1"))
                  (RefStore.created_object fresh Sample.db))
        (trace (run h (registerUser fresh 0%nat (Some browser))
                    Sample.world_in_tx)).
Proof.
  intros h again fresh browser.
  pose proof (registerUser_check_order Store.t h Sample.world_in_tx fresh
                0%nat (Some browser) eq_refl) as T.
  cbv zeta in T. destruct T as (_ & T & _).
  destruct (T eq_refl) as (_ & T2).
  destruct (T2 eq_refl) as (_ & T3).
  destruct (T3 (Some "10.0.0.1") eq_refl
               (RefStore.created_object fresh Sample.db) eq_refl)
    as (Hres & Htrace).
  split; [|split].
  - apply (proj1 (registerUser_check_order Store.t h Sample.world_in_tx again
                    0%nat (Some browser) eq_refl) Sample.alice).
    reflexivity.
  - rewrite Hres. reflexivity.
  - rewrite Htrace. apply in_or_app. right. apply in_or_app. right.
    apply in_or_app. right. left. reflexivity.
Defined.

(** X14. [registerUser] writes at most once, and only as its last step:
    a run contains a user insert only if the username is not
    blacklisted and both uniqueness lookups have answered no user; the
    record inserted is the user data as handed in, with the client IP
    that [getIP] answered when a request was supplied and none
    otherwise.  A blacklisted username is refused with Conflict before
    any call, and a record returned always has an id. *)
Theorem registerUser_write_is_guarded S (h : Handler S) (w : World S)
    (userData : UserData.t) (tx : Tx) (req : option Request.t) :
  let r := run h (registerUser userData tx req) w in
  let byEmail := run h (findUser (UserData.email userData) (Some tx) ["id"]) w in
  let byName := run h (findUser (UserData.username userData) (Some tx) ["id"])
                    (world byEmail) in
  (includes USERNAME_BLACKLIST (UserData.username userData) = true ->
   result r = Err (ConflictError "This username is blacklisted")
   /\ trace r = [])
  /\ (length (filter is_user_write (trace r)) <= 1)%nat
  /\ (forall st, In st (trace r) -> is_user_write st = true ->
      includes USERNAME_BLACKLIST (UserData.username userData) = false
      /\ result byEmail = Ok None
      /\ result byName = Ok None
      /\ (exists clientIP,
            step_call st = ResinPostUser userData tx clientIP
            /\ match req with
               | Some req => In (answered (GetIP req) clientIP) (trace r)
               | None => clientIP = None
               end)
      /\ exists before, trace r = before ++ [st])
  /\ (forall user, result r = Ok user ->
      is_nullish (get_prop user "id") = false
      /\ exists clientIP,
           In (answered (ResinPostUser userData tx clientIP) user) (trace r)).
Proof.
  cbv zeta. unfold registerUser.
  destruct (includes USERNAME_BLACKLIST (UserData.username userData)) eqn:Hb.
  { simpl. split; [auto|]. split; [lia|]. split; [contradiction | discriminate]. }
  split; [discriminate|].
  rewrite run_bind.
  pose proof (findUser_no_write S h (UserData.email userData) (Some tx) ["id"] w)
    as He.
  set (byEmail := run h (findUser (UserData.email userData) (Some tx) ["id"]) w)
    in *.
  assert (Hfilter : forall l, existsb is_user_write l = false ->
                              filter is_user_write l = []).
  { induction l as [|a l IH]; simpl; [reflexivity|].
    intros H. apply orb_false_iff in H. destruct H as [-> H]. auto. }
  assert (Hnotin : forall l st, existsb is_user_write l = false ->
                                In st l -> is_user_write st = true -> False).
  { intros l st H Hin Hst.
    assert (existsb is_user_write l = true)
      by (apply existsb_exists; eauto). congruence. }
  destruct (result byEmail) as [[u|] | e]; cbn [result world trace run].
  - rewrite app_nil_r, (Hfilter _ He).
    split; [simpl; lia|]. split; [|discriminate].
    intros st Hin Hst. destruct (Hnotin _ _ He Hin Hst).
  - rewrite run_bind.
    pose proof (findUser_no_write S h (UserData.username userData) (Some tx)
                  ["id"] (world byEmail)) as Hn.
    set (byName := run h (findUser (UserData.username userData) (Some tx) ["id"])
                       (world byEmail)) in *.
    destruct (result byName) as [[u|] | e]; cbn [result world trace run].
    + rewrite app_nil_r, filter_app, (Hfilter _ He), (Hfilter _ Hn).
      split; [simpl; lia|]. split; [|discriminate].
      intros st Hin Hst. apply in_app_or in Hin.
      destruct Hin as [Hin | Hin]; [destruct (Hnotin _ _ He Hin Hst)
                                   | destruct (Hnotin _ _ Hn Hin Hst)].
    + rewrite !filter_app, (Hfilter _ He), (Hfilter _ Hn). simpl.
      assert (Hscrub : forall st rest,
                 In st (trace byEmail ++ trace byName ++ rest) ->
                 is_user_write st = true -> In st rest).
      { intros st rest Hin Hst.
        apply in_app_or in Hin. destruct Hin as [Hin | Hin];
          [destruct (Hnotin _ _ He Hin Hst)|].
        apply in_app_or in Hin. destruct Hin as [Hin | Hin];
          [destruct (Hnotin _ _ Hn Hin Hst) | exact Hin]. }
      destruct req as [rq|]; simpl.
      * destruct (h (GetIP rq) _) as [[ip | e] s1]; simpl.
        -- destruct (h (ResinPostUser userData tx ip) s1) as [[user | e] s2];
             simpl;
             [destruct (is_nullish (get_prop user "id")) eqn:Hid; simpl|];
             (split; [lia|]); (split; [|try discriminate]);
             try (intros st Hin Hst; apply Hscrub in Hin; [|exact Hst];
                  destruct Hin as [<- | [<- | []]]; [discriminate Hst|];
                  repeat split; auto;
                  [exists ip; split; [reflexivity|];
                   apply in_or_app; right; apply in_or_app; right;
                   left; reflexivity
                  |exists (trace byEmail ++ trace byName
                             ++ [answered (GetIP rq) ip]);
                   rewrite <- !app_assoc; reflexivity]).
           intros user' H. injection H as <-. split; [exact Hid|].
           exists ip. apply in_or_app. right. apply in_or_app. right.
           right. left. reflexivity.
        -- split; [lia|]. split; [|discriminate].
           intros st Hin Hst. apply Hscrub in Hin; [|exact Hst].
           destruct Hin as [<- | []]. discriminate Hst.
      * destruct (h (ResinPostUser userData tx None) _) as [[user | e] s2];
          simpl;
          [destruct (is_nullish (get_prop user "id")) eqn:Hid; simpl|];
          (split; [lia|]); (split; [|try discriminate]);
          try (intros st Hin Hst; apply Hscrub in Hin; [|exact Hst];
               destruct Hin as [<- | []];
               repeat split; auto;
               [exists None; split; reflexivity
               |exists (trace byEmail ++ trace byName);
                rewrite <- !app_assoc; reflexivity]).
        intros user' H. injection H as <-. split; [exact Hid|].
        exists None. apply in_or_app. right. apply in_or_app. right.
        left. reflexivity.
    + rewrite filter_app, (Hfilter _ He), (Hfilter _ Hn).
      split; [simpl; lia|]. split; [|discriminate].
      intros st Hin Hst. apply in_app_or in Hin.
      destruct Hin as [Hin | Hin]; [destruct (Hnotin _ _ He Hin Hst)
                                   | destruct (Hnotin _ _ Hn Hin Hst)].
  - rewrite (Hfilter _ He).
    split; [simpl; lia|]. split; [|discriminate].
    intros st Hin Hst. destruct (Hnotin _ _ He Hin Hst).
Qed.

Lemma registerUser_write_is_guarded_witness :
  let h := RefStore.handler Sample.env in
  let fresh := UserData.mk "bob" "bob@example.com" None [] in
  let r := run h (registerUser fresh 0%nat (Some (Sample.request None)))
               Sample.world_in_tx in
  exists before,
    trace r = before ++ [answered (ResinPostUser fresh 0%nat (Some "10.0.0.1"))
                                  (RefStore.created_object fresh Sample.db)].
Proof.
  intros h fresh r.
  destruct (registerUser_write_is_guarded Store.t h Sample.world_in_tx fresh
              0%nat (Some (Sample.request None))) as (_ & _ & H & _).
  apply (H (answered (ResinPostUser fresh 0%nat (Some "10.0.0.1"))
                     (RefStore.created_object fresh Sample.db))).
  - vm_compute. do 3 right. left. reflexivity.
  - reflexivity.
Defined.

(** X15. The user directory passes its transaction on: every store call
    of [registerUser] is made in the transaction it was handed, every
    store call of [updatePasswordIfNeeded] and of [findUser] is made
    with exactly the transaction argument given (none when none was
    given), and [checkUserPassword], which takes no transaction, reads
    outside any. *)
Theorem user_directory_passes_transaction S (h : Handler S) (w : World S) :
  (forall userData tx req,
     store_calls_use (Some tx) (trace (run h (registerUser userData tx req) w)))
  /\ (forall usernameOrEmail newPassword tx,
        store_calls_use tx
          (trace (run h (updatePasswordIfNeeded usernameOrEmail newPassword tx)
                      w)))
  /\ (forall loginInfo tx select,
        store_calls_use tx (trace (run h (findUser loginInfo tx select) w)))
  /\ (forall password userId,
        store_calls_use None (trace (run h (checkUserPassword password userId) w))).
Proof.
  assert (Hfind : forall loginInfo tx select,
    calls_satisfy (fun e => is_store_call e = true -> event_tx e = tx)
                  (findUser loginInfo tx select)).
  { intros. unfold findUser. destruct (negb (truthy loginInfo)); simpl; auto. }
  assert (Hcmp : forall password hash tx,
    calls_satisfy (fun e => is_store_call e = true -> event_tx e = tx)
                  (comparePassword password hash)).
  { intros password [hash|] tx; simpl; split; auto; discriminate. }
  unfold store_calls_use.
  split; [|split; [|split]]; intros;
    match goal with
    | |- Forall (fun st => _ -> _ = ?tx) _ =>
        apply (calls_satisfy_trace S h
                 (fun e => is_store_call e = true -> event_tx e = tx))
    end.
  - unfold registerUser.
    destruct (includes USERNAME_BLACKLIST (UserData.username userData));
      [exact I|].
    apply calls_satisfy_bind; [apply Hfind|]. intros [u|]; [exact I|].
    apply calls_satisfy_bind; [apply Hfind|]. intros [u|]; [exact I|].
    apply calls_satisfy_bind.
    + destruct req; simpl; auto. split; [discriminate | auto].
    + intros ip. simpl. split; [auto|]. intros user.
      destruct (is_nullish (get_prop user "id")); exact I.
  - unfold updatePasswordIfNeeded.
    apply calls_satisfy_bind; [apply Hfind|]. intros [u|]; [|exact I].
    apply calls_satisfy_bind; [apply Hcmp|]. intros [|]; [exact I|].
    simpl. repeat split; auto.
  - apply Hfind.
  - unfold checkUserPassword. simpl. split; [auto|]. intros [u|]; [|exact I].
    apply calls_satisfy_bind; [apply Hcmp|]. intros [|]; exact I.
Qed.

(** * Further properties on the reference store *)

Lemma on_db_view A (tx : option Tx) (s : Store.t)
                 (f : DB.t -> Result A * DB.t) (a : A) (s' : Store.t) :
  Store.on_db tx s f = (Ok a, s') ->
  exists db0, Store.visible tx s = Some db0
              /\ fst (f db0) = Ok a
              /\ Store.visible tx s' = Some (snd (f db0)).
Proof.
  unfold Store.on_db, Store.visible. destruct tx as [tx|].
  - destruct (Store.lookup_tx tx (Store.open_tx s)) as [db0|] eqn:L;
      [|discriminate].
    destruct (f db0) as [[a' | e] db] eqn:F; intros H; [|discriminate H].
    injection H as <- <-. exists db0. rewrite F. repeat split.
    simpl. apply lookup_update_tx. congruence.
  - destruct (f (Store.committed s)) as [[a' | e] db] eqn:F; intros H;
      [|discriminate H].
    injection H as <- <-. exists (Store.committed s). rewrite F. repeat split.
Qed.

Lemma handler_lookup (env : Env.t) (loginField loginInfo : string)
    (select : list string) (tx : option Tx) (s : Store.t)
    (users : list DbUser.t) (s' : Store.t) :
  RefStore.handler env (ResinGetUserWhereLower loginField loginInfo select tx) s
  = (Ok users, s') ->
  exists db, Store.visible tx s = Some db
             /\ users = RefStore.users_where_lower loginField loginInfo db
             /\ Store.visible tx s' = Some db.
Proof.
  intros H. apply handler_ok in H. destruct H as (s0 & H & Ho & Hc).
  simpl in H. apply on_db_view in H. destruct H as (db & V & F & V').
  simpl in F, V'. injection F as <-. exists db. repeat split; auto.
  unfold Store.visible in *. destruct tx; congruence.
Qed.

(** X16. On the reference store [findUser] matches ignoring case, on the
    column it picks: with a login string that contains an at sign it
    answers a user whose email equals it up to case, otherwise one whose
    username does; it answers none only when no user of the tables it
    sees matches. *)
Theorem findUser_matches_ignoring_case (env : Env.t) (w : World Store.t)
    (loginInfo : string) (tx : option Tx) (select : list string)
    (found : option DbUser.t) :
  truthy loginInfo = true ->
  result (run (RefStore.handler env) (findUser loginInfo tx select) w)
  = Ok found ->
  let column u := if includes_char "@" loginInfo
                  then DbUser.email u else DbUser.username u in
  exists db,
    Store.visible tx (w_ext w) = Some db
    /\ match found with
       | Some user =>
           In user (DB.user db) /\ tolower (column user) = tolower loginInfo
       | None =>
           forall user, In user (DB.user db) ->
                        tolower (column user) <> tolower loginInfo
       end.
Proof.
  intros Ht. unfold findUser. rewrite Ht. simpl.
  destruct (RefStore.handler env _ (w_ext w)) as [[users | e] s1] eqn:E;
    simpl; [|discriminate].
  intros H. injection H as <-.
  apply handler_lookup in E. destruct E as (db & V & -> & _).
  exists db. split; [exact V|].
  unfold RefStore.users_where_lower.
  assert (Hcol : forall u,
    RefStore.field_of (if includes_char "@" loginInfo then "email"
                       else "username") u
    = Some (if includes_char "@" loginInfo
            then DbUser.email u else DbUser.username u)).
  { intros u. destruct (includes_char "@" loginInfo); reflexivity. }
  destruct (filter _ (DB.user db)) as [|user rest] eqn:F; simpl.
  - intros user Hin Heq.
    assert (Hf : In user []); [|destruct Hf].
    rewrite <- F. apply filter_In. split; [exact Hin|].
    rewrite Hcol. apply String.eqb_eq. exact Heq.
  - assert (Hin : In user (user :: rest)) by (left; reflexivity).
    rewrite <- F in Hin. apply filter_In in Hin. destruct Hin as [Hin Hm].
    rewrite Hcol in Hm. apply String.eqb_eq in Hm. auto.
Qed.

Lemma findUser_matches_ignoring_case_witness :
  exists db,
    Store.visible None (w_ext (Sample.world [])) = Some db
    /\ In Sample.alice (DB.user db)
    /\ tolower (DbUser.email Sample.alice) = tolower "Alice@Example.COM".
Proof.
  apply (findUser_matches_ignoring_case Sample.env (Sample.world [])
           "Alice@Example.COM" None ["id"] (Some Sample.alice));
    reflexivity.
Defined.

Lemma lower_ascii_at_inv (c : ascii) :
  lower_ascii c = "@"%char -> c = "@"%char.
Proof.
  destruct c as [[] [] [] [] [] [] [] []]; vm_compute; intros H;
    first [reflexivity | discriminate H].
Qed.

Lemma includes_at_tolower_inv (s : string) :
  includes_char "@" (tolower s) = includes_char "@" s.
Proof.
  induction s as [|c s IH]; simpl; [reflexivity|]. rewrite IH. f_equal.
  destruct (Ascii.eqb_spec c "@") as [-> | Hne]; [reflexivity|].
  apply Ascii.eqb_neq. intros H. apply Hne. now apply lower_ascii_at_inv.
Qed.

Lemma handler_post_user (env : Env.t) (body : UserData.t) (tx : Tx)
    (clientIP : option string) (s : Store.t) (user : AnyObject)
    (s' : Store.t) :
  RefStore.handler env (ResinPostUser body tx clientIP) s = (Ok user, s') ->
  exists db0,
    Store.visible (Some tx) s' =
    Some (DB.add_user (RefStore.created_user env body db0) db0).
Proof.
  intros H. apply handler_ok in H. destruct H as (s0 & H & _ & _).
  simpl in H. apply on_db_view in H. destruct H as (db & _ & _ & V').
  exists db. exact V'.
Qed.

(** After a successful [registerUser] the transaction sees the new user. *)
Lemma registerUser_success_store (env : Env.t) (w : World Store.t)
    (userData : UserData.t) (tx : Tx) (req : option Request.t)
    (user : AnyObject) :
  let r := run (RefStore.handler env) (registerUser userData tx req) w in
  result r = Ok user ->
  exists db0,
    Store.visible (Some tx) (w_ext (world r)) =
    Some (DB.add_user (RefStore.created_user env userData db0) db0).
Proof.
  cbv zeta. set (h := RefStore.handler env). unfold registerUser.
  destruct (includes USERNAME_BLACKLIST (UserData.username userData));
    [discriminate|].
  rewrite run_bind.
  destruct (result (run h (findUser _ _ _) w)) as [[u|] | e];
    cbn [result world trace run]; try discriminate.
  rewrite run_bind.
  destruct (result (run h (findUser (UserData.username userData) _ _) _))
    as [[u|] | e]; cbn [result world trace run]; try discriminate.
  rewrite run_bind.
  match goal with
  | |- context [run h (match req with _ => _ end) ?w0] =>
      destruct (result (run h (match req with
                               | Some rq => call (GetIP rq)
                               | None => Ret None
                               end) w0)) as [ip | e];
        cbn [result world trace]; [|discriminate];
        generalize (world (run h (match req with
                                  | Some rq => call (GetIP rq)
                                  | None => Ret None
                                  end) w0))
  end.
  intros w1. simpl.
  destruct (h (ResinPostUser userData tx ip) (w_ext w1)) as [[obj | e] s2] eqn:E;
    simpl; [|discriminate].
  destruct (is_nullish (get_prop obj "id")); simpl; [discriminate|].
  intros _. apply handler_post_user in E. exact E.
Qed.

(** X17. On the reference store a registration is seen by the next one
    in the same transaction.  After [registerUser] has succeeded, a
    second [registerUser] (not blacklisted) whose email equals the first
    email up to case, the first email containing an at sign, is refused
    with Conflict "This email is already taken"; one whose username
    equals the first username up to case, the first username being
    non-empty and free of at signs, is refused with Conflict.  The only
    other outcome is that a call of the second run is rejected. *)
Theorem registerUser_then_conflict (env : Env.t) (w : World Store.t)
    (first second : UserData.t) (tx : Tx) (req req' : option Request.t)
    (user : AnyObject) :
  let h := RefStore.handler env in
  let r1 := run h (registerUser first tx req) w in
  let r2 := run h (registerUser second tx req') (world r1) in
  result r1 = Ok user ->
  includes USERNAME_BLACKLIST (UserData.username second) = false ->
  (includes_char "@" (UserData.email first) = true ->
   tolower (UserData.email second) = tolower (UserData.email first) ->
   result r2 = Err (ConflictError "This email is already taken")
   \/ existsb rejected (trace r2) = true)
  /\ (truthy (UserData.username first) = true ->
      includes_char "@" (UserData.username first) = false ->
      tolower (UserData.username second) = tolower (UserData.username first) ->
      (exists msg, result r2 = Err (ConflictError msg))
      \/ existsb rejected (trace r2) = true).
Proof.
  cbv zeta. set (h := RefStore.handler env). intros Hok Hb.
  destruct (registerUser_success_store env w first tx req user Hok)
    as (db0 & V).
  fold h in V.
  set (w1 := world (run h (registerUser first tx req) w)) in *.
  assert (Hlookup : forall (w0 : World Store.t) loginInfo column,
    Store.visible (Some tx) (w_ext w0)
    = Some (DB.add_user (RefStore.created_user env first db0) db0) ->
    truthy loginInfo = true ->
    (column = "email" \/ column = "username") ->
    column = (if includes_char "@" loginInfo then "email" else "username") ->
    (forall u, RefStore.field_of column u
               = Some (if String.eqb column "email"
                       then DbUser.email u else DbUser.username u)) ->
    tolower loginInfo
    = tolower (if String.eqb column "email"
               then UserData.email first else UserData.username first) ->
    let r := run h (findUser loginInfo (Some tx) ["id"]) w0 in
    (exists u, result r = Ok (Some u))
    \/ (is_ok (result r) = false /\ existsb rejected (trace r) = true)).
  { intros w0 loginInfo column V0 Ht Hcolumn Hpick Hfield Hlow. cbv zeta.
    unfold findUser. rewrite Ht, <- Hpick. simpl.
    destruct (h (ResinGetUserWhereLower column loginInfo ["id"] (Some tx))
                (w_ext w0)) as [[users | e] s1] eqn:E; simpl;
      [|right; split; reflexivity].
    left. apply handler_lookup in E. destruct E as (db & Vd & -> & _).
    rewrite V0 in Vd. injection Vd as <-.
    unfold RefStore.users_where_lower. simpl. rewrite filter_app. simpl.
    rewrite Hfield.
    replace (tolower _ =? tolower loginInfo)%string with true.
    - destruct (filter _ (DB.user db0)); simpl; eauto.
    - symmetry. apply String.eqb_eq. rewrite Hlow.
      destruct Hcolumn as [-> | ->]; reflexivity. }
  assert (Hkeep : forall (w0 : World Store.t) loginInfo,
    Store.visible (Some tx) (w_ext w0)
    = Some (DB.add_user (RefStore.created_user env first db0) db0) ->
    let r := run h (findUser loginInfo (Some tx) ["id"]) w0 in
    is_ok (result r) = true ->
    Store.visible (Some tx) (w_ext (world r))
    = Some (DB.add_user (RefStore.created_user env first db0) db0)).
  { intros w0 loginInfo V0. cbv zeta. unfold findUser.
    destruct (negb (truthy loginInfo)); simpl; [auto|].
    destruct (h _ (w_ext w0)) as [[users | e] s1] eqn:E; simpl;
      [|discriminate].
    intros _. apply handler_lookup in E. destruct E as (db & Vd & _ & Vd').
    unfold Store.visible in *. congruence. }
  assert (Hfield_email : forall u,
    RefStore.field_of "email" u
    = Some (if String.eqb "email" "email"
            then DbUser.email u else DbUser.username u)) by reflexivity.
  assert (Hfield_name : forall u,
    RefStore.field_of "username" u
    = Some (if String.eqb "username" "email"
            then DbUser.email u else DbUser.username u)) by reflexivity.
  unfold registerUser. rewrite Hb, run_bind. split.
  - intros Hat Hlow.
    assert (Hat2 : includes_char "@" (UserData.email second) = true).
    { rewrite <- includes_at_tolower_inv, Hlow, includes_at_tolower_inv.
      exact Hat. }
    assert (Ht2 : truthy (UserData.email second) = true).
    { destruct (UserData.email second); [discriminate Hat2 | reflexivity]. }
    destruct (Hlookup w1 (UserData.email second) "email" V Ht2
                (or_introl eq_refl)) as [[u Hu] | [Hf Hr]];
      try (rewrite ?Hat2; reflexivity); try exact Hfield_email;
      try exact Hlow.
    + left. rewrite Hu. reflexivity.
    + right. destruct (result (run h (findUser _ _ _) w1)); [discriminate Hf|].
      exact Hr.
  - intros Ht Hnoat Hlow.
    assert (Hnoat2 : includes_char "@" (UserData.username second) = false).
    { rewrite <- includes_at_tolower_inv, Hlow, includes_at_tolower_inv.
      exact Hnoat. }
    assert (Ht2 : truthy (UserData.username second) = true).
    { apply truthy_length. rewrite <- tolower_length, Hlow, tolower_length.
      apply truthy_length. exact Ht. }
    pose proof (Hkeep w1 (UserData.email second) V) as Hk. cbv zeta in Hk.
    destruct (result (run h (findUser (UserData.email second) (Some tx) ["id"])
                          w1)) as [[u|] | e] eqn:E1; cbn [result world trace].
    + left. eexists. reflexivity.
    + rewrite run_bind.
      destruct (Hlookup _ (UserData.username second) "username"
                  (Hk eq_refl) Ht2 (or_intror eq_refl))
        as [[u Hu] | [Hf Hr]];
        try (rewrite ?Hnoat2; reflexivity); try exact Hfield_name;
        try exact Hlow.
      * left. rewrite Hu. cbn [result world trace run]. eexists. reflexivity.
      * right.
        destruct (result (run h (findUser (UserData.username second) _ _) _));
          [discriminate Hf|].
        cbn [trace]. rewrite existsb_app, Hr. apply orb_true_r.
    + right.
      assert (Hrej : existsb rejected
                       (trace (run h (findUser (UserData.email second)
                                        (Some tx) ["id"]) w1)) = true).
      { revert E1. unfold findUser.
        destruct (negb (truthy (UserData.email second))); simpl;
          [discriminate|].
        destruct (h _ (w_ext w1)) as [[users | e'] s1]; simpl;
          [discriminate | reflexivity]. }
      exact Hrej.
Qed.

Lemma registerUser_then_conflict_witness :
  let h := RefStore.handler Sample.env in
  let bob := UserData.mk "bob" "bob@example.com" None [] in
  let r1 := run h (registerUser bob 0%nat None) Sample.world_in_tx in
  is_ok (result r1) = true
  /\ result (run h (registerUser
                      (UserData.mk "robert" "BOB@example.com" None [])
                      0%nat None) (world r1))
     = Err (ConflictError "This email is already taken")
  /\ exists msg,
       result (run h (registerUser
                        (UserData.mk "Bob" "other@example.com" None [])
                        0%nat None) (world r1))
       = Err (ConflictError msg).
Proof.
  intros h bob r1.
  assert (Hok : exists user, result r1 = Ok user)
    by (vm_compute; eexists; reflexivity).
  destruct Hok as [user Hok].
  split; [rewrite Hok; reflexivity|]. split.
  - destruct (proj1 (registerUser_then_conflict Sample.env Sample.world_in_tx
                       bob (UserData.mk "robert" "BOB@example.com" None [])
                       0%nat None None user Hok eq_refl) eq_refl eq_refl)
      as [H | H]; [exact H | vm_compute in H; discriminate H].
  - destruct (proj2 (registerUser_then_conflict Sample.env Sample.world_in_tx
                       bob (UserData.mk "Bob" "other@example.com" None [])
                       0%nat None None user Hok eq_refl)
                eq_refl eq_refl eq_refl)
      as [H | H]; [exact H | vm_compute in H; discriminate H].
Defined.

(** * Password round trip on the reference store *)

Lemma handler_patch (env : Env.t) (id : Z) (newPassword : string)
    (tx : option Tx) (s : Store.t) (x : unit) (s' : Store.t) :
  RefStore.handler env (ResinPatchUserPassword id newPassword tx) s = (Ok x, s') ->
  exists db, Store.visible tx s = Some db
             /\ Store.visible tx s'
                = Some (RefStore.patch_password env id newPassword db).
Proof.
  intros H. apply handler_ok in H. destruct H as (s0 & H & Ho & Hc).
  simpl in H. apply on_db_view in H. destruct H as (db & V & _ & V').
  exists db. split; [|exact V'].
  unfold Store.visible in *. destruct tx; congruence.
Qed.

Lemma handler_compare (env : Env.t) (password hash : string) (s : Store.t)
    (b : bool) (s' : Store.t) :
  RefStore.handler env (HashedCompare password hash) s = (Ok b, s') ->
  b = Env.compare env password hash
  /\ forall tx, Store.visible tx s' = Store.visible tx s.
Proof.
  intros H. apply handler_ok in H. destruct H as (s0 & H & Ho & Hc).
  simpl in H. injection H as <- <-. split; [reflexivity|].
  intros tx. unfold Store.visible. destruct tx; congruence.
Qed.

Lemma handler_get_by_id (env : Env.t) (userId : Z) (select : list string)
    (s : Store.t) (found : option DbUser.t) (s' : Store.t) :
  RefStore.handler env (ResinGetUserById userId select) s = (Ok found, s') ->
  found = find (fun u => Z.eqb (DbUser.id u) userId)
               (DB.user (Store.committed s))
  /\ Store.committed s' = Store.committed s.
Proof.
  intros H. apply handler_ok in H. destruct H as (s0 & H & Ho & Hc).
  simpl in H. injection H as <- <-. rewrite Hc. split; reflexivity.
Qed.

Lemma patched_where_lower (env : Env.t) (newPassword loginField loginInfo : string)
    (db : DB.t) (user : DbUser.t) (i : Z) :
  hd_error (RefStore.users_where_lower loginField loginInfo db) = Some user ->
  DbUser.id user = i ->
  exists user',
    hd_error (RefStore.users_where_lower loginField loginInfo
                (RefStore.patch_password env i newPassword db))
    = Some user'
    /\ DbUser.id user' = i
    /\ DbUser.password user' = Some (Env.hash env newPassword).
Proof.
  unfold RefStore.users_where_lower, RefStore.patch_password. simpl.
  induction (DB.user db) as [|a l IH]; simpl; [discriminate|].
  assert (Hf : forall b : DbUser.t,
    RefStore.field_of loginField
      (if (DbUser.id b =? i)%Z
       then DbUser.mk (DbUser.id b) (DbUser.actor b) (DbUser.username b)
                      (DbUser.email b) (Some (Env.hash env newPassword))
                      (DbUser.created_at b) (DbUser.jwt_secret b)
       else b)
    = RefStore.field_of loginField b).
  { intros b. unfold RefStore.field_of.
    destruct (DbUser.id b =? i)%Z; reflexivity. }
  rewrite Hf.
  destruct (match RefStore.field_of loginField a with
            | Some v => (tolower v =? tolower loginInfo)%string
            | None => false
            end); simpl.
  - intros H Hi. injection H as <-. rewrite Hi, Z.eqb_refl. eexists.
    split; [reflexivity|]. split; reflexivity.
  - exact IH.
Qed.

Lemma where_lower_In (loginField loginInfo : string) (db : DB.t)
    (user : DbUser.t) :
  hd_error (RefStore.users_where_lower loginField loginInfo db) = Some user ->
  In user (DB.user db).
Proof.
  unfold RefStore.users_where_lower. intros H.
  destruct (filter _ (DB.user db)) as [|u l] eqn:F; [discriminate H|].
  injection H as ->.
  assert (Hin : In user (user :: l)) by (left; reflexivity).
  rewrite <- F in Hin. apply filter_In in Hin. tauto.
Qed.

Lemma patched_find (env : Env.t) (newPassword : string) (db : DB.t)
    (user : DbUser.t) :
  In user (DB.user db) ->
  exists user',
    find (fun u => Z.eqb (DbUser.id u) (DbUser.id user))
         (DB.user (RefStore.patch_password env (DbUser.id user) newPassword db))
    = Some user'
    /\ DbUser.password user' = Some (Env.hash env newPassword).
Proof.
  unfold RefStore.patch_password. simpl.
  induction (DB.user db) as [|a l IH]; simpl; [tauto|].
  intros Hin.
  destruct (DbUser.id a =? DbUser.id user)%Z eqn:E; simpl.
  - rewrite E. eexists. split; reflexivity.
  - rewrite E. apply IH. destruct Hin as [-> | Hin]; [|exact Hin].
    rewrite Z.eqb_refl in E. discriminate E.
Qed.

Lemma comparePassword_call (password : string) (hash : option string) :
  exists p' h',
    comparePassword password hash = call (HashedCompare p' h')
    /\ forall x, hash = Some x -> p' = password /\ h' = x.
Proof.
  destruct hash as [x|].
  - exists password, x. split; [reflexivity|].
    intros y H. injection H as <-. split; reflexivity.
  - exists EmptyString, INVALID_HASH. split; [reflexivity|]. discriminate.
Qed.

(** The store after [updatePasswordIfNeeded] has answered true. *)
Lemma updatePasswordIfNeeded_true_store (env : Env.t) (w : World Store.t)
    (usernameOrEmail newPassword : string) (tx : option Tx) :
  let h := RefStore.handler env in
  let r := run h (updatePasswordIfNeeded usernameOrEmail newPassword tx) w in
  result r = Ok true ->
  exists db user,
    Store.visible tx (w_ext w) = Some db
    /\ truthy usernameOrEmail = true
    /\ result (run h (findUser usernameOrEmail tx defaultFindUser_select) w)
       = Ok (Some user)
    /\ hd_error (RefStore.users_where_lower (login_column usernameOrEmail)
                   usernameOrEmail db) = Some user
    /\ Store.visible tx (w_ext (world r))
       = Some (RefStore.patch_password env (DbUser.id user) newPassword db).
Proof.
  cbv zeta. set (h := RefStore.handler env).
  unfold updatePasswordIfNeeded, findUser. fold (login_column usernameOrEmail).
  destruct (truthy usernameOrEmail); simpl; [|discriminate].
  destruct (h (ResinGetUserWhereLower _ _ _ tx) (w_ext w))
    as [[users | e] s1] eqn:E1; simpl; [|discriminate].
  apply handler_lookup in E1. destruct E1 as (db & V & -> & V1).
  destruct (hd_error _) as [user|] eqn:Hhd; simpl; [|discriminate].
  intros H.
  exists db, user. split; [exact V|]. split; [reflexivity|].
  split; [reflexivity|]. split; [exact Hhd|].
  revert H. rewrite run_bind.
  destruct (comparePassword_call newPassword (DbUser.password user))
    as (p' & h' & -> & _).
  unfold call. cbn [run w_req w_ext].
  destruct (h (HashedCompare p' h') s1) as [[b | e] s2] eqn:E2;
    cbn [result world trace w_req w_ext]; [|discriminate].
  apply handler_compare in E2. destruct E2 as (_ & V2).
  destruct b; cbn [run result world trace]; [discriminate|].
  unfold try_catch. cbn [run result world trace w_req w_ext].
  destruct (h (ResinPatchUserPassword (DbUser.id user) newPassword tx) s2)
    as [[x | e] s3] eqn:E3; cbn [run result world trace w_req w_ext];
    [|discriminate].
  intros _. apply handler_patch in E3. destruct E3 as (db' & V3 & V3').
  rewrite V2, V1 in V3. injection V3 as <-. exact V3'.
Qed.

Lemma sample_hashes_verify : hashes_verify Sample.env.
Proof.
  intros password. apply String.eqb_refl.
Qed.

(** X18. On the reference store with a hash primitive that verifies
    what it has hashed, [updatePasswordIfNeeded] settles: once it has
    answered true, the same call again, in the same transaction or
    again outside any, writes nothing, and answers false unless one of
    its calls is rejected. *)
Theorem updatePasswordIfNeeded_settles (env : Env.t) (w : World Store.t)
    (usernameOrEmail newPassword : string) (tx : option Tx) :
  hashes_verify env ->
  let h := RefStore.handler env in
  let r1 := run h (updatePasswordIfNeeded usernameOrEmail newPassword tx) w in
  let r2 := run h (updatePasswordIfNeeded usernameOrEmail newPassword tx)
                (world r1) in
  result r1 = Ok true ->
  existsb is_user_write (trace r2) = false
  /\ (result r2 = Ok false \/ existsb rejected (trace r2) = true).
Proof.
  intros Hlaw. cbv zeta. set (h := RefStore.handler env). intros Hok.
  destruct (updatePasswordIfNeeded_true_store env w usernameOrEmail
              newPassword tx Hok) as (db & user & _ & Ht & _ & Hhd & V).
  fold h in V.
  set (w1 := world (run h (updatePasswordIfNeeded usernameOrEmail
                             newPassword tx) w)) in *.
  unfold updatePasswordIfNeeded at 1 2 3, findUser.
  fold (login_column usernameOrEmail). rewrite Ht. simpl.
  destruct (h (ResinGetUserWhereLower _ _ _ tx) (w_ext w1))
    as [[users | e] s1] eqn:E1; simpl; [|split; [reflexivity | right; reflexivity]].
  apply handler_lookup in E1. destruct E1 as (db' & V1 & -> & _).
  rewrite V in V1. injection V1 as <-.
  destruct (patched_where_lower env newPassword _ _ _ _ _ Hhd eq_refl)
    as (user' & -> & _ & Hpw).
  simpl. rewrite Hpw. simpl.
  destruct (h (HashedCompare newPassword (Env.hash env newPassword)) s1)
    as [[b | e] s2] eqn:E2; simpl;
    [|split; [reflexivity | right; reflexivity]].
  apply handler_compare in E2. destruct E2 as (-> & _).
  rewrite Hlaw. simpl. split; [reflexivity | left; reflexivity].
Qed.

Lemma updatePasswordIfNeeded_settles_witness :
  let h := RefStore.handler Sample.env in
  let r1 := run h (updatePasswordIfNeeded "Alice@Example.com" "password2" None)
                (Sample.world []) in
  let r2 := run h (updatePasswordIfNeeded "Alice@Example.com" "password2" None)
                (world r1) in
  result r1 = Ok true
  /\ existsb is_user_write (trace r2) = false
  /\ result r2 = Ok false.
Proof.
  intros h r1 r2. split; [reflexivity|].
  destruct (updatePasswordIfNeeded_settles Sample.env (Sample.world [])
              "Alice@Example.com" "password2" None sample_hashes_verify
              eq_refl) as [Hw [Hr | Hr]].
  - split; [exact Hw | exact Hr].
  - vm_compute in Hr. discriminate Hr.
Defined.

(** X19. Set, then check.  On the reference store with a hash primitive
    that verifies what it has hashed: once [updatePasswordIfNeeded],
    called outside any transaction, has answered true, [checkUserPassword]
    with the same password and the id of the user [findUser] had
    answered succeeds, unless one of its calls is rejected; it reports
    neither a missing user nor an incorrect password. *)
Theorem checkUserPassword_after_update (env : Env.t) (w : World Store.t)
    (usernameOrEmail newPassword : string) (user : DbUser.t) :
  hashes_verify env ->
  let h := RefStore.handler env in
  let r1 := run h (updatePasswordIfNeeded usernameOrEmail newPassword None) w in
  let r2 := run h (checkUserPassword newPassword (DbUser.id user)) (world r1) in
  result (run h (findUser usernameOrEmail None defaultFindUser_select) w)
  = Ok (Some user) ->
  result r1 = Ok true ->
  result r2 = Ok tt \/ existsb rejected (trace r2) = true.
Proof.
  intros Hlaw. cbv zeta. set (h := RefStore.handler env). intros Hfound Hok.
  destruct (updatePasswordIfNeeded_true_store env w usernameOrEmail
              newPassword None Hok) as (db & user0 & _ & _ & Hf & Hhd & V).
  fold h in V, Hf. rewrite Hfound in Hf. injection Hf as <-.
  set (w1 := world (run h (updatePasswordIfNeeded usernameOrEmail
                             newPassword None) w)) in *.
  simpl in V. injection V as V.
  unfold checkUserPassword. simpl.
  destruct (h (ResinGetUserById (DbUser.id user) _) (w_ext w1))
    as [[found | e] s1] eqn:E1; simpl; [|right; reflexivity].
  apply handler_get_by_id in E1. destruct E1 as (-> & _).
  rewrite V.
  destruct (patched_find env newPassword db user (where_lower_In _ _ _ _ Hhd))
    as (user' & -> & Hpw).
  simpl. rewrite Hpw. simpl.
  destruct (h (HashedCompare newPassword (Env.hash env newPassword)) s1)
    as [[b | e] s2] eqn:E2; simpl; [|right; reflexivity].
  apply handler_compare in E2. destruct E2 as (-> & _).
  rewrite Hlaw. simpl. left. reflexivity.
Qed.

Lemma checkUserPassword_after_update_witness :
  let h := RefStore.handler Sample.env in
  let r1 := run h (updatePasswordIfNeeded "alice" "password2" None)
                (Sample.world []) in
  result r1 = Ok true
  /\ result (run h (checkUserPassword "password2" 1) (world r1)) = Ok tt.
Proof.
  intros h r1. split; [reflexivity|].
  destruct (checkUserPassword_after_update Sample.env (Sample.world [])
              "alice" "password2" Sample.alice sample_hashes_verify
              eq_refl eq_refl) as [Hr | Hr].
  - exact Hr.
  - vm_compute in Hr. discriminate Hr.
Defined.

(** * The superuser account *)

(** X20. [createSuperuser] never fails: whatever the store, the hash
    primitive and [getOrInsertModelId] do, it returns normally, every
    error being caught by its outer handler.  With the email or the
    password unset or empty it returns at once, without a single call. *)
Theorem createSuperuser_never_fails
    (getOrInsertModelId : string -> AnyObject -> Tx -> Prog AnyObject)
    S (h : Handler S) (w : World S)
    (SUPERUSER_EMAIL SUPERUSER_PASSWORD : option string) :
  let r := run h (createSuperuser getOrInsertModelId SUPERUSER_EMAIL
                    SUPERUSER_PASSWORD) w in
  result r = Ok tt
  /\ (falsy SUPERUSER_EMAIL || falsy SUPERUSER_PASSWORD = true ->
      trace r = [] /\ world r = w).
Proof.
  cbv zeta. unfold createSuperuser.
  destruct (falsy SUPERUSER_EMAIL || falsy SUPERUSER_PASSWORD).
  - simpl. auto.
  - split; [|discriminate]. rewrite run_try_catch.
    destruct (result (run h (db_transaction _) w)) as [[] | e];
      reflexivity.
Qed.

Ltac calls_by_cases :=
  repeat (simpl;
          match goal with
          | |- True => exact I
          | |- _ /\ _ => split
          | |- forall _, _ => intro
          | |- _ = _ => reflexivity
          | |- calls_satisfy _ (if ?b then _ else _) => destruct b
          | |- calls_satisfy _ (match ?x with _ => _ end) => destruct x
          | |- calls_satisfy _ (bind (if ?b then _ else _) _) => destruct b
          | |- calls_satisfy _ (bind (match ?x with _ => _ end) _) => destruct x
          end).

Lemma registerUser_no_patch (userData : UserData.t) (tx : Tx)
    (req : option Request.t) :
  calls_satisfy (fun e => is_password_patch e = false)
    (registerUser userData tx req).
Proof.
  unfold registerUser, findUser. calls_by_cases.
Qed.

Lemma findUser_no_patch (loginInfo : string) (tx : option Tx)
    (select : list string) :
  calls_satisfy (fun e => is_password_patch e = false)
    (findUser loginInfo tx select).
Proof.
  unfold findUser. calls_by_cases.
Qed.

Lemma updatePasswordIfNeeded_patches_outside
    (usernameOrEmail newPassword : string) :
  calls_satisfy (patches_outside newPassword)
    (updatePasswordIfNeeded usernameOrEmail newPassword None).
Proof.
  unfold updatePasswordIfNeeded, findUser, comparePassword,
    runInvalidPasswordComparison, setPassword.
  calls_by_cases.
Qed.

Lemma no_patch_patches_outside (password : string) (e : Event) :
  is_password_patch e = false -> patches_outside password e.
Proof.
  destruct e; simpl; intros H; first [exact I | discriminate H].
Qed.

Lemma calls_satisfy_try_catch A (P : Event -> Prop) (body : Prog A)
    (handler : Error -> Prog A) :
  calls_satisfy P body -> (forall e, calls_satisfy P (handler e)) ->
  calls_satisfy P (try_catch body handler).
Proof.
  intros Hb Hh. unfold try_catch. simpl. repeat split; auto.
Qed.

Lemma calls_satisfy_db_transaction A (P : Event -> Prop) (fn : Tx -> Prog A) :
  P DbBegin -> (forall tx, P (DbEnd tx) /\ P (DbRollback tx)) ->
  (forall tx, calls_satisfy P (fn tx)) ->
  calls_satisfy P (db_transaction fn).
Proof.
  intros Hb Hc Hfn. unfold db_transaction.
  apply calls_satisfy_bind; [split; [exact Hb | intros; exact I]|].
  intros tx. apply calls_satisfy_try_catch.
  - apply calls_satisfy_bind; [apply Hfn|]. intros r.
    apply calls_satisfy_bind; [|intros; exact I].
    split; [apply Hc | intros; exact I].
  - intros e. apply calls_satisfy_bind; [|intros; exact I].
    split; [apply Hc | intros; exact I].
Qed.

(** The steps of a transaction are those of its body, between the
    begin and the end or rollback. *)
Lemma db_transaction_trace S (h : Handler S) A (fn : Tx -> Prog A)
    (w : World S) (P : Step -> Prop) :
  (forall st, is_tx_control (step_call st) = true -> P st) ->
  (forall tx, fst (h DbBegin (w_ext w)) = Ok tx ->
     Forall P (trace (run h (fn tx)
                        (mkWorld (w_req w) (snd (h DbBegin (w_ext w))))))) ->
  Forall P (trace (run h (db_transaction fn) w)).
Proof.
  intros Hc Hbody. rewrite run_db_transaction.
  destruct (h DbBegin (w_ext w)) as [[tx | e] s]; simpl in *.
  - specialize (Hbody tx eq_refl).
    destruct (result (run h (fn tx) _)) as [a | e].
    + destruct (h (DbEnd tx) _) as [[u | e] s1].
      * simpl. constructor; [apply Hc; reflexivity|].
        apply Forall_app. split; [exact Hbody|].
        constructor; [apply Hc; reflexivity | constructor].
      * destruct (h (DbRollback tx) s1) as [[u | e'] s2]; simpl;
          (constructor; [apply Hc; reflexivity|]);
          apply Forall_app; (split; [exact Hbody|]);
          (constructor; [apply Hc; reflexivity|]);
          (constructor; [apply Hc; reflexivity | constructor]).
    + destruct (h (DbRollback tx) _) as [[u | e'] s2]; simpl;
        (constructor; [apply Hc; reflexivity|]);
        apply Forall_app; (split; [exact Hbody|]);
        (constructor; [apply Hc; reflexivity | constructor]).
  - constructor; [apply Hc; reflexivity | constructor].
Qed.

(** X21. The password update of [createSuperuser] is made outside its
    transaction, and only after a refused registration.  Provided
    [getOrInsertModelId] updates no password: every password update of a
    run sets the configured password and carries no transaction (the
    call is made from inside the transaction callback, without its
    transaction); and a run updates no password unless the transaction
    was opened and [registerUser] in it was refused with Conflict. *)
Theorem createSuperuser_password_update
    (getOrInsertModelId : string -> AnyObject -> Tx -> Prog AnyObject)
    S (h : Handler S) (w : World S)
    (SUPERUSER_EMAIL SUPERUSER_PASSWORD : option string) :
  (forall model fields tx,
     calls_satisfy (fun e => is_password_patch e = false)
       (getOrInsertModelId model fields tx)) ->
  let r := run h (createSuperuser getOrInsertModelId SUPERUSER_EMAIL
                    SUPERUSER_PASSWORD) w in
  let data := superuser_data SUPERUSER_EMAIL SUPERUSER_PASSWORD in
  Forall (fun st => patches_outside (value_of SUPERUSER_PASSWORD) (step_call st))
         (trace r)
  /\ ((forall tx msg,
         fst (h DbBegin (w_ext w)) = Ok tx ->
         result (run h (registerUser data tx None)
                     (mkWorld (w_req w) (snd (h DbBegin (w_ext w)))))
         <> Err (ConflictError msg)) ->
      Forall (fun st => is_password_patch (step_call st) = false) (trace r)).
Proof.
  intros Hg. cbv zeta.
  assert (Hrest : forall tx (u : unit),
    calls_satisfy (fun e => is_password_patch e = false)
      (user <- findUser (UserData.username
                           (superuser_data SUPERUSER_EMAIL SUPERUSER_PASSWORD))
                        (Some tx) defaultFindUser_select ;;
       match user with
       | None => Ret tt
       | Some user =>
           organization <-
             getOrInsertModelId "organization"
               [("name", VStr (DbUser.username user));
                ("handle", VStr (DbUser.username user))] tx ;;
           getOrInsertModelId "organization_membership"
             [("user", VNum (DbUser.id user));
              ("is_member_of__organization", get_prop organization "id")]
             tx ;;
           Ret tt
       end)).
  { intros tx u. apply calls_satisfy_bind; [apply findUser_no_patch|].
    intros [user|]; [|exact I].
    apply calls_satisfy_bind; [apply Hg|]. intros organization.
    apply calls_satisfy_bind; [apply Hg|]. intros _. exact I. }
  split.
  - apply calls_satisfy_trace. unfold createSuperuser.
    destruct (falsy SUPERUSER_EMAIL || falsy SUPERUSER_PASSWORD); [exact I|].
    cbv zeta.
    apply calls_satisfy_try_catch; [|intros; exact I].
    apply calls_satisfy_db_transaction; [exact I | split; exact I|].
    intros tx. apply calls_satisfy_bind.
    + apply calls_satisfy_try_catch.
      * apply calls_satisfy_bind; [|intros; exact I].
        eapply calls_satisfy_impl;
          [apply no_patch_patches_outside | apply registerUser_no_patch].
      * intros e. destruct (is_ConflictError e); [|exact I].
        apply calls_satisfy_bind; [|intros; exact I].
        apply updatePasswordIfNeeded_patches_outside.
    + intros u. eapply calls_satisfy_impl;
        [apply no_patch_patches_outside | apply (Hrest tx u)].
  - intros Hno. unfold createSuperuser.
    destruct (falsy SUPERUSER_EMAIL || falsy SUPERUSER_PASSWORD);
      [constructor|].
    cbv zeta. rewrite run_try_catch.
    match goal with
    | |- context [run h (db_transaction ?fn) w] =>
        assert (Htx : Forall (fun st => is_password_patch (step_call st) = false)
                        (trace (run h (db_transaction fn) w)))
    end.
    2: { destruct (result (run h (db_transaction _) w)) as [x | e];
         cbn [trace run]; rewrite ?app_nil_r; exact Htx. }
    apply db_transaction_trace.
    + intros st Hst. destruct (step_call st); simpl in *;
        first [reflexivity | discriminate Hst].
    + intros tx Hb. specialize (Hno tx).
      rewrite run_bind, run_try_catch, run_bind.
      set (w1 := mkWorld (w_req w) (snd (h DbBegin (w_ext w)))) in *.
      pose proof (calls_satisfy_trace S h _ _ _
                    (registerUser_no_patch
                       (superuser_data SUPERUSER_EMAIL SUPERUSER_PASSWORD)
                       tx None) w1) as Hreg.
      destruct (result (run h (registerUser _ tx None) w1)) as [user | e] eqn:E.
      * cbn [result world trace run]. rewrite app_nil_r.
        match goal with
        | |- context [run h ?p ?w0] =>
            pose proof (calls_satisfy_trace S h _ _ p (Hrest tx tt) w0) as Hr;
              destruct (result (run h p w0))
        end; cbn [trace]; repeat (apply Forall_app; split);
          first [exact Hreg | exact Hr].
      * destruct e; cbn [is_ConflictError result world trace run];
          rewrite ?app_nil_r; try exact Hreg.
        exfalso. exact (Hno msg Hb eq_refl).
Qed.

Lemma createSuperuser_password_update_witness :
  let h := RefStore.handler Sample.env in
  let organization (_ : string) (_ : AnyObject) (_ : Tx) : Prog AnyObject :=
    Ret [("id", VNum 7)] in
  let admin := DbUser.mk 5 6 "admin" "root@example.com" (Some "h:old-password")
                         "2020-01-01" None in
  let w := mkWorld (Sample.request None)
                   (Store.mk (DB.set_users [admin] Sample.db) [] 0%nat []) in
  let again := run h (createSuperuser organization (Some "root@example.com")
                        (Some "new-password")) w in
  let fresh := run h (createSuperuser organization (Some "root@example.com")
                        (Some "new-password")) (Sample.world []) in
  In (answered (ResinPatchUserPassword 5 "new-password" None) tt) (trace again)
  /\ Forall (fun st => patches_outside "new-password" (step_call st))
            (trace again)
  /\ Forall (fun st => is_password_patch (step_call st) = false) (trace fresh).
Proof.
  intros h organization admin w again fresh.
  assert (Hg : forall model fields tx,
            calls_satisfy (fun e => is_password_patch e = false)
              (organization model fields tx)) by (intros; exact I).
  split; [|split].
  - vm_compute. do 4 right. left. reflexivity.
  - exact (proj1 (createSuperuser_password_update organization Store.t h w
                    (Some "root@example.com") (Some "new-password") Hg)).
  - apply (proj2 (createSuperuser_password_update organization Store.t h
                    (Sample.world []) (Some "root@example.com")
                    (Some "new-password") Hg)).
    intros tx msg Hb. vm_compute in Hb. injection Hb as <-.
    vm_compute. discriminate.
Defined.

Lemma createSuperuser_never_fails_witness :
  let h := RefStore.handler Sample.env in
  let failing (_ : string) (_ : AnyObject) (_ : Tx) : Prog AnyObject :=
    Throw (PlainError "no such resource") in
  let r := run h (createSuperuser failing (Some "root@example.com")
                    (Some "new-password")) (Sample.world []) in
  let unset := run h (createSuperuser failing None (Some "new-password"))
                   (Sample.world []) in
  result r = Ok tt
  /\ existsb is_rollback (trace r) = true
  /\ trace unset = [].
Proof.
  intros h failing r unset. split; [|split].
  - exact (proj1 (createSuperuser_never_fails failing Store.t h
                    (Sample.world []) (Some "root@example.com")
                    (Some "new-password"))).
  - reflexivity.
  - exact (proj1 (proj2 (createSuperuser_never_fails failing Store.t h
                           (Sample.world []) None (Some "new-password"))
                    eq_refl)).
Defined.
